(** * A recursive-descent JSON decoder: model of [json_decoder/decoder.py]

    The decoder works on a Python [str], a sequence of Unicode code points,
    through a cursor [idx] (the index of the last consumed character, [-1]
    before the first) that every parsing routine advances.  The embedding
    keeps that shape: a text is a list of code points, every routine is a
    function from the cursor to a result and the new cursor, and a raised
    exception is a result of its own.  Python's [while True] loops and the
    mutual recursion between values, objects and arrays are cut by a [fuel]
    argument; [decode] provides three units of fuel for every character, and
    no run on any text uses them up ([decode_ends]).

    Of the host, the limit on the number of digits [int()] converts is part
    of the model ([Py.max_str_digits], 4300 in CPython 3.11).  Two things of
    the host are outside it: the interpreter's recursion limit, which a text
    meets when it nests arrays and objects some hundred levels deep, and
    memory.  The Unicode tables are those of Unicode 14.0.0 (CPython 3.11). *)

From Stdlib Require Import ZArith String Ascii List Bool Lia SpecFloat.
Import ListNotations.
Local Open Scope Z_scope.

(** ** Characters and texts *)

(** A Python character is its code point, a Python [str] the list of them. *)
Abbreviation char := Z (only parsing).
Abbreviation str := (list Z) (only parsing).

Abbreviation TAB := 9 (only parsing).
Abbreviation LF := 10 (only parsing).
Abbreviation CR := 13 (only parsing).
Abbreviation SPACE := 32 (only parsing).
Abbreviation DQUOTE := 34 (only parsing).
Abbreviation PLUS := 43 (only parsing).
Abbreviation COMMA := 44 (only parsing).
Abbreviation MINUS := 45 (only parsing).
Abbreviation DOT := 46 (only parsing).
Abbreviation SLASH := 47 (only parsing).
Abbreviation ZERO := 48 (only parsing).
Abbreviation COLON := 58 (only parsing).
Abbreviation QUESTION := 63 (only parsing).
Abbreviation LBRACKET := 91 (only parsing).
Abbreviation BACKSLASH := 92 (only parsing).
Abbreviation RBRACKET := 93 (only parsing).
Abbreviation UNDERSCORE := 95 (only parsing).
Abbreviation LBRACE := 123 (only parsing).
Abbreviation RBRACE := 125 (only parsing).

Definition code (a : ascii) : char := Z.of_nat (nat_of_ascii a).

(** [txt] reads a text off a Rocq string literal, byte by byte (so for ASCII
    texts), with the apostrophe standing for the double quote U+0022. *)
Fixpoint txt (s : string) : str :=
  match s with
  | EmptyString => []
  | String a s' => (if Ascii.eqb a "'" then DQUOTE else code a) :: txt s'
  end.

Fixpoint str_eqb (a b : str) : bool :=
  match a, b with
  | [], [] => true
  | x :: a', y :: b' => (x =? y) && str_eqb a' b'
  | _, _ => false
  end.

(** ** Decimal numerals *)

Definition is_ascii_digit (c : char) : bool := (ZERO <=? c) && (c <=? 57).

(** The number a string of ASCII digits denotes. *)
Definition decimal (ds : str) : Z :=
  fold_left (fun a d => 10 * a + (d - ZERO)) ds 0.

(** The binary64 number nearest to [m * 10 ^ e] (ties to even), signed by
    [neg]; [m] is not negative. *)
Definition nearest_double (neg : bool) (m e : Z) : spec_float :=
  match m with
  | Zpos p =>
      if 0 <=? e then binary_round 53 1024 neg (p * Z.to_pos (10 ^ e)) 0
      else SFdiv 53 1024 (S754_finite neg p 0)
                         (S754_finite false (Z.to_pos (10 ^ (- e))) 0)
  | _ => S754_zero neg
  end.

(** ** The Python built-ins the decoder calls *)

Module Py.

Definition in_table (tbl : list (Z * Z)) (c : char) : bool :=
  existsb (fun r => (fst r <=? c) && (c <=? snd r)) tbl.

(** Code points with [str.isspace()] true (White_Space, or bidirectional
    class WS, B or S), as ranges from the first to the last. *)
Definition space_table : list (Z * Z) :=
  [(9, 13); (28, 32); (133, 133); (160, 160); (5760, 5760); (8192, 8202);
   (8232, 8233); (8239, 8239); (8287, 8287); (12288, 12288)]%Z.

(** Code points of general category Nd ([str.isdecimal()]).  Every range is
    a whole number of blocks of the digits 0 to 9, so the digit value of [c]
    in a range from [lo] is [(c - lo) mod 10]. *)
Definition decimal_table : list (Z * Z) :=
  [(48, 57); (1632, 1641); (1776, 1785); (1984, 1993); (2406, 2415);
   (2534, 2543); (2662, 2671); (2790, 2799); (2918, 2927); (3046, 3055);
   (3174, 3183); (3302, 3311); (3430, 3439); (3558, 3567); (3664, 3673);
   (3792, 3801); (3872, 3881); (4160, 4169); (4240, 4249); (6112, 6121);
   (6160, 6169); (6470, 6479); (6608, 6617); (6784, 6793); (6800, 6809);
   (6992, 7001); (7088, 7097); (7232, 7241); (7248, 7257); (42528, 42537);
   (43216, 43225); (43264, 43273); (43472, 43481); (43504, 43513);
   (43600, 43609); (44016, 44025); (65296, 65305); (66720, 66729);
   (68912, 68921); (69734, 69743); (69872, 69881); (69942, 69951);
   (70096, 70105); (70384, 70393); (70736, 70745); (70864, 70873);
   (71248, 71257); (71360, 71369); (71472, 71481); (71904, 71913);
   (72016, 72025); (72784, 72793); (73040, 73049); (73120, 73129);
   (92768, 92777); (92864, 92873); (93008, 93017); (120782, 120831);
   (123200, 123209); (123632, 123641); (125264, 125273); (130032, 130041)]%Z.

(** Code points with Numeric_Type=Digit that are not decimal (superscripts,
    circled digits and the like): [str.isdigit()] true, [str.isdecimal()]
    false. *)
Definition digit_only_table : list (Z * Z) :=
  [(178, 179); (185, 185); (4969, 4977); (6618, 6618); (8304, 8304);
   (8308, 8313); (8320, 8329); (9312, 9320); (9332, 9340); (9352, 9360);
   (9450, 9450); (9461, 9469); (9471, 9471); (10102, 10110); (10112, 10120);
   (10122, 10130); (68160, 68163); (69216, 69224); (69714, 69722);
   (127232, 127242)]%Z.

(** Code points with [str.isnumeric()] true (Numeric_Type Decimal, Digit or
    Numeric). *)
Definition numeric_table : list (Z * Z) :=
  [(48, 57); (178, 179); (185, 185); (188, 190); (1632, 1641); (1776, 1785);
   (1984, 1993); (2406, 2415); (2534, 2543); (2548, 2553); (2662, 2671);
   (2790, 2799); (2918, 2927); (2930, 2935); (3046, 3058); (3174, 3183);
   (3192, 3198); (3302, 3311); (3416, 3422); (3430, 3448); (3558, 3567);
   (3664, 3673); (3792, 3801); (3872, 3891); (4160, 4169); (4240, 4249);
   (4969, 4988); (5870, 5872); (6112, 6121); (6128, 6137); (6160, 6169);
   (6470, 6479); (6608, 6618); (6784, 6793); (6800, 6809); (6992, 7001);
   (7088, 7097); (7232, 7241); (7248, 7257); (8304, 8304); (8308, 8313);
   (8320, 8329); (8528, 8578); (8581, 8585); (9312, 9371); (9450, 9471);
   (10102, 10131); (11517, 11517); (12295, 12295); (12321, 12329);
   (12344, 12346); (12690, 12693); (12832, 12841); (12872, 12879);
   (12881, 12895); (12928, 12937); (12977, 12991); (13317, 13317);
   (13443, 13443); (14378, 14378); (15181, 15181); (19968, 19968);
   (19971, 19971); (19975, 19975); (19977, 19977); (20061, 20061);
   (20108, 20108); (20116, 20116); (20118, 20118); (20159, 20160);
   (20191, 20191); (20200, 20200); (20237, 20237); (20336, 20336);
   (20740, 20740); (20806, 20806); (20841, 20841); (20843, 20843);
   (20845, 20845); (21313, 21313); (21315, 21317); (21324, 21324);
   (21441, 21444); (22235, 22235); (22769, 22769); (22777, 22777);
   (24186, 24186); (24318, 24319); (24332, 24334); (24336, 24336);
   (25342, 25342); (25420, 25420); (26578, 26578); (28422, 28422);
   (29590, 29590); (30334, 30334); (32902, 32902); (33836, 33836);
   (36014, 36014); (36019, 36019); (36144, 36144); (38433, 38433);
   (38470, 38470); (38476, 38476); (38520, 38520); (38646, 38646);
   (42528, 42537); (42726, 42735); (43056, 43061); (43216, 43225);
   (43264, 43273); (43472, 43481); (43504, 43513); (43600, 43609);
   (44016, 44025); (63851, 63851); (63859, 63859); (63864, 63864);
   (63922, 63922); (63953, 63953); (63955, 63955); (63997, 63997);
   (65296, 65305); (65799, 65843); (65856, 65912); (65930, 65931);
   (66273, 66299); (66336, 66339); (66369, 66369); (66378, 66378);
   (66513, 66517); (66720, 66729); (67672, 67679); (67705, 67711);
   (67751, 67759); (67835, 67839); (67862, 67867); (68028, 68029);
   (68032, 68047); (68050, 68095); (68160, 68168); (68221, 68222);
   (68253, 68255); (68331, 68335); (68440, 68447); (68472, 68479);
   (68521, 68527); (68858, 68863); (68912, 68921); (69216, 69246);
   (69405, 69414); (69457, 69460); (69573, 69579); (69714, 69743);
   (69872, 69881); (69942, 69951); (70096, 70105); (70113, 70132);
   (70384, 70393); (70736, 70745); (70864, 70873); (71248, 71257);
   (71360, 71369); (71472, 71483); (71904, 71922); (72016, 72025);
   (72784, 72812); (73040, 73049); (73120, 73129); (73664, 73684);
   (74752, 74862); (92768, 92777); (92864, 92873); (93008, 93017);
   (93019, 93025); (93824, 93846); (119520, 119539); (119648, 119672);
   (120782, 120831); (123200, 123209); (123632, 123641); (125127, 125135);
   (125264, 125273); (126065, 126123); (126125, 126127); (126129, 126132);
   (126209, 126253); (126255, 126269); (127232, 127244); (130032, 130041);
   (131073, 131073); (131172, 131172); (131298, 131298); (131361, 131361);
   (133418, 133418); (133507, 133507); (133516, 133516); (133532, 133532);
   (133866, 133866); (133885, 133885); (133913, 133913); (140176, 140176);
   (141720, 141720); (146203, 146203); (156269, 156269); (194704, 194704)]%Z.

(** [str.isspace()], [str.isdecimal()], [str.isdigit()] and
    [str.isnumeric()] on a one-character string. *)
Definition isspace (c : char) : bool := in_table space_table c.
Definition isdecimal (c : char) : bool := in_table decimal_table c.
Definition isdigit (c : char) : bool :=
  isdecimal c || in_table digit_only_table c.
Definition isnumeric (c : char) : bool := in_table numeric_table c.

(** The decimal digit value of a character of category Nd. *)
Definition decimal_value (c : char) : option Z :=
  match find (fun r => (fst r <=? c) && (c <=? snd r)) decimal_table with
  | Some (lo, _) => Some ((c - lo) mod 10)
  | None => None
  end.

(** [hd.lower() in "abcdef"] for a one-character [hd].  The only characters
    whose lower-case form is a substring of ["abcdef"] are the twelve ASCII
    letters a-f and A-F. *)
Definition lower_in_abcdef (c : char) : bool :=
  ((97 <=? c) && (c <=? 102)) || ((65 <=? c) && (c <=? 70)).

(** Indexing [s[i]], a negative [i] counting from the end; [None] stands
    for the [IndexError] of an index out of range. *)
Definition index (s : str) (i : Z) : option char :=
  let len := Z.of_nat (length s) in
  let j := if i <? 0 then i + len else i in
  if (0 <=? j) && (j <? len) then nth_error s (Z.to_nat j) else None.

(** [chr] and [ord]. *)
Definition chr (i : Z) : option char :=
  if (0 <=? i) && (i <=? 1114111) then Some i else None.
Definition ord (c : char) : Z := c.

(** What [int()] and [float()] do to a [str] before they parse it: ASCII
    below 127 is kept, any other white space becomes a space, a decimal digit
    of any script becomes the ASCII digit of its value, and the first other
    character becomes a question mark that ends the string. *)
Fixpoint to_ascii (s : str) : str :=
  match s with
  | [] => []
  | c :: s' =>
      if c <? 127 then c :: to_ascii s'
      else if isspace c then SPACE :: to_ascii s'
      else match decimal_value c with
           | Some d => (ZERO + d) :: to_ascii s'
           | None => [QUESTION]
           end
  end.

(** The C locale's white space, which both conversions strip at the ends. *)
Definition c_isspace (c : char) : bool :=
  ((TAB <=? c) && (c <=? CR)) || (c =? SPACE).

Fixpoint lstrip (s : str) : str :=
  match s with
  | c :: s' => if c_isspace c then lstrip s' else s
  | [] => []
  end.

Definition strip (s : str) : str := rev (lstrip (rev (lstrip s))).

Definition sign (s : str) : bool * str :=
  match s with
  | c :: s' =>
      if c =? PLUS then (false, s')
      else if c =? MINUS then (true, s')
      else (false, s)
  | [] => (false, s)
  end.

(** *** [int(s, base)], for the bases 10 and 16 the decoder uses *)

(** The value of a digit in any base up to 36; 37 for any other character. *)
Definition digit_value (c : char) : Z :=
  if (ZERO <=? c) && (c <=? 57) then c - 48
  else if (97 <=? c) && (c <=? 122) then c - 87
  else if (65 <=? c) && (c <=? 90) then c - 55
  else 37.

(** Digits with single underscores between them, to the end of the string. *)
Fixpoint scan_digits (base acc : Z) (prev : char) (s : str) : option Z :=
  match s with
  | [] => if prev =? UNDERSCORE then None else Some acc
  | c :: s' =>
      if c =? UNDERSCORE then
        if prev =? UNDERSCORE then None else scan_digits base acc c s'
      else if digit_value c <? base then
        scan_digits base (acc * base + digit_value c) c s'
      else None
  end.

(** After the sign, base 16 admits a prefix [0x] or [0X] and one underscore
    behind it. *)
Definition skip_prefix (base : Z) (s : str) : str :=
  match s with
  | z :: x :: s' =>
      if (base =? 16) && (z =? ZERO) && ((x =? 120) || (x =? 88)) then
        match s' with
        | u :: s'' => if u =? UNDERSCORE then s'' else s'
        | [] => s'
        end
      else s
  | _ => s
  end.

(** [sys.int_info.default_max_str_digits]: in a base that is no power of
    two, [int()] refuses a string of more digits, the underscores not
    counted. *)
Definition max_str_digits : Z := 4300.

Definition binary_base (base : Z) : bool :=
  (base =? 2) || (base =? 4) || (base =? 8) || (base =? 16) || (base =? 32).

Definition count_digits (s : str) : Z :=
  Z.of_nat (length (filter (fun c => negb (c =? UNDERSCORE)) s)).

(** [None] stands for the [ValueError] that [int()] raises. *)
Definition int (base : Z) (s : str) : option Z :=
  let (neg, a) := sign (strip (to_ascii s)) in
  match skip_prefix base a with
  | [] => None
  | c :: ds =>
      if c =? UNDERSCORE then None
      else match scan_digits base 0 0 (c :: ds) with
           | Some v =>
               if binary_base base || (count_digits (c :: ds) <=? max_str_digits)
               then Some (if neg then - v else v)
               else None
           | None => None
           end
  end.

(** *** [float(s)] *)

(** Underscores are removed when each stands between two digits. *)
Fixpoint drop_underscores (prev : char) (s : str) : option str :=
  match s with
  | [] => if prev =? UNDERSCORE then None else Some []
  | c :: s' =>
      if c =? UNDERSCORE then
        if is_ascii_digit prev then drop_underscores c s' else None
      else if (prev =? UNDERSCORE) && negb (is_ascii_digit c) then None
      else option_map (cons c) (drop_underscores c s')
  end.

Fixpoint span_digits (s : str) : str * str :=
  match s with
  | c :: s' =>
      if is_ascii_digit c then
        let (ds, r) := span_digits s' in (c :: ds, r)
      else ([], s)
  | [] => ([], [])
  end.

Definition ascii_lower (c : char) : char :=
  if (65 <=? c) && (c <=? 90) then c + 32 else c.

Definition inf_or_nan (neg : bool) (s : str) : option spec_float :=
  let l := map ascii_lower s in
  if str_eqb l (txt "inf") || str_eqb l (txt "infinity")
  then Some (S754_infinity neg)
  else if str_eqb l (txt "nan") then Some S754_nan
  else None.

(** The exponent part, which must reach the end of the string. *)
Definition exponent (s : str) : option Z :=
  match s with
  | [] => Some 0
  | e :: s' =>
      if (e =? 101) || (e =? 69) then
        let (eneg, s'') := sign s' in
        match span_digits s'' with
        | ((_ :: _) as ds, []) =>
            Some (if eneg then - decimal ds else decimal ds)
        | _ => None
        end
      else None
  end.

(** A sign, digits with at most one dot among them and at least one digit,
    an optional exponent; or a signed [inf], [infinity] or [nan]. *)
Definition strtod (s : str) : option spec_float :=
  let (neg, s1) := sign s in
  let (ip, r1) := span_digits s1 in
  let (fp, r2) :=
    match r1 with
    | c :: r => if c =? DOT then span_digits r else ([], r1)
    | [] => ([], r1)
    end in
  match ip ++ fp with
  | [] => inf_or_nan neg s1
  | ds =>
      match exponent r2 with
      | Some e =>
          Some (nearest_double neg (decimal ds) (e - Z.of_nat (length fp)))
      | None => None
      end
  end.

(** [None] stands for the [ValueError] that [float()] raises. *)
Definition float (s : str) : option spec_float :=
  match drop_underscores 0 (strip (to_ascii s)) with
  | Some a => strtod a
  | None => None
  end.

End Py.

(** ** Decoded values *)

(** What [decode] returns: [None], a [bool], an [int], a [float], a [str], a
    [list] or a [dict].  A [dict] keeps its keys in the order of their first
    insertion. *)
#[warnings="-register-all"] Inductive Value : Type :=
| Null
| Bool (b : bool)
| Integer (z : Z)
| Float (f : spec_float)
| String (s : str)
| Array (l : list Value)
| Object (d : list (str * Value)).

(** [d[k] = v]: the value of an existing key is replaced where it stands, a
    new key goes to the end. *)
Fixpoint dict_set {V : Type} (k : str) (v : V) (d : list (str * V))
  : list (str * V) :=
  match d with
  | [] => [(k, v)]
  | (k', v') :: d' =>
      if str_eqb k k' then (k', v) :: d' else (k', v') :: dict_set k v d'
  end.

Fixpoint dict_get {V : Type} (k : str) (d : list (str * V)) : option V :=
  match d with
  | [] => None
  | (k', v') :: d' => if str_eqb k k' then Some v' else dict_get k d'
  end.

(** ** Failures *)

(** One constructor for each message a [JSONDecodeError] is raised with. *)
Inductive message : Type :=
| No_input                 (* No input *)
| Invalid_JSON             (* Invalid JSON *)
| Extra_characters         (* Extra characters after JSON *)
| Object_unterminated      (* Object ends without } *)
| Keys_must_be_strings     (* Keys must be strings *)
| Key_without_colon        (* Key not followed by ":" *)
| Two_commas               (* Can't have two commas back to back *)
| Trailing_comma           (* Can't end with a trailing comma *)
| Keys_not_separated       (* Keys must be separated by ,  *)
| Unterminated_string      (* Unterminated string *)
| Unescaped_control        (* Unescaped control character in string *)
| Backslash_at_end         (* \ not followed by anything to escape *)
| Invalid_u_escape         (* Invalid escape with \u *)
| Invalid_escape           (* Invalid escape *)
| Dot_at_end               (* Dot cannot be in the end *)
| Leading_zero             (* Number cannot begin with 0 *)
| Invalid_number           (* Invalid number *)
| Array_unterminated       (* Array ends without ] *)
| Elements_not_separated   (* Array elements must be separated with , *)
| Invalid_literal.         (* Invalid literal syntax *)

(** The exceptions a run can end with: the decoder's own, and the two that
    the built-ins it calls outside a [try] can raise. *)
Inductive exn : Type :=
| JSONDecodeError (m : message)
| ValueError
| IndexError.

Inductive result (A : Type) : Type :=
| Return (a : A)
| Raise (e : exn)
| OutOfFuel.
Arguments Return {A} a.
Arguments Raise {A} e.
Arguments OutOfFuel {A}.

(** A routine that runs from cursor [i] returns its value and the cursor it
    leaves, or raises. *)
Notation "'let*' ( x , i ) := m 'in' k" :=
  (match m with
   | Return (x, i) => k
   | Raise e => Raise e
   | OutOfFuel => OutOfFuel
   end)
  (at level 10, x name, i name, m at level 100, k at level 200,
   format "'[v' 'let*'  ( x ,  i )  :=  m  'in' '/' k ']'").

(** The names the design gives to the failures (its section 7). *)
Inductive kind : Type :=
| EmptyInput | UnexpectedCharacter | ExtraCharactersAfterValue
| UnterminatedContainer | NonStringKey | MissingColon | MissingCommaOrBrace
| MissingCommaOrBracket | DoubleComma | TrailingComma | UnterminatedString
| UnescapedControlCharacter | InvalidEscape | InvalidUnicodeEscape
| InvalidNumber | InvalidLiteral.

Definition kind_of (m : message) : kind :=
  match m with
  | No_input => EmptyInput
  | Invalid_JSON => UnexpectedCharacter
  | Extra_characters => ExtraCharactersAfterValue
  | Object_unterminated | Array_unterminated => UnterminatedContainer
  | Keys_must_be_strings => NonStringKey
  | Key_without_colon => MissingColon
  | Two_commas => DoubleComma
  | Trailing_comma => TrailingComma
  | Keys_not_separated => MissingCommaOrBrace
  | Elements_not_separated => MissingCommaOrBracket
  | Unterminated_string => UnterminatedString
  | Unescaped_control => UnescapedControlCharacter
  | Backslash_at_end | Invalid_escape => InvalidEscape
  | Invalid_u_escape => InvalidUnicodeEscape
  | Dot_at_end | Leading_zero | Invalid_number => InvalidNumber
  | Invalid_literal => InvalidLiteral
  end.

(** ** The decoder *)

Module JSONDecoder.

(** Valid escape characters that can exist in a string. *)
Definition _ESCAPE_CHARACTERS : list (char * char) :=
  [ (DQUOTE, DQUOTE); (BACKSLASH, BACKSLASH); (110, LF); (114, CR);
    (116, TAB); (98, 8); (102, 12); (SLASH, SLASH) ].

Fixpoint lookup (k : char) (d : list (char * char)) : option char :=
  match d with
  | [] => None
  | (k', v) :: d' => if k =? k' then Some v else lookup k d'
  end.

(** [char in (",", "}", "]")] *)
Definition closes (c : char) : bool :=
  (c =? COMMA) || (c =? RBRACE) || (c =? RBRACKET).

Section Cursor.

(** [self.content]; [self.n] is its length; [self.idx] is the cursor that
    the routines below take and return. *)
Variable content : str.

Definition n : Z := Z.of_nat (length content).

(** See the next character, without moving. *)
Definition _peek (idx : Z) : option char :=
  if idx + 1 <? n then nth_error content (Z.to_nat (idx + 1)) else None.

(** Get the next character and move to it. *)
Definition _next (idx : Z) : option char * Z :=
  match _peek idx with
  | Some c => (Some c, idx + 1)
  | None => (None, idx)
  end.

(** Skip all whitespace characters from the cursor on. *)
Fixpoint _skip_whitespace (fuel : nat) (idx : Z) : result (unit * Z) :=
  match fuel with
  | O => OutOfFuel
  | S fuel =>
      match _peek idx with
      | Some c =>
          if (c =? SPACE) || (c =? TAB) || (c =? LF) || (c =? CR)
          then _skip_whitespace fuel (snd (_next idx))
          else Return (tt, idx)
      | None => Return (tt, idx)
      end
  end.

(** *** Strings *)

(** [for _ in range(4)]: the hexadecimal digits of a [\u] escape. *)
Fixpoint hex_loop (k : nat) (hex_digits : str) (idx : Z)
  : result (str * Z) :=
  match k with
  | O => Return (hex_digits, idx)
  | S k =>
      let (hd, idx) := _next idx in
      match hd with
      | None => Raise (JSONDecodeError Invalid_u_escape)
      | Some h =>
          if Py.isdigit h || Py.lower_in_abcdef h
          then hex_loop k (hex_digits ++ [h]) idx
          else Raise (JSONDecodeError Invalid_u_escape)
      end
  end.

(** The [while True] of [_parse_string]: [s] is the string so far, [char]
    the character consumed last. *)
Fixpoint string_loop (fuel : nat) (s : str) (char : option char) (idx : Z)
  : result (str * Z) :=
  match fuel with
  | O => OutOfFuel
  | S fuel =>
      match char with
      | None => Raise (JSONDecodeError Unterminated_string)
      | Some c =>
          if Py.ord c <? 32 then Raise (JSONDecodeError Unescaped_control)
          else if c =? DQUOTE then Return (s, idx)
          else if c =? BACKSLASH then
            let (next, idx) := _next idx in
            match next with
            | None => Raise (JSONDecodeError Backslash_at_end)
            | Some e =>
                if e =? 117 then
                  let* (hex_digits, idx) := hex_loop 4 [] idx in
                  match Py.int 16 hex_digits with
                  | None => Raise ValueError
                  | Some v =>
                      match Py.chr v with
                      | None => Raise ValueError
                      | Some u =>
                          let (char, idx) := _next idx in
                          string_loop fuel (s ++ [u]) char idx
                      end
                  end
                else
                  match lookup e _ESCAPE_CHARACTERS with
                  | None => Raise (JSONDecodeError Invalid_escape)
                  | Some x =>
                      let (char, idx) := _next idx in
                      string_loop fuel (s ++ [x]) char idx
                  end
            end
          else
            let (char, idx) := _next idx in
            string_loop fuel (s ++ [c]) char idx
      end
  end.

Definition _parse_string (fuel : nat) (idx : Z) : result (str * Z) :=
  let (_, idx) := _next idx in
  let (char, idx) := _next idx in
  string_loop fuel [] char idx.

(** *** Numbers *)

(** The [while True] of [_parse_number]: everything up to white space, a
    comma or a closing bracket is the number. *)
Fixpoint number_loop (fuel : nat) (s : str) (isFloat : bool) (idx : Z)
  : result (str * bool * Z) :=
  match fuel with
  | O => OutOfFuel
  | S fuel =>
      match _peek idx with
      | Some c =>
          if negb (Py.isspace c) && negb (closes c) then
            number_loop fuel (s ++ [c])
                        (if c =? DOT then true else isFloat)
                        (snd (_next idx))
          else Return (s, isFloat, idx)
      | None => Return (s, isFloat, idx)
      end
  end.

(** [len(s) >= 2 and s[0] == "0" and s[1].isnumeric()].  [None] when an
    index is out of range. *)
Definition begins_with_zero (s : str) : option bool :=
  if 2 <=? Z.of_nat (length s) then
    match Py.index s 0 with
    | None => None
    | Some c0 =>
        if c0 =? ZERO then
          match Py.index s 1 with
          | None => None
          | Some c1 => Some (Py.isnumeric c1)
          end
        else Some false
    end
  else Some false.

Definition _parse_number (fuel : nat) (idx : Z) : result (Value * Z) :=
  let* (si, idx) := number_loop fuel [] false idx in
  let (s, isFloat) := si in
  match Py.index s (-1) with
  | None => Raise IndexError
  | Some last =>
      if last =? DOT then Raise (JSONDecodeError Dot_at_end)
      else
        match begins_with_zero s with
        | None => Raise IndexError
        | Some true => Raise (JSONDecodeError Leading_zero)
        | Some false =>
            if isFloat then
              match Py.float s with
              | Some f => Return (Float f, idx)
              | None => Raise (JSONDecodeError Invalid_number)
              end
            else
              match Py.int 10 s with
              | Some z => Return (Integer z, idx)
              | None => Raise (JSONDecodeError Invalid_number)
              end
        end
  end.

(** *** Literals *)

Fixpoint literal_loop (fuel : nat) (s : str) (idx : Z) : result (str * Z) :=
  match fuel with
  | O => OutOfFuel
  | S fuel =>
      match _peek idx with
      | Some c =>
          if negb (Py.isspace c) && negb (closes c)
          then literal_loop fuel (s ++ [c]) (snd (_next idx))
          else Return (s, idx)
      | None => Return (s, idx)
      end
  end.

Definition _parse_literal (fuel : nat) (idx : Z) : result (Value * Z) :=
  let* (s, idx) := literal_loop fuel [] idx in
  if str_eqb s (txt "true") then Return (Bool true, idx)
  else if str_eqb s (txt "false") then Return (Bool false, idx)
  else if str_eqb s (txt "null") then Return (Null, idx)
  else Raise (JSONDecodeError Invalid_literal).

(** *** Values, objects and arrays *)

(** [char == c] for a [char] that may be [None]. *)
Definition is_char (o : option char) (c : char) : bool :=
  match o with
  | Some x => x =? c
  | None => false
  end.

(** [_parse_one] chooses the routine by the next character; [object_loop]
    and [array_loop] are the [while True] loops of [_parse_object] and
    [_parse_array], with the container built so far. *)
Fixpoint _parse_one (fuel : nat) (idx : Z) {struct fuel}
  : result (Value * Z) :=
  match fuel with
  | O => OutOfFuel
  | S fuel =>
      match _peek idx with
      | None => Raise (JSONDecodeError No_input)
      | Some first =>
          if first =? LBRACE then
            let* (obj, idx) := _parse_object fuel idx in
            Return (Object obj, idx)
          else if first =? LBRACKET then
            let* (arr, idx) := _parse_array fuel idx in
            Return (Array arr, idx)
          else if first =? DQUOTE then
            let* (s, idx) := _parse_string fuel idx in
            Return (String s, idx)
          else if (first =? 116) || (first =? 102) || (first =? 110) then
            _parse_literal fuel idx
          else if (first =? MINUS) || Py.isdigit first then
            _parse_number fuel idx
          else Raise (JSONDecodeError Invalid_JSON)
      end
  end

with _parse_object (fuel : nat) (idx : Z) {struct fuel}
  : result (list (str * Value) * Z) :=
  match fuel with
  | O => OutOfFuel
  | S fuel => object_loop fuel [] (snd (_next idx))
  end

with object_loop (fuel : nat) (obj : list (str * Value)) (idx : Z)
  {struct fuel} : result (list (str * Value) * Z) :=
  match fuel with
  | O => OutOfFuel
  | S fuel =>
      let* (_, idx) := _skip_whitespace fuel idx in
      let char := _peek idx in
      match char with
      | None => Raise (JSONDecodeError Object_unterminated)
      | Some c =>
          if c =? RBRACE then Return (obj, snd (_next idx))
          else if negb (c =? DQUOTE)
          then Raise (JSONDecodeError Keys_must_be_strings)
          else
            let* (key, idx) := _parse_string fuel idx in
            let* (_, idx) := _skip_whitespace fuel idx in
            let (char, idx) := _next idx in
            if negb (is_char char COLON)
            then Raise (JSONDecodeError Key_without_colon)
            else
              let* (_, idx) := _skip_whitespace fuel idx in
              let* (value, idx) := _parse_one fuel idx in
              let obj := dict_set key value obj in
              let* (_, idx) := _skip_whitespace fuel idx in
              let char := _peek idx in
              if is_char char COMMA then
                let idx := snd (_next idx) in
                let* (_, idx) := _skip_whitespace fuel idx in
                let char := _peek idx in
                if is_char char COMMA
                then Raise (JSONDecodeError Two_commas)
                else if is_char char RBRACE
                then Raise (JSONDecodeError Trailing_comma)
                else object_loop fuel obj idx
              else if negb (is_char char RBRACE)
              then Raise (JSONDecodeError Keys_not_separated)
              else object_loop fuel obj idx
      end
  end

with _parse_array (fuel : nat) (idx : Z) {struct fuel}
  : result (list Value * Z) :=
  match fuel with
  | O => OutOfFuel
  | S fuel => array_loop fuel [] (snd (_next idx))
  end

with array_loop (fuel : nat) (arr : list Value) (idx : Z) {struct fuel}
  : result (list Value * Z) :=
  match fuel with
  | O => OutOfFuel
  | S fuel =>
      let* (_, idx) := _skip_whitespace fuel idx in
      let char := _peek idx in
      match char with
      | None => Raise (JSONDecodeError Array_unterminated)
      | Some c =>
          if c =? RBRACKET then Return (arr, snd (_next idx))
          else
            let* (element, idx) := _parse_one fuel idx in
            let* (_, idx) := _skip_whitespace fuel idx in
            let char := _peek idx in
            if is_char char COMMA then
              let idx := snd (_next idx) in
              let* (_, idx) := _skip_whitespace fuel idx in
              let char := _peek idx in
              if is_char char COMMA
              then Raise (JSONDecodeError Two_commas)
              else if is_char char RBRACKET
              then Raise (JSONDecodeError Trailing_comma)
              else array_loop fuel (arr ++ [element]) idx
            else if negb (is_char char RBRACKET)
            then Raise (JSONDecodeError Elements_not_separated)
            else array_loop fuel (arr ++ [element]) idx
      end
  end.

(** Parse the whole text: one value, white space around it, nothing else. *)
Definition decode (fuel : nat) : result Value :=
  let* (_, idx) := _skip_whitespace fuel (-1) in
  let* (result, idx) := _parse_one fuel idx in
  let* (_, idx) := _skip_whitespace fuel idx in
  match _peek idx with
  | Some _ => Raise (JSONDecodeError Extra_characters)
  | None => Return result
  end.

End Cursor.

End JSONDecoder.

Import JSONDecoder.

(** Run to decode any raw string.  A decoder is made for the text, with the
    cursor before its first character, and run; no run needs more than three
    units of fuel for a character. *)
Definition decode (content : str) : result Value :=
  JSONDecoder.decode content (3 + 3 * length content).

(** ** The text left to read *)

(** What lies behind the cursor: the characters not yet consumed. *)
Definition rest (content : str) (idx : Z) : str :=
  skipn (Z.to_nat (idx + 1)) content.

(** The cursor [idx] stands in [content] just before [s]. *)
Definition At (content : str) (idx : Z) (s : str) : Prop :=
  -1 <= idx /\ rest content idx = s.

(** A run from cursor [idx] ends within the text: it raises, or returns with
    a cursor that did not move back nor beyond the last character; it does
    not run out of fuel.  It advances when the cursor moved on. *)
Definition ends_within {A : Type} (content : str) (idx : Z)
  (r : result (A * Z)) : Prop :=
  match r with
  | Return (_, idx') => idx <= idx' <= JSONDecoder.n content - 1
  | Raise _ => True
  | OutOfFuel => False
  end.

Definition advances {A : Type} (content : str) (idx : Z)
  (r : result (A * Z)) : Prop :=
  match r with
  | Return (_, idx') => idx < idx' <= JSONDecoder.n content - 1
  | Raise _ => True
  | OutOfFuel => False
  end.

(** The four characters the decoder skips between tokens. *)
Definition is_ws (c : char) : bool :=
  (c =? SPACE) || (c =? TAB) || (c =? LF) || (c =? CR).

Definition ws (w : str) : Prop := forallb is_ws w = true.

(** Does the text begin with one of them? *)
Definition ws_ahead (s : str) : bool :=
  match s with
  | c :: _ => is_ws c
  | [] => false
  end.

(** A number or a literal ends where white space, a comma or a closing
    bracket is ahead, or the text ends. *)
Definition token_char (c : char) : bool :=
  negb (Py.isspace c) && negb (JSONDecoder.closes c).

Definition delimited (r : str) : bool :=
  match r with
  | c :: _ => negb (token_char c)
  | [] => true
  end.

(** ** Objects as sequences of assignments *)

(** The dictionary a sequence of members builds, assigned in text order. *)
Definition dict_of {V : Type} (ps : list (str * V)) : list (str * V) :=
  fold_left (fun d kv => dict_set (fst kv) (snd kv) d) ps [].

(** The value of the last member with key [k]. *)
Fixpoint last_value {V : Type} (k : str) (ps : list (str * V)) : option V :=
  match ps with
  | [] => None
  | (k', v) :: ps' =>
      match last_value k ps' with
      | Some x => Some x
      | None => if str_eqb k k' then Some v else None
      end
  end.

(** ** The grammar of the design, with the value each text denotes *)

(** Modelled from the spec: the trusted reference JSON decoder, which is no
    part of the repository.  It is the restricted grammar of the design's
    section 6, as a relation between a text and the value a JSON decoder
    gives it.  With [pairs = true] an
    escape for a high surrogate followed by an escape for a low surrogate
    denotes the one character they encode together, as the reference decoder
    reads them; with [pairs = false] every escape denotes the character of
    its own code point.  An integer has a value up to the number of digits
    that [int()] converts, for the reference decoder as for this one. *)
Module Grammar.

Definition hex_value (c : char) : option Z :=
  if (ZERO <=? c) && (c <=? 57) then Some (c - 48)
  else if (97 <=? c) && (c <=? 102) then Some (c - 87)
  else if (65 <=? c) && (c <=? 70) then Some (c - 55)
  else None.

Definition hex4 (h1 h2 h3 h4 : char) : option Z :=
  match hex_value h1, hex_value h2, hex_value h3, hex_value h4 with
  | Some a, Some b, Some c, Some d => Some (((a * 16 + b) * 16 + c) * 16 + d)
  | _, _, _, _ => None
  end.

(** The character an escape of one letter denotes: a backslash and then a
    double quote, a backslash, a slash, or one of n, r, t, b, f. *)
Definition escape (e : char) : option char :=
  if e =? DQUOTE then Some DQUOTE
  else if e =? BACKSLASH then Some BACKSLASH
  else if e =? SLASH then Some SLASH
  else if e =? 110 then Some LF
  else if e =? 114 then Some CR
  else if e =? 116 then Some TAB
  else if e =? 98 then Some 8
  else if e =? 102 then Some 12
  else None.

Definition is_high (v : Z) : bool := (55296 <=? v) && (v <=? 56319).
Definition is_low (v : Z) : bool := (56320 <=? v) && (v <=? 57343).

(** The astral character a surrogate pair encodes. *)
Definition combine (hi lo : Z) : char :=
  65536 + (hi - 55296) * 1024 + (lo - 56320).

(** The low surrogate a text begins with an escape for, if it does. *)
Definition low_escape (s : str) : option Z :=
  match s with
  | b :: u :: h1 :: h2 :: h3 :: h4 :: _ =>
      if (b =? BACKSLASH) && (u =? 117) then
        match hex4 h1 h2 h3 h4 with
        | Some v => if is_low v then Some v else None
        | None => None
        end
      else None
  | _ => None
  end.

(** Digits; and digits with no zero before another digit. *)
Definition digits (ds : str) : bool :=
  match ds with
  | [] => false
  | _ :: _ => forallb is_ascii_digit ds
  end.

Definition int_part (ds : str) : bool :=
  match ds with
  | [] => false
  | [d] => is_ascii_digit d
  | d :: ds' => is_ascii_digit d && negb (d =? ZERO) && forallb is_ascii_digit ds'
  end.

Definition minus (neg : bool) : str := if neg then [MINUS] else [].

Section Values.

Variable pairs : bool.

(** The body of a string, between its quotes, and the string it denotes. *)
Inductive chars : str -> str -> Prop :=
| chars_nil : chars [] []
| chars_raw c body s :
    32 <= c -> c <> DQUOTE -> c <> BACKSLASH ->
    chars body s ->
    chars (c :: body) (c :: s)
| chars_escape e x body s :
    escape e = Some x ->
    chars body s ->
    chars (BACKSLASH :: e :: body) (x :: s)
| chars_u h1 h2 h3 h4 v body s :
    hex4 h1 h2 h3 h4 = Some v ->
    (pairs = true -> is_high v = true -> low_escape body = None) ->
    chars body s ->
    chars (BACKSLASH :: 117 :: h1 :: h2 :: h3 :: h4 :: body) (v :: s)
| chars_pair h1 h2 h3 h4 hi l1 l2 l3 l4 lo body s :
    pairs = true ->
    hex4 h1 h2 h3 h4 = Some hi -> is_high hi = true ->
    hex4 l1 l2 l3 l4 = Some lo -> is_low lo = true ->
    chars body s ->
    chars (BACKSLASH :: 117 :: h1 :: h2 :: h3 :: h4 ::
           BACKSLASH :: 117 :: l1 :: l2 :: l3 :: l4 :: body)
          (combine hi lo :: s).

(** A value; the elements of an array behind its bracket and white space;
    the members of an object likewise. *)
Inductive value : str -> Value -> Prop :=
| v_null : value (txt "null") Null
| v_true : value (txt "true") (Bool true)
| v_false : value (txt "false") (Bool false)
| v_integer neg ip :
    int_part ip = true ->
    Z.of_nat (length ip) <= Py.max_str_digits ->
    value (minus neg ++ ip)
          (Integer (if neg then - decimal ip else decimal ip))
| v_float neg ip fp :
    int_part ip = true -> digits fp = true ->
    value (minus neg ++ ip ++ DOT :: fp)
          (Float (nearest_double neg (decimal (ip ++ fp))
                                 (- Z.of_nat (length fp))))
| v_string body s :
    chars body s ->
    value (DQUOTE :: body ++ [DQUOTE]) (String s)
| v_array_empty w :
    ws w ->
    value (LBRACKET :: w ++ [RBRACKET]) (Array [])
| v_array w body vs :
    ws w -> elements body vs ->
    value (LBRACKET :: w ++ body ++ [RBRACKET]) (Array vs)
| v_object_empty w :
    ws w ->
    value (LBRACE :: w ++ [RBRACE]) (Object [])
| v_object w body ps :
    ws w -> members body ps ->
    value (LBRACE :: w ++ body ++ [RBRACE]) (Object (dict_of ps))

with elements : str -> list Value -> Prop :=
| elements_last t v w :
    value t v -> ws w ->
    elements (t ++ w) [v]
| elements_more t v w1 w2 body vs :
    value t v -> ws w1 -> ws w2 -> elements body vs ->
    elements (t ++ w1 ++ COMMA :: w2 ++ body) (v :: vs)

with members : str -> list (str * Value) -> Prop :=
| members_last kb k w1 w2 t v w3 :
    chars kb k -> ws w1 -> ws w2 -> value t v -> ws w3 ->
    members (DQUOTE :: kb ++ DQUOTE :: w1 ++ COLON :: w2 ++ t ++ w3)
            [(k, v)]
| members_more kb k w1 w2 t v w3 w4 body ps :
    chars kb k -> ws w1 -> ws w2 -> value t v -> ws w3 -> ws w4 ->
    members body ps ->
    members (DQUOTE :: kb ++ DQUOTE :: w1 ++ COLON :: w2 ++ t ++ w3 ++
             COMMA :: w4 ++ body)
            ((k, v) :: ps).

(** A JSON text: one value with white space around it. *)
Definition json (text : str) (v : Value) : Prop :=
  exists w1 t w2,
    text = w1 ++ t ++ w2 /\ ws w1 /\ ws w2 /\ value t v.

End Values.

(** Does the text hold an escape for a high surrogate with an escape for a
    low surrogate right behind it? *)
Definition pair_at (s : str) : bool :=
  match s with
  | b :: u :: h1 :: h2 :: h3 :: h4 :: s' =>
      (b =? BACKSLASH) && (u =? 117) &&
      match hex4 h1 h2 h3 h4 with
      | Some v =>
          is_high v && match low_escape s' with Some _ => true | None => false end
      | None => false
      end
  | _ => false
  end.

(** The text is read escape by escape: behind a backslash the escaped
    character, or the [u] and its four digits, are no start of an escape. *)
Fixpoint has_surrogate_pair (s : str) : bool :=
  match s with
  | [] => false
  | b :: s1 =>
      if b =? BACKSLASH then
        match s1 with
        | [] => false
        | e :: s2 =>
            if e =? 117 then
              pair_at (b :: s1) ||
              match s2 with
              | _ :: _ :: _ :: _ :: s' => has_surrogate_pair s'
              | _ => false
              end
            else has_surrogate_pair s2
        end
      else has_surrogate_pair s1
  end.

(** How deep the text nests arrays and objects: the most brackets and
    braces that are open at a time, those within strings not counted.
    [depth] is the number open before [s]. *)
Fixpoint nesting_from (in_string : bool) (depth : nat) (s : str) : nat :=
  match s with
  | [] => 0%nat
  | c :: s' =>
      if in_string then
        if c =? BACKSLASH then
          match s' with
          | [] => 0%nat
          | _ :: s'' => nesting_from true depth s''
          end
        else if c =? DQUOTE then nesting_from false depth s'
        else nesting_from true depth s'
      else if c =? DQUOTE then nesting_from true depth s'
      else if (c =? LBRACKET) || (c =? LBRACE)
      then Nat.max (S depth) (nesting_from false (S depth) s')
      else if (c =? RBRACKET) || (c =? RBRACE)
      then nesting_from false (Nat.pred depth) s'
      else nesting_from false depth s'
  end.

Definition nesting (text : str) : nat := nesting_from false 0 text.

End Grammar.

(** ** What the host allows *)

(** Every array and object within another takes two more frames of the
    interpreter's stack, [_parse_one] and [_parse_array] or [_parse_object].
    The stack of CPython holds 1000 frames unless the host changes it; a
    text that nests no deeper than this stays far within it. *)
Definition nesting_limit : nat := 100.

(** A value that ends in a closing quote, bracket or brace is a string, an
    array or an object: it ends there, whatever follows. *)
Definition closing (c : char) : bool :=
  (c =? DQUOTE) || (c =? RBRACKET) || (c =? RBRACE).

(** * Properties *)

(** ** The cursor *)

Lemma skipn_cons_inv (A : Type) (k : nat) (l : list A) (x : A) (s : list A) :
  skipn k l = x :: s ->
  nth_error l k = Some x /\ skipn (S k) l = s /\ (k < length l)%nat.
Proof.
  revert l; induction k as [|k IH]; intros [|y l] H; simpl in *;
    try discriminate.
  - inversion H; subst; repeat split; lia.
  - destruct (IH _ H) as (H1 & H2 & H3); repeat split; auto; lia.
Qed.

Lemma skipn_nil_inv (A : Type) (k : nat) (l : list A) :
  skipn k l = [] -> (length l <= k)%nat.
Proof.
  revert l; induction k as [|k IH]; intros [|y l] H; simpl in *;
    try discriminate; try lia.
  apply IH in H; lia.
Qed.

Section CursorFacts.

Variable content : str.

Lemma At_init : At content (-1) content.
Proof. split; [lia | reflexivity]. Qed.

Lemma At_rest idx : -1 <= idx -> At content idx (rest content idx).
Proof. split; auto. Qed.

Lemma At_length idx s : At content idx s -> (length s <= length content)%nat.
Proof.
  intros [_ <-]; unfold rest; rewrite length_skipn; lia.
Qed.

Lemma peek_cons idx c s : At content idx (c :: s) -> _peek content idx = Some c.
Proof.
  intros [Hi H]; unfold rest in H.
  apply skipn_cons_inv in H; destruct H as (H1 & _ & H3).
  unfold _peek, n.
  destruct (Z.ltb_spec (idx + 1) (Z.of_nat (length content))); [assumption|lia].
Qed.

Lemma peek_nil idx : At content idx [] -> _peek content idx = None.
Proof.
  intros [Hi H]; unfold rest in H; apply skipn_nil_inv in H.
  unfold _peek, n.
  destruct (Z.ltb_spec (idx + 1) (Z.of_nat (length content))); [lia|reflexivity].
Qed.

Lemma At_step idx c s : At content idx (c :: s) -> At content (idx + 1) s.
Proof.
  intros [Hi H]; unfold rest in H.
  apply skipn_cons_inv in H; destruct H as (_ & H2 & _).
  split; [lia|]. unfold rest.
  replace (Z.to_nat (idx + 1 + 1)) with (S (Z.to_nat (idx + 1))) by lia.
  assumption.
Qed.

Lemma next_cons idx c s :
  At content idx (c :: s) -> _next content idx = (Some c, idx + 1).
Proof. intros H; unfold _next; rewrite (peek_cons _ _ _ H); reflexivity. Qed.

Lemma next_nil idx : At content idx [] -> _next content idx = (None, idx).
Proof. intros H; unfold _next; rewrite (peek_nil _ H); reflexivity. Qed.

(** Whatever the cursor, a peek reads the head of the rest. *)
Lemma peek_rest idx :
  -1 <= idx -> _peek content idx = hd_error (rest content idx).
Proof.
  intros Hi. destruct (rest content idx) as [|c s] eqn:E.
  - apply peek_nil; split; auto.
  - simpl; apply (peek_cons idx c s); split; auto.
Qed.

End CursorFacts.

(** ** Deciding comparisons *)

(** Replace every comparison of the goal that linear arithmetic settles. *)
Ltac zbool :=
  repeat match goal with
  | |- context [?a =? ?b] =>
      first [ replace (a =? b) with true by (symmetry; apply Z.eqb_eq; lia)
            | replace (a =? b) with false by (symmetry; apply Z.eqb_neq; lia) ]
  | |- context [?a <=? ?b] =>
      first [ replace (a <=? b) with true by (symmetry; apply Z.leb_le; lia)
            | replace (a <=? b) with false by (symmetry; apply Z.leb_gt; lia) ]
  | |- context [?a <? ?b] =>
      first [ replace (a <? b) with true by (symmetry; apply Z.ltb_lt; lia)
            | replace (a <? b) with false by (symmetry; apply Z.ltb_ge; lia) ]
  end.

(** Turn the boolean hypotheses into arithmetic ones. *)
Ltac zhyps :=
  repeat match goal with
  | H : _ && _ = true |- _ => apply andb_prop in H; destruct H
  | H : _ || _ = false |- _ => apply orb_false_elim in H; destruct H
  | H : negb _ = true |- _ => apply negb_true_iff in H
  | H : negb _ = false |- _ => apply negb_false_iff in H
  | H : (_ =? _) = true |- _ => apply Z.eqb_eq in H
  | H : (_ =? _) = false |- _ => apply Z.eqb_neq in H
  | H : (_ <=? _) = true |- _ => apply Z.leb_le in H
  | H : (_ <=? _) = false |- _ => apply Z.leb_gt in H
  | H : (_ <? _) = true |- _ => apply Z.ltb_lt in H
  | H : (_ <? _) = false |- _ => apply Z.ltb_ge in H
  end.

(** A property of the characters of a short range, checked one by one. *)
Lemma range_check (p : Z -> bool) (lo : Z) (len : nat) :
  forallb p (map (fun k => lo + Z.of_nat k) (seq 0 len)) = true ->
  forall c, lo <= c < lo + Z.of_nat len -> p c = true.
Proof.
  intros H c Hc. rewrite forallb_forall in H. apply H.
  apply in_map_iff. exists (Z.to_nat (c - lo)). split; [lia|].
  apply in_seq; lia.
Qed.

Lemma str_eqb_eq (a b : str) : str_eqb a b = true <-> a = b.
Proof.
  revert b; induction a as [|x a IH]; intros [|y b]; simpl; split;
    try discriminate; try reflexivity; intros H.
  - apply andb_prop in H; destruct H as [H1 H2].
    apply Z.eqb_eq in H1; apply IH in H2; congruence.
  - inversion H; subst. rewrite Z.eqb_refl; simpl. apply IH; reflexivity.
Qed.

Lemma str_eqb_refl (a : str) : str_eqb a a = true.
Proof. apply str_eqb_eq; reflexivity. Qed.

(** ** White space *)

Lemma ws_cons c w : ws (c :: w) -> is_ws c = true /\ ws w.
Proof. unfold ws; simpl; intros H; apply andb_prop in H; exact H. Qed.

Lemma ws_app w1 w2 : ws w1 -> ws w2 -> ws (w1 ++ w2).
Proof. unfold ws; intros; rewrite forallb_app; apply andb_true_intro; auto. Qed.

(** Every text is white space and then a text that does not begin with it. *)
Lemma ws_split (s : str) :
  exists w s', s = w ++ s' /\ ws w /\ ws_ahead s' = false.
Proof.
  induction s as [|c s (w & s' & E & Hw & Hs)].
  - exists [], []; repeat split.
  - destruct (is_ws c) eqn:Hc.
    + exists (c :: w), s'; subst; repeat split; auto.
      unfold ws; simpl; rewrite Hc; exact Hw.
    + exists [], (c :: s); repeat split; auto.
Qed.

Section LeafFacts.

Variable content : str.

Lemma skip_whitespace_spec w : forall s fuel idx,
  ws w -> ws_ahead s = false ->
  At content idx (w ++ s) -> (length w < fuel)%nat ->
  exists idx',
    _skip_whitespace content fuel idx = Return (tt, idx') /\
    At content idx' s.
Proof.
  induction w as [|c w IH]; intros s fuel idx Hw Hs HA Hf.
  - destruct fuel as [|fuel]; [simpl in Hf; lia|]. simpl in *.
    exists idx; split; auto.
    destruct s as [|c s].
    + rewrite (peek_nil _ _ HA); reflexivity.
    + rewrite (peek_cons _ _ _ _ HA). simpl in Hs. unfold is_ws in Hs.
      rewrite Hs; reflexivity.
  - destruct fuel as [|fuel]; [simpl in Hf; lia|].
    apply ws_cons in Hw; destruct Hw as [Hc Hw]. simpl in HA.
    cbn [_skip_whitespace]. rewrite (peek_cons _ _ _ _ HA).
    unfold is_ws in Hc; rewrite Hc.
    rewrite (next_cons _ _ _ _ HA); cbn [snd].
    apply IH; auto. eapply At_step; eauto. simpl in Hf; lia.
Qed.

(** Where no white space is ahead the cursor stays. *)
Lemma skip_whitespace_none s fuel idx :
  ws_ahead s = false -> At content idx s -> (0 < fuel)%nat ->
  exists idx',
    _skip_whitespace content fuel idx = Return (tt, idx') /\
    At content idx' s.
Proof.
  intros; apply (skip_whitespace_spec [] s); auto. reflexivity.
Qed.

End LeafFacts.

(** ** The built-ins on ASCII tokens *)

Lemma to_ascii_id (s : str) :
  Forall (fun c => c < 127) s -> Py.to_ascii s = s.
Proof.
  induction 1 as [|c s Hc _ IH]; simpl; auto.
  rewrite (proj2 (Z.ltb_lt c 127)) by lia. rewrite IH; reflexivity.
Qed.

Lemma lstrip_id (s : str) :
  Forall (fun c => Py.c_isspace c = false) s -> Py.lstrip s = s.
Proof. destruct 1 as [|c s Hc _]; simpl; auto. rewrite Hc; reflexivity. Qed.

Lemma strip_id (s : str) :
  Forall (fun c => Py.c_isspace c = false) s -> Py.strip s = s.
Proof.
  intros H; unfold Py.strip. rewrite (lstrip_id s H).
  rewrite lstrip_id by (apply Forall_rev; exact H).
  apply rev_involutive.
Qed.

Lemma skip_prefix_10 (s : str) : Py.skip_prefix 10 s = s.
Proof. destruct s as [|z [|x s]]; reflexivity. Qed.

Lemma drop_underscores_id (s : str) : forall prev,
  prev <> UNDERSCORE -> Forall (fun c => c <> UNDERSCORE) s ->
  Py.drop_underscores prev s = Some s.
Proof.
  induction s as [|c s IH]; intros prev Hp H; simpl.
  - zbool; reflexivity.
  - inversion H; subst. zbool. simpl. rewrite IH; auto.
Qed.

(** An ASCII digit is a digit for Python, and is no delimiter. *)
Lemma ascii_digit_facts (c : char) :
  is_ascii_digit c = true ->
  Py.isdigit c = true /\ Py.isspace c = false /\ closes c = false /\
  Py.c_isspace c = false /\ Py.digit_value c = c - 48 /\ 48 <= c <= 57.
Proof.
  intros H. unfold is_ascii_digit in H. zhyps.
  assert (Hr : 48 <= c < 48 + Z.of_nat 10) by lia.
  pose proof (range_check
    (fun c => Py.isdigit c && negb (Py.isspace c) && negb (closes c)
              && negb (Py.c_isspace c) && (Py.digit_value c =? c - 48))
    48 10 eq_refl c Hr) as E.
  cbv beta in E. zhyps. repeat split; auto; lia.
Qed.

Lemma span_digits_app (ds r : str) :
  forallb is_ascii_digit ds = true ->
  match r with c :: _ => is_ascii_digit c = false | [] => True end ->
  Py.span_digits (ds ++ r) = (ds, r).
Proof.
  intros Hd Hr. induction ds as [|d ds IH]; simpl in *.
  - destruct r as [|c r]; simpl; auto. rewrite Hr; reflexivity.
  - apply andb_prop in Hd; destruct Hd as [H1 H2].
    rewrite H1, (IH H2); reflexivity.
Qed.

Lemma span_digits_all (ds : str) :
  forallb is_ascii_digit ds = true -> Py.span_digits ds = (ds, []).
Proof.
  intros H. rewrite <- (app_nil_r ds) at 1. apply span_digits_app; simpl; auto.
Qed.

Lemma scan_digits_decimal (ds : str) : forall acc prev,
  prev <> UNDERSCORE -> forallb is_ascii_digit ds = true ->
  Py.scan_digits 10 acc prev ds =
  Some (fold_left (fun a d => 10 * a + (d - ZERO)) ds acc).
Proof.
  induction ds as [|d ds IH]; intros acc prev Hp H;
    cbn [Py.scan_digits fold_left forallb] in *.
  - zbool; reflexivity.
  - apply andb_prop in H; destruct H as [H1 H2].
    destruct (ascii_digit_facts d H1) as (_ & _ & _ & _ & Hv & Hr).
    rewrite Hv. zbool. rewrite IH by (auto; lia).
    replace (acc * 10 + (d - 48)) with (10 * acc + (d - 48)) by lia.
    reflexivity.
Qed.

Lemma int_part_digits (ip : str) :
  Grammar.int_part ip = true -> ip <> [] /\ forallb is_ascii_digit ip = true.
Proof.
  destruct ip as [|d [|d' ip]]; simpl; intros H; try discriminate.
  - rewrite H; split; [discriminate|reflexivity].
  - apply andb_prop in H; destruct H as [H1 H3].
    apply andb_prop in H1; destruct H1 as [H1 _].
    split; [discriminate|].
    change (is_ascii_digit d && forallb is_ascii_digit (d' :: ip) = true).
    rewrite H1; exact H3.
Qed.

Lemma digits_digits (ds : str) :
  Grammar.digits ds = true -> ds <> [] /\ forallb is_ascii_digit ds = true.
Proof.
  destruct ds as [|d ds]; simpl; intros H; try discriminate.
  split; [discriminate|exact H].
Qed.

Lemma Forall_digits (P : char -> Prop) (ds : str) :
  (forall c, is_ascii_digit c = true -> P c) ->
  forallb is_ascii_digit ds = true -> Forall P ds.
Proof.
  intros HP H. apply Forall_forall. intros c Hc.
  apply HP. rewrite forallb_forall in H. auto.
Qed.

(** Digits are counted one by one. *)
Lemma count_digits_digits (ds : str) :
  forallb is_ascii_digit ds = true ->
  Py.count_digits ds = Z.of_nat (length ds).
Proof.
  intros H. unfold Py.count_digits. do 2 f_equal.
  induction ds as [|d ds IH]; [reflexivity|].
  cbn [forallb] in H. apply andb_prop in H. destruct H as [H1 H2].
  destruct (ascii_digit_facts d H1) as (_ & _ & _ & _ & _ & Hr).
  cbn [filter]. replace (d =? 95) with false
    by (symmetry; apply Z.eqb_neq; lia).
  cbn [negb]. rewrite IH by exact H2. reflexivity.
Qed.

(** [int] reads the integer of the grammar as its value. *)
Lemma int_token (neg : bool) (ip : str) :
  Grammar.int_part ip = true ->
  Z.of_nat (length ip) <= Py.max_str_digits ->
  Py.int 10 (Grammar.minus neg ++ ip) =
  Some (if neg then - decimal ip else decimal ip).
Proof.
  intros H Hlen. destruct (int_part_digits ip H) as [Hne Hd].
  assert (Hlt : Forall (fun c => c < 127) (Grammar.minus neg ++ ip)).
  { apply Forall_app; split.
    - destruct neg; repeat constructor.
    - apply Forall_digits; auto. intros c Hc.
      destruct (ascii_digit_facts c Hc) as (_ & _ & _ & _ & _ & ?); lia. }
  assert (Hsp : Forall (fun c => Py.c_isspace c = false)
                       (Grammar.minus neg ++ ip)).
  { apply Forall_app; split.
    - destruct neg; repeat constructor.
    - apply Forall_digits; auto. intros c Hc.
      destruct (ascii_digit_facts c Hc) as (_ & _ & _ & ? & _); auto. }
  unfold Py.int. rewrite to_ascii_id, strip_id by assumption.
  destruct ip as [|d ds]; [congruence|].
  assert (Hd' := Hd). simpl in Hd'. apply andb_prop in Hd'. destruct Hd' as [Hd1 _].
  destruct (ascii_digit_facts d Hd1) as (_ & _ & _ & _ & _ & Hr).
  assert (E : Py.sign (Grammar.minus neg ++ d :: ds) = (neg, d :: ds)).
  { destruct neg; simpl; [reflexivity|]. zbool. reflexivity. }
  rewrite E, skip_prefix_10. zbool.
  rewrite scan_digits_decimal; [|lia|exact Hd].
  rewrite (count_digits_digits (d :: ds) Hd).
  replace (Z.of_nat (length (d :: ds)) <=? Py.max_str_digits) with true
    by (symmetry; apply Z.leb_le; exact Hlen).
  rewrite orb_true_r. reflexivity.
Qed.

(** [float] reads the decimal of the grammar as the nearest double. *)
Lemma float_token (neg : bool) (ip fp : str) :
  Grammar.int_part ip = true -> Grammar.digits fp = true ->
  Py.float (Grammar.minus neg ++ ip ++ DOT :: fp) =
  Some (nearest_double neg (decimal (ip ++ fp)) (- Z.of_nat (length fp))).
Proof.
  intros Hi Hf.
  destruct (int_part_digits ip Hi) as [Hne Hd].
  destruct (digits_digits fp Hf) as [Hfne Hfd].
  set (P := fun c => c < 127 /\ Py.c_isspace c = false /\ c <> UNDERSCORE).
  assert (HP : Forall P (Grammar.minus neg ++ ip ++ DOT :: fp)).
  { assert (Hdig : forall c, is_ascii_digit c = true -> P c).
    { intros c Hc.
      destruct (ascii_digit_facts c Hc) as (_ & _ & _ & ? & _ & ?).
      unfold P; repeat split; auto; lia. }
    apply Forall_app; split; [|apply Forall_app; split].
    - destruct neg; repeat constructor; discriminate.
    - apply Forall_digits; auto.
    - constructor; [repeat split; try lia; reflexivity|].
      apply Forall_digits; auto. }
  unfold Py.float.
  rewrite to_ascii_id
    by (eapply Forall_impl; [|exact HP]; intros c Hc; apply Hc).
  rewrite strip_id
    by (eapply Forall_impl; [|exact HP]; intros c Hc; apply Hc).
  rewrite drop_underscores_id;
    [|lia|eapply Forall_impl; [|exact HP]; intros c Hc; apply Hc].
  unfold Py.strtod.
  assert (E : Py.sign (Grammar.minus neg ++ ip ++ DOT :: fp)
              = (neg, ip ++ DOT :: fp)).
  { destruct neg; simpl; [reflexivity|].
    destruct ip as [|d ds]; [congruence|]. simpl in Hd.
    apply andb_prop in Hd; destruct Hd as [Hd1 _].
    destruct (ascii_digit_facts d Hd1) as (_ & _ & _ & _ & _ & Hr).
    simpl. zbool. reflexivity. }
  rewrite E, span_digits_app by (auto; reflexivity).
  zbool. rewrite span_digits_all by assumption.
  destruct (ip ++ fp) as [|x xs] eqn:Eapp.
  - apply app_eq_nil in Eapp; destruct Eapp; congruence.
  - simpl Py.exponent. cbv iota. do 2 f_equal.
Qed.

(** ** Strings *)

Lemma hex_value_facts (h : char) (v : Z) :
  Grammar.hex_value h = Some v ->
  0 <= v < 16 /\ Py.digit_value h = v /\ 48 <= h < 127 /\
  (Py.isdigit h || Py.lower_in_abcdef h) = true /\
  Py.c_isspace h = false /\ h <> 95 /\ h <> 120 /\ h <> 88.
Proof.
  intros H.
  assert (Hr : 48 <= h < 48 + Z.of_nat 55).
  { unfold Grammar.hex_value in H.
    destruct ((48 <=? h) && (h <=? 57)) eqn:E1;
      [|destruct ((97 <=? h) && (h <=? 102)) eqn:E2;
        [|destruct ((65 <=? h) && (h <=? 70)) eqn:E3; [|discriminate]]];
      zhyps; lia. }
  pose proof (range_check
    (fun h => match Grammar.hex_value h with
              | Some v => (0 <=? v) && (v <? 16) && (Py.digit_value h =? v)
                          && (Py.isdigit h || Py.lower_in_abcdef h)
                          && negb (Py.c_isspace h)
                          && negb (h =? 95) && negb (h =? 120)
                          && negb (h =? 88)
              | None => true
              end) 48 55 eq_refl h Hr) as E.
  cbv beta in E. rewrite H in E.
  apply andb_prop in E; destruct E as [E E8].
  apply andb_prop in E; destruct E as [E E7].
  apply andb_prop in E; destruct E as [E E6].
  apply andb_prop in E; destruct E as [E E5].
  apply andb_prop in E; destruct E as [E E4].
  apply andb_prop in E; destruct E as [E E3].
  apply andb_prop in E; destruct E as [E1 E2].
  apply negb_true_iff in E5. zhyps. repeat split; auto; lia.
Qed.

Lemma int16_hex4 (h1 h2 h3 h4 : char) (v : Z) :
  Grammar.hex4 h1 h2 h3 h4 = Some v ->
  Py.int 16 [h1; h2; h3; h4] = Some v /\ Py.chr v = Some v /\ 0 <= v <= 65535.
Proof.
  unfold Grammar.hex4.
  destruct (Grammar.hex_value h1) as [a|] eqn:E1; [|discriminate].
  destruct (Grammar.hex_value h2) as [b|] eqn:E2; [|discriminate].
  destruct (Grammar.hex_value h3) as [c|] eqn:E3; [|discriminate].
  destruct (Grammar.hex_value h4) as [d|] eqn:E4; [|discriminate].
  intros H; inversion H; subst v; clear H.
  destruct (hex_value_facts _ _ E1) as (Ha & Da & Ra & _ & Sa & Ua & _).
  destruct (hex_value_facts _ _ E2) as (Hb & Db & Rb & _ & Sb & Ub & Xb & Yb).
  destruct (hex_value_facts _ _ E3) as (Hc & Dc & Rc & _ & Sc & Uc & _).
  destruct (hex_value_facts _ _ E4) as (Hd & Dd & Rd & _ & Sd & Ud & _).
  split; [|split; [|lia]].
  - unfold Py.int.
    rewrite to_ascii_id by (repeat constructor; lia).
    rewrite strip_id by (repeat constructor; assumption).
    unfold Py.sign. zbool. unfold Py.skip_prefix. zbool.
    cbn [orb]. rewrite andb_false_r.
    cbn [Py.scan_digits]. zbool.
    rewrite Da, Db, Dc, Dd. zbool.
    change (Py.binary_base 16) with true. reflexivity.
  - unfold Py.chr. zbool. reflexivity.
Qed.

Lemma escape_lookup (e x : char) :
  Grammar.escape e = Some x ->
  e <> 117 /\ lookup e _ESCAPE_CHARACTERS = Some x.
Proof.
  unfold Grammar.escape; intros H.
  repeat (match type of H with
          | context [?a =? ?b] => destruct (Z.eqb_spec a b)
          end;
          [inversion H; subst; split; [lia|reflexivity]|]).
  discriminate.
Qed.

Section StringFacts.

Variable content : str.

Lemma hex_loop_spec (h1 h2 h3 h4 : char) (v : Z) (s : str) (idx : Z) :
  Grammar.hex4 h1 h2 h3 h4 = Some v ->
  At content idx (h1 :: h2 :: h3 :: h4 :: s) ->
  hex_loop content 4 [] idx = Return ([h1; h2; h3; h4], idx + 4) /\
  At content (idx + 4) s.
Proof.
  unfold Grammar.hex4.
  destruct (Grammar.hex_value h1) as [a|] eqn:E1; [|discriminate].
  destruct (Grammar.hex_value h2) as [b|] eqn:E2; [|discriminate].
  destruct (Grammar.hex_value h3) as [c|] eqn:E3; [|discriminate].
  destruct (Grammar.hex_value h4) as [d|] eqn:E4; [|discriminate].
  intros _ A0.
  destruct (hex_value_facts _ _ E1) as (_ & _ & _ & Ia & _).
  destruct (hex_value_facts _ _ E2) as (_ & _ & _ & Ib & _).
  destruct (hex_value_facts _ _ E3) as (_ & _ & _ & Ic & _).
  destruct (hex_value_facts _ _ E4) as (_ & _ & _ & Id & _).
  pose proof (At_step _ _ _ _ A0) as A1.
  pose proof (At_step _ _ _ _ A1) as A2.
  pose proof (At_step _ _ _ _ A2) as A3.
  pose proof (At_step _ _ _ _ A3) as A4.
  replace (idx + 1 + 1 + 1 + 1) with (idx + 4) in A4 by lia.
  split; [|exact A4].
  cbn [hex_loop].
  rewrite (next_cons _ _ _ _ A0), Ia.
  rewrite (next_cons _ _ _ _ A1), Ib.
  rewrite (next_cons _ _ _ _ A2), Ic.
  rewrite (next_cons _ _ _ _ A3), Id.
  cbn [app]. replace (idx + 1 + 1 + 1 + 1) with (idx + 4) by lia.
  reflexivity.
Qed.

(** One escape of four hexadecimal digits: whatever was read before and
    whatever follows, the string grows by the one character of that code
    point.  The cursor is on the backslash, [c] is the character behind the
    escape. *)
Lemma string_loop_u (h1 h2 h3 h4 c : char) (v : Z) (r s : str)
      (fuel : nat) (idx : Z) :
  Grammar.hex4 h1 h2 h3 h4 = Some v ->
  At content idx (117 :: h1 :: h2 :: h3 :: h4 :: c :: r) ->
  string_loop content (S fuel) s (Some BACKSLASH) idx =
  string_loop content fuel (s ++ [v]) (Some c) (idx + 6) /\
  At content (idx + 6) r.
Proof.
  intros Hh A0.
  pose proof (At_step _ _ _ _ A0) as A1.
  destruct (hex_loop_spec _ _ _ _ _ _ _ Hh A1) as [Hl A5].
  destruct (int16_hex4 _ _ _ _ _ Hh) as (Hi & Hc & _).
  replace (idx + 1 + 4) with (idx + 5) in * by lia.
  pose proof (At_step _ _ _ _ A5) as A6.
  replace (idx + 5 + 1) with (idx + 6) in * by lia.
  split; [|exact A6].
  cbn [string_loop]. unfold Py.ord. cbn [Z.ltb Z.eqb Z.compare Pos.compare Pos.compare_cont Pos.eqb].
  rewrite (next_cons _ _ _ _ A0). cbn [Z.eqb Pos.eqb].
  rewrite Hl, Hi, Hc, (next_cons _ _ _ _ A5).
  replace (idx + 5 + 1) with (idx + 6) by lia. reflexivity.
Qed.

(** The loop reads the body of a string of the grammar, up to the closing
    quote, as the string it denotes. *)
Lemma string_loop_chars (body s : str) :
  Grammar.chars false body s ->
  forall fuel acc idx r,
    At content idx (body ++ DQUOTE :: r) ->
    (length body < fuel)%nat ->
    exists idx',
      (let (char, i) := _next content idx in
       string_loop content fuel acc char i) = Return (acc ++ s, idx') /\
      At content idx' r.
Proof.
  induction 1 as [ | c body s Hc1 Hc2 Hc3 _ IH | e x body s He _ IH
                 | h1 h2 h3 h4 v body s Hh _ _ IH
                 | h1 h2 h3 h4 hi l1 l2 l3 l4 lo body s Hp ];
    intros fuel acc idx r A0 Hf; try discriminate;
    (destruct fuel as [|fuel]; [simpl in Hf; lia|]);
    cbn [app] in A0; rewrite (next_cons _ _ _ _ A0);
    pose proof (At_step _ _ _ _ A0) as A1.
  - exists (idx + 1); split; [|exact A1].
    cbn [string_loop]. unfold Py.ord. rewrite app_nil_r. reflexivity.
  - destruct (IH fuel (acc ++ [c]) (idx + 1) r A1) as (idx' & E & A');
      [simpl in Hf; lia|].
    exists idx'; split; [|exact A'].
    cbn [string_loop]. unfold Py.ord. zbool.
    rewrite <- app_assoc in E. exact E.
  - destruct (escape_lookup _ _ He) as [Hne Hl].
    pose proof (At_step _ _ _ _ A1) as A2.
    destruct (IH fuel (acc ++ [x]) (idx + 1 + 1) r A2) as (idx' & E & A');
      [simpl in Hf; lia|].
    exists idx'; split; [|exact A'].
    cbn [string_loop]. unfold Py.ord. zbool.
    rewrite (next_cons _ _ _ _ A1). zbool. rewrite Hl.
    rewrite <- app_assoc in E. exact E.
  - destruct (body ++ DQUOTE :: r) as [|c r'] eqn:Eb.
    { destruct body; discriminate. }
    destruct (string_loop_u _ _ _ _ c _ r' acc fuel (idx + 1) Hh A1)
      as [Hs _].
    assert (A5 : At content (idx + 1 + 5) (c :: r')).
    { do 5 (eapply At_step in A1). 
      replace (idx + 1 + 1 + 1 + 1 + 1 + 1) with (idx + 1 + 5) in A1 by lia.
      exact A1. }
    destruct (IH fuel (acc ++ [v]) (idx + 1 + 5) r) as (idx' & E & A').
    { rewrite Eb; exact A5. }
    { simpl in Hf; lia. }
    exists idx'; split; [|exact A'].
    rewrite (next_cons _ _ _ _ A5) in E.
    replace (idx + 1 + 6) with (idx + 1 + 5 + 1) in Hs by lia.
    rewrite <- app_assoc in E. cbv iota.
    etransitivity; [exact Hs | exact E].
Qed.

(** [_parse_string] on a string of the grammar. *)
Lemma parse_string_chars (body s r : str) (fuel : nat) (idx : Z) :
  Grammar.chars false body s ->
  At content idx (DQUOTE :: body ++ DQUOTE :: r) ->
  (length body < fuel)%nat ->
  exists idx',
    _parse_string content fuel idx = Return (s, idx') /\ At content idx' r.
Proof.
  intros Hc A0 Hf. unfold _parse_string.
  rewrite (next_cons _ _ _ _ A0).
  apply (string_loop_chars body s Hc fuel [] (idx + 1) r); auto.
  eapply At_step; eauto.
Qed.

End StringFacts.

(** ** Numbers and literals *)

Lemma index_last (s : str) (x : char) : Py.index (s ++ [x]) (-1) = Some x.
Proof.
  unfold Py.index. rewrite length_app. cbn [length].
  replace (-1 <? 0) with true by reflexivity.
  replace (-1 + Z.of_nat (length s + 1)) with (Z.of_nat (length s)) by lia.
  zbool. cbn [andb]. rewrite Nat2Z.id.
  rewrite nth_error_app2 by lia. rewrite Nat.sub_diag. reflexivity.
Qed.

Lemma index_last_nonempty (s : str) :
  s <> [] -> exists x, Py.index s (-1) = Some x /\ last s 0 = x.
Proof.
  intros H. destruct (exists_last H) as (s' & x & ->).
  exists x. split; [apply index_last | apply last_last].
Qed.

Lemma begins_with_zero_total (s : str) : begins_with_zero s <> None.
Proof.
  unfold begins_with_zero.
  destruct s as [|c0 [|c1 s]]; try (cbn; discriminate).
  replace (2 <=? Z.of_nat (length (c0 :: c1 :: s))) with true
    by (symmetry; apply Z.leb_le; cbn [length]; lia).
  unfold Py.index. cbn [length].
  replace (0 <? 0) with false by reflexivity.
  replace (1 <? 0) with false by reflexivity.
  zbool. cbn. destruct (c0 =? 48); discriminate.
Qed.

Lemma begins_with_zero_cons (c0 c1 : char) (s : str) :
  begins_with_zero (c0 :: c1 :: s) =
  Some (if c0 =? ZERO then Py.isnumeric c1 else false).
Proof.
  unfold begins_with_zero.
  replace (2 <=? Z.of_nat (length (c0 :: c1 :: s))) with true
    by (symmetry; apply Z.leb_le; cbn [length]; lia).
  unfold Py.index. cbn [length].
  replace (0 <? 0) with false by reflexivity.
  replace (1 <? 0) with false by reflexivity.
  zbool. cbn. destruct (c0 =? 48); reflexivity.
Qed.

Lemma is_ws_delimits (c : char) : is_ws c = true -> token_char c = false.
Proof.
  unfold is_ws; intros H.
  repeat (apply orb_prop in H; destruct H as [H|H]);
    apply Z.eqb_eq in H; subst; reflexivity.
Qed.

Lemma ws_app_delimited (w r : str) :
  ws w -> delimited r = true -> delimited (w ++ r) = true.
Proof.
  destruct w as [|c w]; simpl; auto. intros H _.
  apply ws_cons in H; destruct H as [H _].
  rewrite (is_ws_delimits c H); reflexivity.
Qed.

Lemma digit_token_char (c : char) :
  is_ascii_digit c = true -> token_char c = true /\ c <> DOT.
Proof.
  intros H.
  destruct (ascii_digit_facts c H) as (_ & Hs & Hc & _ & _ & Hr).
  unfold token_char; rewrite Hs, Hc; split; [reflexivity|lia].
Qed.

Section TokenFacts.

Variable content : str.

Lemma number_loop_spec (t : str) : forall r fuel acc fl idx,
  forallb token_char t = true -> delimited r = true ->
  At content idx (t ++ r) -> (length t < fuel)%nat ->
  exists idx',
    number_loop content fuel acc fl idx =
    Return (acc ++ t, fl || existsb (fun c => c =? DOT) t, idx') /\
    At content idx' r.
Proof.
  induction t as [|c t IH]; intros r fuel acc fl idx Ht Hr A0 Hf;
    (destruct fuel as [|fuel]; [simpl in Hf; lia|]); cbn [app] in A0.
  - exists idx; split; [|exact A0]. cbn [number_loop existsb].
    rewrite app_nil_r, orb_false_r.
    destruct r as [|c r].
    + rewrite (peek_nil _ _ A0); reflexivity.
    + rewrite (peek_cons _ _ _ _ A0). simpl in Hr.
      unfold token_char in Hr. apply negb_true_iff in Hr.
      rewrite Hr. reflexivity.
  - cbn [forallb] in Ht. apply andb_prop in Ht; destruct Ht as [Hc Ht].
    destruct (IH r fuel (acc ++ [c]) (if c =? DOT then true else fl)
                 (idx + 1) Ht Hr) as (idx' & E & A').
    { eapply At_step; eauto. }
    { simpl in Hf; lia. }
    exists idx'; split; [|exact A'].
    cbn [number_loop existsb]. rewrite (peek_cons _ _ _ _ A0).
    unfold token_char in Hc. rewrite Hc.
    rewrite (next_cons _ _ _ _ A0). cbn [snd]. rewrite E.
    rewrite <- app_assoc. cbn [app].
    destruct (c =? 46), fl; reflexivity.
Qed.

Lemma literal_loop_spec (t : str) : forall r fuel acc idx,
  forallb token_char t = true -> delimited r = true ->
  At content idx (t ++ r) -> (length t < fuel)%nat ->
  exists idx',
    literal_loop content fuel acc idx = Return (acc ++ t, idx') /\
    At content idx' r.
Proof.
  induction t as [|c t IH]; intros r fuel acc idx Ht Hr A0 Hf;
    (destruct fuel as [|fuel]; [simpl in Hf; lia|]); cbn [app] in A0.
  - exists idx; split; [|exact A0]. cbn [literal_loop].
    rewrite app_nil_r.
    destruct r as [|c r].
    + rewrite (peek_nil _ _ A0); reflexivity.
    + rewrite (peek_cons _ _ _ _ A0). simpl in Hr.
      unfold token_char in Hr. apply negb_true_iff in Hr.
      rewrite Hr. reflexivity.
  - cbn [forallb] in Ht. apply andb_prop in Ht; destruct Ht as [Hc Ht].
    destruct (IH r fuel (acc ++ [c]) (idx + 1) Ht Hr) as (idx' & E & A').
    { eapply At_step; eauto. }
    { simpl in Hf; lia. }
    exists idx'; split; [|exact A'].
    cbn [literal_loop]. rewrite (peek_cons _ _ _ _ A0).
    unfold token_char in Hc. rewrite Hc.
    rewrite (next_cons _ _ _ _ A0). cbn [snd]. rewrite E.
    rewrite <- app_assoc. reflexivity.
Qed.

(** The three literals. *)
Lemma parse_literal_spec (t : str) (v : Value) (r : str) (fuel : nat) (idx : Z) :
  (t, v) = (txt "null", Null) \/ (t, v) = (txt "true", Bool true) \/
  (t, v) = (txt "false", Bool false) ->
  delimited r = true -> At content idx (t ++ r) -> (length t < fuel)%nat ->
  exists idx',
    _parse_literal content fuel idx = Return (v, idx') /\ At content idx' r.
Proof.
  intros Ht Hr A0 Hf.
  assert (Hc : forallb token_char t = true)
    by (destruct Ht as [E|[E|E]]; inversion E; reflexivity).
  destruct (literal_loop_spec t r fuel [] idx Hc Hr A0 Hf) as (idx' & E & A').
  exists idx'; split; [|exact A'].
  unfold _parse_literal. rewrite E. cbn [app].
  destruct Ht as [E'|[E'|E']]; inversion E'; reflexivity.
Qed.

End TokenFacts.

(** The checks behind the collection pass a number of the grammar. *)
Lemma integer_checks (neg : bool) (ip : str) :
  Grammar.int_part ip = true ->
  let t := Grammar.minus neg ++ ip in
  forallb token_char t = true /\
  existsb (fun c => c =? DOT) t = false /\
  (exists x, Py.index t (-1) = Some x /\ x <> DOT) /\
  begins_with_zero t = Some false.
Proof.
  intros H t. destruct (int_part_digits ip H) as [Hne Hd].
  assert (Hm : forallb token_char (Grammar.minus neg) = true /\
               existsb (fun c => c =? DOT) (Grammar.minus neg) = false)
    by (destruct neg; split; reflexivity).
  assert (Hi : forallb token_char ip = true /\
               existsb (fun c => c =? DOT) ip = false).
  { clear H Hne. induction ip as [|d ip IH]; [split; reflexivity|].
    cbn [forallb existsb] in *. apply andb_prop in Hd; destruct Hd as [H1 H2].
    destruct (digit_token_char d H1) as [Ht Hdot].
    destruct (IH H2) as [IH1 IH2]. rewrite Ht, IH1, IH2.
    apply Z.eqb_neq in Hdot; rewrite Hdot; split; reflexivity. }
  unfold t. rewrite forallb_app, existsb_app.
  destruct Hm as [-> ->], Hi as [-> ->].
  repeat split.
  - destruct (exists_last Hne) as (ip' & x & ->).
    exists x. rewrite app_assoc. split; [apply index_last|].
    rewrite forallb_app in Hd. apply andb_prop in Hd; destruct Hd as [_ Hx].
    cbn in Hx. rewrite andb_true_r in Hx.
    apply (digit_token_char x Hx).
  - destruct neg; cbn [Grammar.minus app].
    + destruct ip as [|d ip]; [congruence|].
      rewrite begins_with_zero_cons. reflexivity.
    + destruct ip as [|d [|d' ip]]; [congruence|reflexivity|].
      rewrite begins_with_zero_cons.
      cbn [Grammar.int_part] in H.
      apply andb_prop in H; destruct H as [H _].
      apply andb_prop in H; destruct H as [_ H].
      apply negb_true_iff in H. rewrite H. reflexivity.
Qed.

Lemma float_checks (neg : bool) (ip fp : str) :
  Grammar.int_part ip = true -> Grammar.digits fp = true ->
  let t := Grammar.minus neg ++ ip ++ DOT :: fp in
  forallb token_char t = true /\
  existsb (fun c => c =? DOT) t = true /\
  (exists x, Py.index t (-1) = Some x /\ x <> DOT) /\
  begins_with_zero t = Some false.
Proof.
  intros H Hf t.
  destruct (integer_checks neg ip H) as (Ht & _ & _ & Hz).
  destruct (digits_digits fp Hf) as [Hfne Hfd].
  destruct (int_part_digits ip H) as [Hne Hd].
  assert (Hft : forallb token_char fp = true).
  { clear Hf Hfne. induction fp as [|d fp IH]; [reflexivity|].
    cbn [forallb] in *. apply andb_prop in Hfd; destruct Hfd as [H1 H2].
    destruct (digit_token_char d H1) as [-> _]. auto. }
  unfold t. repeat split.
  - rewrite app_assoc, forallb_app. cbv zeta in Ht. rewrite Ht.
    cbn [forallb andb]. rewrite Hft. reflexivity.
  - rewrite !existsb_app. cbn [existsb]. rewrite Z.eqb_refl.
    cbn [orb]. rewrite !orb_true_r. reflexivity.
  - destruct (exists_last Hfne) as (fp' & x & ->).
    exists x. 
    replace (Grammar.minus neg ++ ip ++ DOT :: fp' ++ [x])
      with ((Grammar.minus neg ++ ip ++ DOT :: fp') ++ [x])
      by (rewrite <- !app_assoc; reflexivity).
    split; [apply index_last|].
    rewrite forallb_app in Hfd. apply andb_prop in Hfd; destruct Hfd as [_ Hx].
    cbn in Hx. rewrite andb_true_r in Hx.
    apply (digit_token_char x Hx).
  - destruct neg; cbn [Grammar.minus app].
    + destruct ip as [|d ip]; [congruence|].
      cbn [app]. rewrite begins_with_zero_cons. reflexivity.
    + destruct ip as [|d [|d' ip]]; [congruence| |].
      * cbn [app]. rewrite begins_with_zero_cons.
        destruct (d =? 48); reflexivity.
      * cbn [app]. rewrite begins_with_zero_cons.
        cbn [Grammar.int_part] in H.
        apply andb_prop in H; destruct H as [H _].
        apply andb_prop in H; destruct H as [_ H].
        apply negb_true_iff in H. rewrite H. reflexivity.
Qed.

(** ** The decoder reads every text of the grammar *)

Scheme value_mut := Minimality for Grammar.value Sort Prop
  with elements_mut := Minimality for Grammar.elements Sort Prop
  with members_mut := Minimality for Grammar.members Sort Prop.
Combined Scheme grammar_ind from value_mut, elements_mut, members_mut.

Lemma is_ws_false (c : char) :
  c <> SPACE -> c <> TAB -> c <> LF -> c <> CR -> is_ws c = false.
Proof. intros; unfold is_ws; zbool; reflexivity. Qed.

(** A value begins with a character that is neither white space nor a
    separator. *)
Lemma value_head (p : bool) (t : str) (v : Value) :
  Grammar.value p t v ->
  exists c t', t = c :: t' /\ is_ws c = false /\
               c <> COMMA /\ c <> RBRACKET /\ c <> RBRACE.
Proof.
  assert (D : forall d, is_ascii_digit d = true ->
              is_ws d = false /\ d <> COMMA /\ d <> RBRACKET /\ d <> RBRACE).
  { intros d Hd. destruct (ascii_digit_facts d Hd) as (_ & _ & _ & _ & _ & Hr).
    split; [apply is_ws_false|]; lia. }
  assert (I : forall neg ip rest, Grammar.int_part ip = true ->
              exists c t', Grammar.minus neg ++ ip ++ rest = c :: t' /\
                is_ws c = false /\ c <> COMMA /\ c <> RBRACKET /\ c <> RBRACE).
  { intros neg ip rest Hi. destruct (int_part_digits ip Hi) as [Hne Hd].
    destruct neg; cbn [Grammar.minus app].
    - eexists _, _; split; [reflexivity|].
      split; [reflexivity|]; repeat split; discriminate.
    - destruct ip as [|d ip]; [congruence|]. cbn [forallb] in Hd.
      apply andb_prop in Hd; destruct Hd as [Hd _].
      eexists _, _; split; [reflexivity|]. auto. }
  destruct 1;
    try (eexists _, _; split; [reflexivity|];
         split; [reflexivity|]; repeat split; discriminate).
  - rewrite <- (app_nil_r ip). apply I; assumption.
  - apply I; assumption.
Qed.

Lemma elements_head (p : bool) (body : str) (vs : list Value) :
  Grammar.elements p body vs ->
  exists c t', body = c :: t' /\ is_ws c = false /\
               c <> COMMA /\ c <> RBRACKET /\ c <> RBRACE.
Proof.
  destruct 1 as [t v w Hv _ | t v w1 w2 body vs Hv _ _ _];
    destruct (value_head _ _ _ Hv) as (c & t' & -> & H);
    eexists _, _; (split; [reflexivity|exact H]).
Qed.

Lemma members_head (p : bool) (body : str) (ps : list (str * Value)) :
  Grammar.members p body ps ->
  exists t', body = DQUOTE :: t'.
Proof. destruct 1; eexists; reflexivity. Qed.

Section NumberFacts.

Variable content : str.

Lemma parse_number_integer (neg : bool) (ip r : str) (fuel : nat) (idx : Z) :
  Grammar.int_part ip = true ->
  Z.of_nat (length ip) <= Py.max_str_digits -> delimited r = true ->
  At content idx ((Grammar.minus neg ++ ip) ++ r) ->
  (length (Grammar.minus neg ++ ip) < fuel)%nat ->
  exists idx',
    _parse_number content fuel idx =
    Return (Integer (if neg then - decimal ip else decimal ip), idx') /\
    At content idx' r.
Proof.
  intros Hi Hlen Hr A0 Hf.
  destruct (integer_checks neg ip Hi) as (Ht & Hdot & (x & Hx & Hxd) & Hz).
  destruct (number_loop_spec content _ r fuel [] false idx Ht Hr A0 Hf)
    as (idx' & E & A').
  exists idx'; split; [|exact A'].
  unfold _parse_number. rewrite E. cbn [app orb].
  rewrite Hdot, Hx. apply Z.eqb_neq in Hxd; rewrite Hxd.
  rewrite Hz, (int_token neg ip Hi Hlen). reflexivity.
Qed.

Lemma parse_number_float (neg : bool) (ip fp r : str) (fuel : nat) (idx : Z) :
  Grammar.int_part ip = true -> Grammar.digits fp = true ->
  delimited r = true ->
  At content idx ((Grammar.minus neg ++ ip ++ DOT :: fp) ++ r) ->
  (length (Grammar.minus neg ++ ip ++ DOT :: fp) < fuel)%nat ->
  exists idx',
    _parse_number content fuel idx =
    Return (Float (nearest_double neg (decimal (ip ++ fp))
                                  (- Z.of_nat (length fp))), idx') /\
    At content idx' r.
Proof.
  intros Hi Hd Hr A0 Hf.
  destruct (float_checks neg ip fp Hi Hd) as (Ht & Hdot & (x & Hx & Hxd) & Hz).
  destruct (number_loop_spec content _ r fuel [] false idx Ht Hr A0 Hf)
    as (idx' & E & A').
  exists idx'; split; [|exact A'].
  unfold _parse_number. rewrite E. cbn [app orb].
  rewrite Hdot, Hx. apply Z.eqb_neq in Hxd; rewrite Hxd.
  rewrite Hz, (float_token neg ip fp Hi Hd). reflexivity.
Qed.

(** The choice [_parse_one] makes on the next character. *)
Lemma parse_one_dispatch (fuel : nat) (idx : Z) (c : char) (s : str) :
  At content idx (c :: s) ->
  _parse_one content (S fuel) idx =
  if c =? LBRACE then
    let* (obj, idx) := _parse_object content fuel idx in
    Return (Object obj, idx)
  else if c =? LBRACKET then
    let* (arr, idx) := _parse_array content fuel idx in
    Return (Array arr, idx)
  else if c =? DQUOTE then
    let* (s, idx) := _parse_string content fuel idx in
    Return (String s, idx)
  else if (c =? 116) || (c =? 102) || (c =? 110) then
    _parse_literal content fuel idx
  else if (c =? MINUS) || Py.isdigit c then
    _parse_number content fuel idx
  else Raise (JSONDecodeError Invalid_JSON).
Proof.
  intros A0. cbn [_parse_one]. rewrite (peek_cons _ _ _ _ A0). reflexivity.
Qed.

End NumberFacts.

Lemma length_cons' (A : Type) (x : A) (l : list A) :
  length (x :: l) = S (length l).
Proof. reflexivity. Qed.

Create Rewrite HintDb len.
#[local] Hint Rewrite length_app length_cons' : len.

(** Bring a text to the form [a ++ b ++ c :: d]. *)
Ltac norm H :=
  repeat (progress (cbn [app Grammar.minus] in H) || rewrite <- app_assoc in H).

Ltac norm_len H := norm H; autorewrite with len in H.

Ltac fuelS f Hf := destruct f as [|f]; [exfalso; lia|].

Ltac len := autorewrite with len; lia.

Lemma delimited_closing (c : char) (r : str) :
  closes c = true -> delimited (c :: r) = true.
Proof.
  intros H; cbn [delimited]; unfold token_char. rewrite H.
  rewrite andb_false_r; reflexivity.
Qed.

Lemma ws_ahead_head (c : char) (s : str) :
  is_ws c = false -> ws_ahead (c :: s) = false.
Proof. auto. Qed.

Lemma decoder_reads_grammar :
  (forall t v, Grammar.value false t v ->
     forall content fuel idx r,
       At content idx (t ++ r) -> delimited r = true ->
       (3 * length (t ++ r) + 2 <= fuel)%nat ->
       exists idx',
         _parse_one content fuel idx = Return (v, idx') /\
         At content idx' r) /\
  (forall body vs, Grammar.elements false body vs ->
     forall content fuel arr idx w r,
       ws w -> At content idx (w ++ body ++ RBRACKET :: r) ->
       (3 * length (w ++ body ++ RBRACKET :: r) + 3 <= fuel)%nat ->
       exists idx',
         array_loop content fuel arr idx = Return (arr ++ vs, idx') /\
         At content idx' r) /\
  (forall body ps, Grammar.members false body ps ->
     forall content fuel obj idx w r,
       ws w -> At content idx (w ++ body ++ RBRACE :: r) ->
       (3 * length (w ++ body ++ RBRACE :: r) + 3 <= fuel)%nat ->
       exists idx',
         object_loop content fuel obj idx =
         Return (fold_left (fun d kv => dict_set (fst kv) (snd kv) d) ps obj,
                 idx') /\
         At content idx' r).
Proof.
  apply (grammar_ind false).
  - (* null *)
    intros content fuel idx r A0 Hr Hf. autorewrite with len in Hf.
    change (length (txt "null")) with 4%nat in Hf. fuelS fuel Hf.
    change (txt "null" ++ r) with (110 :: txt "ull" ++ r) in A0.
    rewrite (parse_one_dispatch _ _ _ _ _ A0). cbn [Z.eqb Pos.eqb orb].
    apply (parse_literal_spec content (txt "null") Null); auto.
    change (length (txt "null")) with 4%nat; lia.
  - (* true *)
    intros content fuel idx r A0 Hr Hf. autorewrite with len in Hf.
    change (length (txt "true")) with 4%nat in Hf. fuelS fuel Hf.
    change (txt "true" ++ r) with (116 :: txt "rue" ++ r) in A0.
    rewrite (parse_one_dispatch _ _ _ _ _ A0). cbn [Z.eqb Pos.eqb orb].
    apply (parse_literal_spec content (txt "true") (Bool true)); auto.
    change (length (txt "true")) with 4%nat; lia.
  - (* false *)
    intros content fuel idx r A0 Hr Hf. autorewrite with len in Hf.
    change (length (txt "false")) with 5%nat in Hf. fuelS fuel Hf.
    change (txt "false" ++ r) with (102 :: txt "alse" ++ r) in A0.
    rewrite (parse_one_dispatch _ _ _ _ _ A0). cbn [Z.eqb Pos.eqb orb].
    apply (parse_literal_spec content (txt "false") (Bool false)); auto.
    change (length (txt "false")) with 5%nat; lia.
  - (* integer *)
    intros neg ip Hi Hlen content fuel idx r A0 Hr Hf.
    autorewrite with len in Hf. fuelS fuel Hf.
    destruct (parse_number_integer content neg ip r fuel idx Hi Hlen Hr A0)
      as (idx' & E & A'); [len|].
    exists idx'; split; [|exact A'].
    destruct (int_part_digits ip Hi) as [Hne Hd].
    destruct neg; cbn [Grammar.minus app] in A0.
    + rewrite (parse_one_dispatch _ _ _ _ _ A0). cbn [Z.eqb Pos.eqb orb].
      exact E.
    + destruct ip as [|d ip]; [congruence|]. cbn [forallb] in Hd.
      apply andb_prop in Hd; destruct Hd as [Hd _].
      destruct (ascii_digit_facts d Hd) as (Hdig & _ & _ & _ & _ & Hrg).
      cbn [app] in A0. rewrite (parse_one_dispatch _ _ _ _ _ A0).
      zbool. rewrite Hdig. exact E.
  - (* float *)
    intros neg ip fp Hi Hd content fuel idx r A0 Hr Hf.
    autorewrite with len in Hf. fuelS fuel Hf.
    destruct (parse_number_float content neg ip fp r fuel idx Hi Hd Hr A0)
      as (idx' & E & A'); [len|].
    exists idx'; split; [|exact A'].
    destruct (int_part_digits ip Hi) as [Hne Hdd].
    destruct neg; cbn [Grammar.minus app] in A0.
    + rewrite (parse_one_dispatch _ _ _ _ _ A0). cbn [Z.eqb Pos.eqb orb].
      exact E.
    + destruct ip as [|d ip]; [congruence|]. cbn [forallb] in Hdd.
      apply andb_prop in Hdd; destruct Hdd as [Hdd _].
      destruct (ascii_digit_facts d Hdd) as (Hdig & _ & _ & _ & _ & Hrg).
      cbn [app] in A0. rewrite (parse_one_dispatch _ _ _ _ _ A0).
      zbool. rewrite Hdig. exact E.
  - (* string *)
    intros body s Hc content fuel idx r A0 Hr Hf.
    norm A0. norm_len Hf. fuelS fuel Hf.
    rewrite (parse_one_dispatch _ _ _ _ _ A0). cbn [Z.eqb Pos.eqb].
    destruct (parse_string_chars content body s r fuel idx Hc A0)
      as (idx' & E & A'); [lia|].
    exists idx'; split; [|exact A']. rewrite E. reflexivity.
  - (* empty array *)
    intros w Hw content fuel idx r A0 Hr Hf.
    norm A0. norm_len Hf. fuelS fuel Hf.
    rewrite (parse_one_dispatch _ _ _ _ _ A0). cbn [Z.eqb Pos.eqb].
    fuelS fuel Hf. cbn [_parse_array].
    rewrite (next_cons _ _ _ _ A0). cbn [snd].
    apply At_step in A0.
    fuelS fuel Hf. cbn [array_loop].
    destruct (skip_whitespace_spec content w (RBRACKET :: r) fuel (idx + 1))
      as (i1 & E1 & A1); auto; [lia|].
    rewrite E1, (peek_cons _ _ _ _ A1). cbn [Z.eqb Pos.eqb].
    rewrite (next_cons _ _ _ _ A1). cbn [snd].
    exists (i1 + 1); split; [reflexivity|]. eapply At_step; eauto.
  - (* array *)
    intros w body vs Hw He IH content fuel idx r A0 Hr Hf.
    norm A0. norm_len Hf. fuelS fuel Hf.
    rewrite (parse_one_dispatch _ _ _ _ _ A0). cbn [Z.eqb Pos.eqb].
    fuelS fuel Hf. cbn [_parse_array].
    rewrite (next_cons _ _ _ _ A0). cbn [snd].
    apply At_step in A0.
    destruct (IH content fuel [] (idx + 1) w r Hw A0) as (idx' & E & A');
      [len|].
    exists idx'; split; [|exact A']. rewrite E. reflexivity.
  - (* empty object *)
    intros w Hw content fuel idx r A0 Hr Hf.
    norm A0. norm_len Hf. fuelS fuel Hf.
    rewrite (parse_one_dispatch _ _ _ _ _ A0). cbn [Z.eqb Pos.eqb].
    fuelS fuel Hf. cbn [_parse_object].
    rewrite (next_cons _ _ _ _ A0). cbn [snd].
    apply At_step in A0.
    fuelS fuel Hf. cbn [object_loop].
    destruct (skip_whitespace_spec content w (RBRACE :: r) fuel (idx + 1))
      as (i1 & E1 & A1); auto; [lia|].
    rewrite E1, (peek_cons _ _ _ _ A1). cbn [Z.eqb Pos.eqb].
    rewrite (next_cons _ _ _ _ A1). cbn [snd].
    exists (i1 + 1); split; [reflexivity|]. eapply At_step; eauto.
  - (* object *)
    intros w body ps Hw He IH content fuel idx r A0 Hr Hf.
    norm A0. norm_len Hf. fuelS fuel Hf.
    rewrite (parse_one_dispatch _ _ _ _ _ A0). cbn [Z.eqb Pos.eqb].
    fuelS fuel Hf. cbn [_parse_object].
    rewrite (next_cons _ _ _ _ A0). cbn [snd].
    apply At_step in A0.
    destruct (IH content fuel [] (idx + 1) w r Hw A0) as (idx' & E & A');
      [len|].
    exists idx'; split; [|exact A']. rewrite E. reflexivity.
  - (* the last element *)
    intros t v w1 Hv IH Hw1 content fuel arr idx w r Hw A0 Hf.
    destruct (value_head _ _ _ Hv) as (c & t' & Et & Hc & Hc1 & Hc2 & Hc3).
    norm A0. norm_len Hf. fuelS fuel Hf. cbn [array_loop].
    destruct (skip_whitespace_spec content w (t ++ w1 ++ RBRACKET :: r)
                fuel idx) as (i1 & E1 & A1); auto;
      [subst t; exact Hc | lia |].
    rewrite E1.
    assert (P1 : _peek content i1 = Some c)
      by (subst t; exact (peek_cons _ _ _ _ A1)).
    rewrite P1. zbool.
    destruct (IH content fuel i1 (w1 ++ RBRACKET :: r) A1)
      as (i2 & E2 & A2);
      [apply ws_app_delimited; auto | len |].
    rewrite E2.
    destruct (skip_whitespace_spec content w1 (RBRACKET :: r) fuel i2)
      as (i3 & E3 & A3); auto; [lia|].
    rewrite E3, (peek_cons _ _ _ _ A3). cbn [is_char Z.eqb Pos.eqb negb].
    fuelS fuel Hf. cbn [array_loop].
    destruct (skip_whitespace_none content (RBRACKET :: r) fuel i3)
      as (i4 & E4 & A4); auto; [lia|].
    rewrite E4, (peek_cons _ _ _ _ A4). cbn [Z.eqb Pos.eqb].
    rewrite (next_cons _ _ _ _ A4). cbn [snd].
    exists (i4 + 1); split; [reflexivity|]. eapply At_step; eauto.
  - (* an element and more *)
    intros t v w1 w2 body vs Hv IH Hw1 Hw2 He IHe
           content fuel arr idx w r Hw A0 Hf.
    destruct (value_head _ _ _ Hv) as (c & t' & Et & Hc & Hc1 & Hc2 & Hc3).
    destruct (elements_head _ _ _ He) as (c' & b' & Eb & Hc' & Hc1' & Hc2' & _).
    norm A0. norm_len Hf. fuelS fuel Hf. cbn [array_loop].
    destruct (skip_whitespace_spec content w
                (t ++ w1 ++ COMMA :: w2 ++ body ++ RBRACKET :: r) fuel idx)
      as (i1 & E1 & A1); auto; [subst t; exact Hc | lia |].
    rewrite E1.
    assert (P1 : _peek content i1 = Some c)
      by (subst t; exact (peek_cons _ _ _ _ A1)).
    rewrite P1. zbool.
    destruct (IH content fuel i1 (w1 ++ COMMA :: w2 ++ body ++ RBRACKET :: r)
                 A1) as (i2 & E2 & A2);
      [apply ws_app_delimited; auto | len |].
    rewrite E2.
    destruct (skip_whitespace_spec content w1
                (COMMA :: w2 ++ body ++ RBRACKET :: r) fuel i2)
      as (i3 & E3 & A3); auto; [lia|].
    rewrite E3, (peek_cons _ _ _ _ A3). cbn [is_char Z.eqb Pos.eqb].
    rewrite (next_cons _ _ _ _ A3). cbn [snd]. apply At_step in A3.
    destruct (skip_whitespace_spec content w2 (body ++ RBRACKET :: r)
                fuel (i3 + 1)) as (i4 & E4 & A4); auto;
      [subst body; exact Hc' | lia |].
    rewrite E4.
    assert (P4 : _peek content i4 = Some c')
      by (subst body; exact (peek_cons _ _ _ _ A4)).
    rewrite P4. cbn [is_char]. zbool.
    destruct (IHe content fuel (arr ++ [v]) i4 [] r eq_refl A4)
      as (i5 & E5 & A5); [cbn [app]; len|].
    exists i5; split; [|exact A5].
    rewrite E5, <- app_assoc. reflexivity.
  - (* the last member *)
    intros kb k w1 w2 t v w3 Hk Hw1 Hw2 Hv IH Hw3
           content fuel obj idx w r Hw A0 Hf.
    destruct (value_head _ _ _ Hv) as (c & t' & Et & Hc & Hc1 & Hc2 & Hc3).
    norm A0. norm_len Hf. fuelS fuel Hf. cbn [object_loop].
    destruct (skip_whitespace_spec content w
                (DQUOTE :: kb ++ DQUOTE :: w1 ++ COLON :: w2 ++ t ++ w3 ++
                 RBRACE :: r) fuel idx)
      as (i1 & E1 & A1); auto; [lia|].
    rewrite E1, (peek_cons _ _ _ _ A1). cbn [Z.eqb Pos.eqb negb].
    destruct (parse_string_chars content kb k _ fuel i1 Hk A1)
      as (i2 & E2 & A2); [lia|].
    rewrite E2.
    destruct (skip_whitespace_spec content w1
                (COLON :: w2 ++ t ++ w3 ++ RBRACE :: r) fuel i2)
      as (i3 & E3 & A3); auto; [lia|].
    rewrite E3, (next_cons _ _ _ _ A3). cbn [is_char Z.eqb Pos.eqb negb].
    apply At_step in A3.
    destruct (skip_whitespace_spec content w2 (t ++ w3 ++ RBRACE :: r)
                fuel (i3 + 1))
      as (i4 & E4 & A4); auto; [subst t; exact Hc | lia |].
    rewrite E4.
    destruct (IH content fuel i4 (w3 ++ RBRACE :: r) A4)
      as (i5 & E5 & A5);
      [apply ws_app_delimited; auto | len |].
    rewrite E5.
    destruct (skip_whitespace_spec content w3 (RBRACE :: r) fuel i5)
      as (i6 & E6 & A6); auto; [lia|].
    rewrite E6, (peek_cons _ _ _ _ A6). cbn [is_char Z.eqb Pos.eqb negb].
    fuelS fuel Hf. cbn [object_loop].
    destruct (skip_whitespace_none content (RBRACE :: r) fuel i6)
      as (i7 & E7 & A7); auto; [lia|].
    rewrite E7, (peek_cons _ _ _ _ A7). cbn [Z.eqb Pos.eqb].
    rewrite (next_cons _ _ _ _ A7). cbn [snd].
    exists (i7 + 1); split; [reflexivity|]. eapply At_step; eauto.
  - (* a member and more *)
    intros kb k w1 w2 t v w3 w4 body ps Hk Hw1 Hw2 Hv IH Hw3 Hw4 Hm IHm
           content fuel obj idx w r Hw A0 Hf.
    destruct (value_head _ _ _ Hv) as (c & t' & Et & Hc & Hc1 & Hc2 & Hc3).
    destruct (members_head _ _ _ Hm) as (b' & Eb).
    norm A0. norm_len Hf. fuelS fuel Hf. cbn [object_loop].
    destruct (skip_whitespace_spec content w
                (DQUOTE :: kb ++ DQUOTE :: w1 ++ COLON :: w2 ++ t ++ w3 ++
                 COMMA :: w4 ++ body ++ RBRACE :: r) fuel idx)
      as (i1 & E1 & A1); auto; [lia|].
    rewrite E1, (peek_cons _ _ _ _ A1). cbn [Z.eqb Pos.eqb negb].
    destruct (parse_string_chars content kb k _ fuel i1 Hk A1)
      as (i2 & E2 & A2); [lia|].
    rewrite E2.
    destruct (skip_whitespace_spec content w1
                (COLON :: w2 ++ t ++ w3 ++ COMMA :: w4 ++ body ++ RBRACE :: r)
                fuel i2)
      as (i3 & E3 & A3); auto; [lia|].
    rewrite E3, (next_cons _ _ _ _ A3). cbn [is_char Z.eqb Pos.eqb negb].
    apply At_step in A3.
    destruct (skip_whitespace_spec content w2
                (t ++ w3 ++ COMMA :: w4 ++ body ++ RBRACE :: r)
                fuel (i3 + 1))
      as (i4 & E4 & A4); auto; [subst t; exact Hc | lia |].
    rewrite E4.
    destruct (IH content fuel i4 (w3 ++ COMMA :: w4 ++ body ++ RBRACE :: r) A4)
      as (i5 & E5 & A5);
      [apply ws_app_delimited; auto | len |].
    rewrite E5.
    destruct (skip_whitespace_spec content w3
                (COMMA :: w4 ++ body ++ RBRACE :: r) fuel i5)
      as (i6 & E6 & A6); auto; [lia|].
    rewrite E6, (peek_cons _ _ _ _ A6). cbn [is_char Z.eqb Pos.eqb].
    rewrite (next_cons _ _ _ _ A6). cbn [snd]. apply At_step in A6.
    destruct (skip_whitespace_spec content w4 (body ++ RBRACE :: r)
                fuel (i6 + 1)) as (i7 & E7 & A7); auto;
      [subst body; reflexivity | lia |].
    rewrite E7.
    assert (P7 : _peek content i7 = Some DQUOTE)
      by (subst body; exact (peek_cons _ _ _ _ A7)).
    rewrite P7. cbn [is_char Z.eqb Pos.eqb].
    destruct (IHm content fuel (dict_set k v obj) i7 [] r eq_refl A7)
      as (i8 & E8 & A8); [cbn [app]; len|].
    exists i8; split; [|exact A8].
    rewrite E8. reflexivity.
Qed.

Lemma ws_delimited (w : str) : ws w -> delimited w = true.
Proof.
  intros H. rewrite <- (app_nil_r w). apply ws_app_delimited; auto.
Qed.

(** The decoder returns the value of every JSON text of the grammar, read
    with every escape on its own. *)
Lemma decode_reads_json (text : str) (v : Value) :
  Grammar.json false text v -> decode text = Return v.
Proof.
  intros (w1 & t & w2 & -> & Hw1 & Hw2 & Hv).
  destruct (value_head _ _ _ Hv) as (c & t' & Et & Hc & _).
  unfold decode, JSONDecoder.decode.
  set (content := w1 ++ t ++ w2).
  set (fuel := (3 + 3 * length content)%nat).
  destruct (skip_whitespace_spec content w1 (t ++ w2) fuel (-1))
    as (i1 & E1 & A1); auto.
  { subst t; exact Hc. }
  { apply At_init. }
  { unfold fuel, content. len. }
  rewrite E1.
  destruct (proj1 decoder_reads_grammar t v Hv content fuel i1 w2 A1)
    as (i2 & E2 & A2).
  { apply ws_delimited; exact Hw2. }
  { unfold fuel, content. len. }
  rewrite E2.
  destruct (skip_whitespace_spec content w2 [] fuel i2)
    as (i3 & E3 & A3); auto.
  { rewrite app_nil_r; exact A2. }
  { unfold fuel, content. len. }
  rewrite E3, (peek_nil _ _ A3). reflexivity.
Qed.

(** ** Texts without surrogate pairs *)

(** A character that is no backslash begins no escape. *)
Lemma no_pair_char (c : char) (r : str) :
  c <> BACKSLASH ->
  Grammar.has_surrogate_pair (c :: r) = Grammar.has_surrogate_pair r.
Proof.
  intros H. cbn [Grammar.has_surrogate_pair].
  apply Z.eqb_neq in H. rewrite H. reflexivity.
Qed.

Lemma no_pair_plain (x r : str) :
  Forall (fun c => c <> BACKSLASH) x ->
  Grammar.has_surrogate_pair (x ++ r) = Grammar.has_surrogate_pair r.
Proof.
  induction 1 as [|c x Hc _ IH]; [reflexivity|].
  cbn [app]. rewrite no_pair_char by exact Hc. exact IH.
Qed.

Lemma no_pair_ws (w r : str) :
  ws w ->
  Grammar.has_surrogate_pair (w ++ r) = Grammar.has_surrogate_pair r.
Proof.
  intros Hw. apply no_pair_plain. apply Forall_forall. intros c Hc.
  unfold ws in Hw. rewrite forallb_forall in Hw. specialize (Hw c Hc).
  intros ->. discriminate Hw.
Qed.

Lemma no_pair_digits (ds r : str) :
  forallb is_ascii_digit ds = true ->
  Grammar.has_surrogate_pair (ds ++ r) = Grammar.has_surrogate_pair r.
Proof.
  intros Hd. apply no_pair_plain. apply Forall_digits; [|exact Hd].
  intros c Hc. destruct (ascii_digit_facts c Hc) as (_ & _ & _ & _ & _ & Hr).
  lia.
Qed.

Lemma no_pair_minus (neg : bool) (r : str) :
  Grammar.has_surrogate_pair (Grammar.minus neg ++ r) =
  Grammar.has_surrogate_pair r.
Proof. destruct neg; [apply no_pair_char; discriminate|reflexivity]. Qed.

(** A string body of the grammar that holds no pair is read with every
    escape on its own, and so is what follows it. *)
Lemma chars_without_pairs (body s : str) :
  Grammar.chars true body s ->
  forall r,
    Grammar.has_surrogate_pair (body ++ r) = false ->
    Grammar.chars false body s /\ Grammar.has_surrogate_pair r = false.
Proof.
  induction 1 as [ | c body s Hc1 Hc2 Hc3 _ IH | e x body s He _ IH
                 | h1 h2 h3 h4 v body s Hh Hs _ IH
                 | h1 h2 h3 h4 hi l1 l2 l3 l4 lo body s _ Hh Hhi Hl Hlo _ IH ];
    intros r Hn.
  - split; [apply Grammar.chars_nil|exact Hn].
  - cbn [app] in Hn. rewrite no_pair_char in Hn by exact Hc3.
    destruct (IH r Hn) as [I1 I2].
    split; [apply Grammar.chars_raw; auto|exact I2].
  - destruct (escape_lookup _ _ He) as [Hne _].
    cbn [app Grammar.has_surrogate_pair Z.eqb Pos.eqb] in Hn.
    apply Z.eqb_neq in Hne. rewrite Hne in Hn.
    destruct (IH r Hn) as [I1 I2].
    split; [apply Grammar.chars_escape; auto|exact I2].
  - cbn [app Grammar.has_surrogate_pair Z.eqb Pos.eqb] in Hn.
    apply orb_false_elim in Hn. destruct Hn as [_ Hn].
    destruct (IH r Hn) as [I1 I2].
    split; [|exact I2].
    apply Grammar.chars_u; [exact Hh | discriminate | exact I1].
  - exfalso.
    cbn [app Grammar.has_surrogate_pair Z.eqb Pos.eqb] in Hn.
    apply orb_false_elim in Hn. destruct Hn as [Hn _].
    cbn [Grammar.pair_at Grammar.low_escape Z.eqb Pos.eqb andb] in Hn.
    rewrite Hh, Hhi, Hl, Hlo in Hn. discriminate.
Qed.

(** Take the next piece off a text that holds no pair. *)
Ltac no_pair_step H :=
  first [ rewrite no_pair_ws in H by assumption
        | rewrite no_pair_minus in H
        | rewrite no_pair_digits in H by assumption
        | rewrite no_pair_char in H by discriminate ].

Lemma grammar_without_pairs :
  (forall t v, Grammar.value true t v ->
     forall r, Grammar.has_surrogate_pair (t ++ r) = false ->
     Grammar.value false t v /\ Grammar.has_surrogate_pair r = false) /\
  (forall body vs, Grammar.elements true body vs ->
     forall r, Grammar.has_surrogate_pair (body ++ r) = false ->
     Grammar.elements false body vs /\
     Grammar.has_surrogate_pair r = false) /\
  (forall body ps, Grammar.members true body ps ->
     forall r, Grammar.has_surrogate_pair (body ++ r) = false ->
     Grammar.members false body ps /\
     Grammar.has_surrogate_pair r = false).
Proof.
  apply (grammar_ind true).
  - intros r H. split; [constructor|].
    rewrite (no_pair_plain (txt "null")) in H
      by (repeat constructor; discriminate). exact H.
  - intros r H. split; [constructor|].
    rewrite (no_pair_plain (txt "true")) in H
      by (repeat constructor; discriminate). exact H.
  - intros r H. split; [constructor|].
    rewrite (no_pair_plain (txt "false")) in H
      by (repeat constructor; discriminate). exact H.
  - intros neg ip Hi Hlen r H.
    destruct (int_part_digits ip Hi) as [_ Hd].
    norm H. repeat no_pair_step H.
    split; [constructor; auto|exact H].
  - intros neg ip fp Hi Hf r H.
    destruct (int_part_digits ip Hi) as [_ Hd].
    destruct (digits_digits fp Hf) as [_ Hfd].
    norm H. repeat no_pair_step H.
    split; [constructor; auto|exact H].
  - intros body s Hc r H. norm H. no_pair_step H.
    destruct (chars_without_pairs body s Hc _ H) as [I1 I2].
    no_pair_step I2. split; [constructor; auto|exact I2].
  - intros w Hw r H. norm H. repeat no_pair_step H.
    split; [constructor; auto|exact H].
  - intros w body vs Hw He IH r H. norm H. repeat no_pair_step H.
    destruct (IH _ H) as [I1 I2]. no_pair_step I2.
    split; [constructor; auto|exact I2].
  - intros w Hw r H. norm H. repeat no_pair_step H.
    split; [constructor; auto|exact H].
  - intros w body ps Hw Hm IH r H. norm H. repeat no_pair_step H.
    destruct (IH _ H) as [I1 I2]. no_pair_step I2.
    split; [constructor; auto|exact I2].
  - intros t v w Hv IH Hw r H. norm H.
    destruct (IH _ H) as [I1 I2]. no_pair_step I2.
    split; [constructor; auto|exact I2].
  - intros t v w1 w2 body vs Hv IH Hw1 Hw2 He IHe r H. norm H.
    destruct (IH _ H) as [I1 I2]. repeat no_pair_step I2.
    destruct (IHe _ I2) as [I3 I4].
    split; [constructor; auto|exact I4].
  - intros kb k w1 w2 t v w3 Hk Hw1 Hw2 Hv IH Hw3 r H. norm H.
    no_pair_step H.
    destruct (chars_without_pairs kb k Hk _ H) as [I1 I2].
    repeat no_pair_step I2.
    destruct (IH _ I2) as [I3 I4]. no_pair_step I4.
    split; [constructor; auto|exact I4].
  - intros kb k w1 w2 t v w3 w4 body ps Hk Hw1 Hw2 Hv IH Hw3 Hw4 Hm IHm r H.
    norm H. no_pair_step H.
    destruct (chars_without_pairs kb k Hk _ H) as [I1 I2].
    repeat no_pair_step I2.
    destruct (IH _ I2) as [I3 I4]. repeat no_pair_step I4.
    destruct (IHm _ I4) as [I5 I6].
    split; [constructor; auto|exact I6].
Qed.

Lemma json_without_pairs (text : str) (v : Value) :
  Grammar.json true text v ->
  Grammar.has_surrogate_pair text = false ->
  Grammar.json false text v.
Proof.
  intros (w1 & t & w2 & -> & Hw1 & Hw2 & Hv) Hn.
  rewrite no_pair_ws in Hn by exact Hw1.
  exists w1, t, w2. repeat split; auto.
  apply (proj1 grammar_without_pairs t v Hv w2 Hn).
Qed.

(** ** The cursor never moves back *)

Section Monotone.

Variable content : str.

Lemma next_mono idx : idx <= snd (_next content idx).
Proof. unfold _next; destruct (_peek content idx); cbn [snd]; lia. Qed.

Lemma next_mono_eq idx o j : _next content idx = (o, j) -> idx <= j.
Proof. intros H; pose proof (next_mono idx) as M; rewrite H in M; exact M. Qed.

Lemma skip_whitespace_mono fuel : forall idx u idx',
  _skip_whitespace content fuel idx = Return (u, idx') -> idx <= idx'.
Proof.
  induction fuel as [|fuel IH]; intros idx u idx' H; [discriminate|].
  cbn [_skip_whitespace] in H.
  destruct (_peek content idx) as [c|]; [|inversion H; lia].
  destruct ((c =? 32) || (c =? 9) || (c =? 10) || (c =? 13));
    [|inversion H; lia].
  apply IH in H. pose proof (next_mono idx). lia.
Qed.

Lemma hex_loop_mono k : forall h idx h' idx',
  hex_loop content k h idx = Return (h', idx') -> idx <= idx'.
Proof.
  induction k as [|k IH]; intros h idx h' idx' H; cbn [hex_loop] in H.
  - inversion H; lia.
  - destruct (_next content idx) as [[c|] j] eqn:En; [|discriminate].
    apply next_mono_eq in En.
    destruct (Py.isdigit c || Py.lower_in_abcdef c); [|discriminate].
    apply IH in H. lia.
Qed.

Lemma string_loop_mono fuel : forall s char idx s' idx',
  string_loop content fuel s char idx = Return (s', idx') -> idx <= idx'.
Proof.
  induction fuel as [|fuel IH]; intros s char idx s' idx' H; [discriminate|].
  cbn [string_loop] in H.
  destruct char as [c|]; [|discriminate].
  destruct (Py.ord c <? 32); [discriminate|].
  destruct (c =? 34); [inversion H; lia|].
  destruct (c =? 92).
  - destruct (_next content idx) as [[e|] j] eqn:En; [|discriminate].
    apply next_mono_eq in En.
    destruct (e =? 117).
    + destruct (hex_loop content 4 [] j) as [[h j']| |] eqn:Eh;
        try discriminate.
      apply hex_loop_mono in Eh.
      destruct (Py.int 16 h); [|discriminate].
      destruct (Py.chr z); [|discriminate].
      destruct (_next content j') as [ch j''] eqn:En'.
      apply next_mono_eq in En'. apply IH in H. lia.
    + destruct (lookup e _ESCAPE_CHARACTERS); [|discriminate].
      destruct (_next content j) as [ch j''] eqn:En'.
      apply next_mono_eq in En'. apply IH in H. lia.
  - destruct (_next content idx) as [ch j] eqn:En.
    apply next_mono_eq in En. apply IH in H. lia.
Qed.

Lemma parse_string_mono fuel idx s idx' :
  _parse_string content fuel idx = Return (s, idx') -> idx <= idx'.
Proof.
  unfold _parse_string. intros H.
  destruct (_next content idx) as [o j] eqn:E1.
  destruct (_next content j) as [o' j'] eqn:E2.
  apply next_mono_eq in E1, E2. apply string_loop_mono in H. lia.
Qed.

Lemma number_loop_mono fuel : forall s fl idx s' fl' idx',
  number_loop content fuel s fl idx = Return (s', fl', idx') -> idx <= idx'.
Proof.
  induction fuel as [|fuel IH]; intros s fl idx s' fl' idx' H; [discriminate|].
  cbn [number_loop] in H.
  destruct (_peek content idx) as [c|]; [|inversion H; lia].
  destruct (negb (Py.isspace c) && negb (closes c)); [|inversion H; lia].
  apply IH in H. pose proof (next_mono idx). lia.
Qed.

Lemma parse_number_mono fuel idx v idx' :
  _parse_number content fuel idx = Return (v, idx') -> idx <= idx'.
Proof.
  unfold _parse_number. intros H.
  destruct (number_loop content fuel [] false idx) as [[[s fl] j]| |] eqn:E;
    try discriminate.
  apply number_loop_mono in E.
  destruct (Py.index s (-1)); [|discriminate].
  destruct (z =? 46); [discriminate|].
  destruct (begins_with_zero s) as [[|]|]; try discriminate.
  destruct fl.
  - destruct (Py.float s); inversion H; subst; lia.
  - destruct (Py.int 10 s); inversion H; subst; lia.
Qed.

Lemma literal_loop_mono fuel : forall s idx s' idx',
  literal_loop content fuel s idx = Return (s', idx') -> idx <= idx'.
Proof.
  induction fuel as [|fuel IH]; intros s idx s' idx' H; [discriminate|].
  cbn [literal_loop] in H.
  destruct (_peek content idx) as [c|]; [|inversion H; lia].
  destruct (negb (Py.isspace c) && negb (closes c)); [|inversion H; lia].
  apply IH in H. pose proof (next_mono idx). lia.
Qed.

Lemma parse_literal_mono fuel idx v idx' :
  _parse_literal content fuel idx = Return (v, idx') -> idx <= idx'.
Proof.
  unfold _parse_literal. intros H.
  destruct (literal_loop content fuel [] idx) as [[s j]| |] eqn:E;
    try discriminate.
  apply literal_loop_mono in E.
  destruct (str_eqb s (txt "true")); [inversion H; subst; lia|].
  destruct (str_eqb s (txt "false")); [inversion H; subst; lia|].
  destruct (str_eqb s (txt "null")); [inversion H; subst; lia|].
  discriminate.
Qed.

(** Take the next step of a run that is known to return. *)
Ltac run_step H IH :=
  match type of H with
  | match ?m with Return _ => _ | Raise _ => _ | OutOfFuel => _ end
    = Return _ =>
      let E := fresh "E" in
      destruct m as [[? ?]| |] eqn:E; try discriminate;
      first [ apply skip_whitespace_mono in E
            | apply parse_string_mono in E
            | apply IH in E ]
  | (if ?b then _ else _) = Return _ => destruct b; try discriminate
  | match ?o with Some _ => _ | None => _ end = Return _ =>
      destruct o; try discriminate
  | (let (_, _) := _next content ?i in _) = Return _ =>
      let E := fresh "E" in
      destruct (_next content i) as [? ?] eqn:E; apply next_mono_eq in E
  end.

(** Every [_next] that occurs moved the cursor forward, if at all. *)
Ltac next_facts :=
  repeat match goal with
  | _ : context [snd (_next content ?i)] |- _ =>
      lazymatch goal with
      | _ : i <= snd (_next content i) |- _ => fail
      | _ => pose proof (next_mono i)
      end
  end.

Lemma parsers_mono (fuel : nat) :
  (forall idx v idx',
     _parse_one content fuel idx = Return (v, idx') -> idx <= idx') /\
  (forall idx d idx',
     _parse_object content fuel idx = Return (d, idx') -> idx <= idx') /\
  (forall obj idx d idx',
     object_loop content fuel obj idx = Return (d, idx') -> idx <= idx') /\
  (forall idx l idx',
     _parse_array content fuel idx = Return (l, idx') -> idx <= idx') /\
  (forall arr idx l idx',
     array_loop content fuel arr idx = Return (l, idx') -> idx <= idx').
Proof.
  induction fuel as [|fuel (IH1 & IH2 & IH3 & IH4 & IH5)];
    [repeat split; intros; discriminate|].
  repeat split.
  - intros idx v idx' H. cbn [_parse_one] in H.
    destruct (_peek content idx) as [c|]; [|discriminate].
    destruct (c =? 123).
    { destruct (_parse_object content fuel idx) as [[d j]| |] eqn:E;
        try discriminate.
      apply IH2 in E. inversion H; subst; lia. }
    destruct (c =? 91).
    { destruct (_parse_array content fuel idx) as [[d j]| |] eqn:E;
        try discriminate.
      apply IH4 in E. inversion H; subst; lia. }
    destruct (c =? 34).
    { destruct (_parse_string content fuel idx) as [[d j]| |] eqn:E;
        try discriminate.
      apply parse_string_mono in E. inversion H; subst; lia. }
    destruct ((c =? 116) || (c =? 102) || (c =? 110)).
    { eapply parse_literal_mono; eauto. }
    destruct ((c =? 45) || Py.isdigit c); [|discriminate].
    eapply parse_number_mono; eauto.
  - intros idx d idx' H. cbn [_parse_object] in H.
    apply IH3 in H. pose proof (next_mono idx). lia.
  - intros obj idx d idx' H. cbn [object_loop] in H.
    repeat run_step H IH1;
      first [apply IH3 in H | inversion H; subst]; next_facts; lia.
  - intros idx d idx' H. cbn [_parse_array] in H.
    apply IH5 in H. pose proof (next_mono idx). lia.
  - intros arr idx d idx' H. cbn [array_loop] in H.
    repeat run_step H IH1;
      first [apply IH5 in H | inversion H; subst]; next_facts; lia.
Qed.

Lemma parse_one_mono fuel idx v idx' :
  _parse_one content fuel idx = Return (v, idx') -> idx <= idx'.
Proof. apply (proj1 (parsers_mono fuel)). Qed.

End Monotone.

(** ** The top level *)

Lemma skip_whitespace_exact (content : str) (w : str) : forall s fuel idx,
  ws w -> ws_ahead s = false ->
  At content idx (w ++ s) -> (length w < fuel)%nat ->
  _skip_whitespace content fuel idx = Return (tt, idx + Z.of_nat (length w)).
Proof.
  induction w as [|c w IH]; intros s fuel idx Hw Hs HA Hf;
    (destruct fuel as [|fuel]; [simpl in Hf; lia|]).
  - cbn [length Z.of_nat]. rewrite Z.add_0_r. cbn [app] in HA.
    cbn [_skip_whitespace].
    destruct s as [|c s].
    + rewrite (peek_nil _ _ HA); reflexivity.
    + rewrite (peek_cons _ _ _ _ HA). simpl in Hs. unfold is_ws in Hs.
      rewrite Hs; reflexivity.
  - apply ws_cons in Hw; destruct Hw as [Hc Hw]. cbn [app] in HA.
    cbn [_skip_whitespace]. rewrite (peek_cons _ _ _ _ HA).
    unfold is_ws in Hc; rewrite Hc.
    rewrite (next_cons _ _ _ _ HA); cbn [snd].
    rewrite (IH s fuel (idx + 1) Hw Hs); [| eapply At_step; eauto
                                          | simpl in Hf; lia].
    do 2 f_equal. cbn [length]. lia.
Qed.

(** After the value only white space may follow. *)
Lemma decode_end (content : str) (fuel : nat) (v : Value) (j : Z) :
  -1 <= j -> (length content < fuel)%nat ->
  (let* (_, idx) := _skip_whitespace content fuel j in
   match _peek content idx with
   | Some _ => Raise (JSONDecodeError Extra_characters)
   | None => Return v
   end) =
  if forallb is_ws (rest content j) then Return v
  else Raise (JSONDecodeError Extra_characters).
Proof.
  intros Hj Hf.
  destruct (ws_split (rest content j)) as (w & s & E & Hw & Hs).
  pose proof (At_rest content j Hj) as A0. rewrite E in A0.
  pose proof (At_length _ _ _ A0) as Hl. autorewrite with len in Hl.
  destruct (skip_whitespace_spec content w s fuel j Hw Hs A0)
    as (i & Ei & Ai); [lia|].
  rewrite Ei, E, forallb_app, Hw. cbn [andb].
  destruct s as [|c s].
  - rewrite (peek_nil _ _ Ai). reflexivity.
  - rewrite (peek_cons _ _ _ _ Ai). cbn [ws_ahead] in Hs.
    cbn [forallb]. rewrite Hs. reflexivity.
Qed.

(** ** Dictionaries *)

Lemma dict_get_set (V : Type) (k k' : str) (v : V) (d : list (str * V)) :
  dict_get k' (dict_set k v d) =
  if str_eqb k' k then Some v else dict_get k' d.
Proof.
  induction d as [|[k0 v0] d IH]; cbn [dict_set dict_get].
  - destruct (str_eqb k' k); reflexivity.
  - destruct (str_eqb k k0) eqn:E; cbn [dict_get].
    + apply str_eqb_eq in E; subst k0.
      destruct (str_eqb k' k); reflexivity.
    + rewrite IH. destruct (str_eqb k' k0) eqn:E'; [|reflexivity].
      apply str_eqb_eq in E'; subst k0.
      destruct (str_eqb k' k) eqn:E''; [|reflexivity].
      apply str_eqb_eq in E''; subst k'. rewrite str_eqb_refl in E.
      discriminate.
Qed.

Lemma dict_set_keys (V : Type) (k x : str) (v : V) (d : list (str * V)) :
  In x (map fst (dict_set k v d)) <-> x = k \/ In x (map fst d).
Proof.
  induction d as [|[k0 v0] d IH]; cbn [dict_set map fst In].
  - intuition.
  - destruct (str_eqb k k0) eqn:E; cbn [map fst In].
    + apply str_eqb_eq in E; subst k0. intuition.
    + rewrite IH. intuition.
Qed.

Lemma dict_set_NoDup (V : Type) (k : str) (v : V) (d : list (str * V)) :
  NoDup (map fst d) -> NoDup (map fst (dict_set k v d)).
Proof.
  induction d as [|[k0 v0] d IH]; cbn [dict_set map fst]; intros H.
  - constructor; [intros []|constructor].
  - inversion H as [|? ? Hn Hd]; subst.
    destruct (str_eqb k k0) eqn:E; cbn [map fst].
    + constructor; assumption.
    + constructor; [|auto]. rewrite dict_set_keys. intros [->|Hi]; [|auto].
      rewrite str_eqb_refl in E. discriminate.
Qed.

(** Assigning the members in text order leaves each key with its last
    value, once. *)
Lemma assignments_last (V : Type) (ps : list (str * V)) :
  forall d k,
    dict_get k (fold_left (fun d kv => dict_set (fst kv) (snd kv) d) ps d) =
    match last_value k ps with
    | Some v => Some v
    | None => dict_get k d
    end.
Proof.
  induction ps as [|[k0 v0] ps IH]; intros d k; cbn [fold_left last_value].
  - reflexivity.
  - rewrite IH. cbn [fst snd].
    destruct (last_value k ps); [reflexivity|].
    rewrite dict_get_set. destruct (str_eqb k k0); reflexivity.
Qed.

Lemma assignments_NoDup (V : Type) (ps : list (str * V)) :
  forall d, NoDup (map fst d) ->
    NoDup (map fst (fold_left (fun d kv => dict_set (fst kv) (snd kv) d) ps d)).
Proof.
  induction ps as [|[k0 v0] ps IH]; intros d H; cbn [fold_left]; auto.
  apply IH. apply dict_set_NoDup. exact H.
Qed.

(** ** The characters that start a number *)

Lemma in_table_check (p : Z -> bool) (tbl : list (Z * Z)) :
  forallb (fun r => forallb p (map (fun k => fst r + Z.of_nat k)
                                   (seq 0 (Z.to_nat (snd r - fst r + 1)))))
          tbl = true ->
  forall c, Py.in_table tbl c = true -> p c = true.
Proof.
  intros H c Hc. unfold Py.in_table in Hc.
  apply existsb_exists in Hc. destruct Hc as (r & Hr & Hb).
  rewrite forallb_forall in H. specialize (H r Hr).
  apply andb_prop in Hb; destruct Hb as [H1 H2].
  apply Z.leb_le in H1, H2.
  apply (range_check p (fst r) _ H c). lia.
Qed.

Lemma isspace_not_digit (c : char) :
  Py.isspace c = true -> (c =? MINUS) || Py.isdigit c = false.
Proof.
  intros H.
  pose proof (in_table_check (fun c => negb ((c =? MINUS) || Py.isdigit c))
                Py.space_table eq_refl c H) as E.
  apply negb_true_iff in E. exact E.
Qed.

Lemma closes_not_digit (c : char) :
  closes c = true -> (c =? MINUS) || Py.isdigit c = false.
Proof.
  unfold closes. intros H.
  repeat (apply orb_prop in H; destruct H as [H|H]);
    apply Z.eqb_eq in H; subst; reflexivity.
Qed.

Lemma number_start_token_char (c : char) :
  (c =? MINUS) || Py.isdigit c = true -> token_char c = true.
Proof.
  intros H. unfold token_char.
  destruct (Py.isspace c) eqn:Es.
  - rewrite (isspace_not_digit c Es) in H. discriminate.
  - destruct (closes c) eqn:Ec; [|reflexivity].
    rewrite (closes_not_digit c Ec) in H. discriminate.
Qed.

(** Every text is a token and then a text that starts with a delimiter. *)
Lemma token_split (s : str) :
  exists t r, s = t ++ r /\ forallb token_char t = true /\ delimited r = true.
Proof.
  induction s as [|c s (t & r & E & Ht & Hr)].
  - exists [], []; repeat split.
  - destruct (token_char c) eqn:Hc.
    + exists (c :: t), r; subst; repeat split; auto.
      cbn [forallb]. rewrite Hc. exact Ht.
    + exists [], (c :: s); repeat split. cbn [delimited]. rewrite Hc.
      reflexivity.
Qed.

(** ** Every run ends *)

Section Totality.

Variable content : str.

Lemma peek_lt idx c : _peek content idx = Some c -> idx + 1 < n content.
Proof.
  unfold _peek. destruct (Z.ltb_spec (idx + 1) (n content)); [auto|discriminate].
Qed.

Lemma next_some idx c :
  _peek content idx = Some c -> _next content idx = (Some c, idx + 1).
Proof. intros H; unfold _next; rewrite H; reflexivity. Qed.

Lemma next_none idx :
  _peek content idx = None -> _next content idx = (None, idx).
Proof. intros H; unfold _next; rewrite H; reflexivity. Qed.

(** What a [_next] leaves: the character, if there is one, and the cursor
    one further and still within the text. *)
Lemma next_cases idx o j :
  _next content idx = (o, j) ->
  (o = None /\ j = idx) \/ (o <> None /\ j = idx + 1 /\ idx + 1 < n content).
Proof.
  unfold _next. destruct (_peek content idx) as [c|] eqn:P; intros H;
    inversion H; subst.
  - right. repeat split; [discriminate|]. eapply peek_lt; eauto.
  - left; auto.
Qed.

Lemma advances_ends {A : Type} idx (r : result (A * Z)) :
  advances content idx r -> ends_within content idx r.
Proof. destruct r as [[a j]| |]; cbn; auto; lia. Qed.

Lemma ends_within_from {A : Type} idx idx0 (r : result (A * Z)) :
  idx0 <= idx -> ends_within content idx r -> ends_within content idx0 r.
Proof. destruct r as [[a j]| |]; cbn; auto; lia. Qed.

Lemma advances_from {A : Type} idx idx0 (r : result (A * Z)) :
  idx0 < idx -> ends_within content idx r -> advances content idx0 r.
Proof. destruct r as [[a j]| |]; cbn; auto; lia. Qed.

Lemma skip_whitespace_ends fuel : forall idx,
  idx <= n content - 1 -> n content - 1 - idx < Z.of_nat fuel ->
  ends_within content idx (_skip_whitespace content fuel idx).
Proof.
  induction fuel as [|fuel IH]; intros idx Hi Hf; [lia|].
  cbn [_skip_whitespace].
  destruct (_peek content idx) as [c|] eqn:P; [|cbn; lia].
  destruct ((c =? 32) || (c =? 9) || (c =? 10) || (c =? 13)); [|cbn; lia].
  rewrite (next_some _ _ P); cbn [snd]. apply peek_lt in P.
  apply (ends_within_from (idx + 1)); [lia|]. apply IH; lia.
Qed.

Lemma hex_loop_ends k : forall h idx,
  idx <= n content - 1 -> ends_within content idx (hex_loop content k h idx).
Proof.
  induction k as [|k IH]; intros h idx Hi; cbn [hex_loop]; [cbn; lia|].
  destruct (_next content idx) as [[c|] j] eqn:En; [|exact I].
  destruct (next_cases _ _ _ En) as [[? ?]|(_ & -> & Hl)]; [discriminate|].
  destruct (Py.isdigit c || Py.lower_in_abcdef c); [|exact I].
  apply (ends_within_from (idx + 1)); [lia|]. apply IH; lia.
Qed.

Lemma string_loop_ends fuel : forall s char idx,
  idx <= n content - 1 ->
  (0 < fuel)%nat -> (char <> None -> n content - idx < Z.of_nat fuel) ->
  ends_within content idx (string_loop content fuel s char idx).
Proof.
  induction fuel as [|fuel IH]; intros s char idx Hi H0 Hf; [lia|].
  cbn [string_loop].
  destruct char as [c|]; [|exact I].
  assert (Hf' : n content - idx < Z.of_nat (S fuel)) by (apply Hf; discriminate).
  assert (K : forall acc o j, idx <= j <= n content - 1 ->
              (o <> None -> idx < j) ->
              ends_within content idx (string_loop content fuel acc o j)).
  { intros acc o j Hj Ho. apply (ends_within_from j); [lia|].
    apply IH; [lia|lia|]. intros Hn. specialize (Ho Hn). lia. }
  assert (N : forall i acc, idx <= i <= n content - 1 ->
              ends_within content idx
                (let (o, j) := _next content i in
                 string_loop content fuel acc o j)).
  { intros i acc Hb. destruct (_next content i) as [o j] eqn:En.
    destruct (next_cases _ _ _ En) as [[-> ->]|(Ho & -> & Hl)].
    - apply K; [lia|congruence].
    - apply K; [lia|lia]. }
  destruct (Py.ord c <? 32); [exact I|].
  destruct (c =? 34); [cbn; lia|].
  destruct (c =? 92); [|apply N; lia].
  destruct (_next content idx) as [[e|] j] eqn:En; [|exact I].
  destruct (next_cases _ _ _ En) as [[? ?]|(_ & -> & Hl)]; [discriminate|].
  destruct (e =? 117).
  - pose proof (hex_loop_ends 4 [] (idx + 1)) as Hh.
    destruct (hex_loop content 4 [] (idx + 1)) as [[h j]| |];
      [|exact I|apply Hh; lia].
    cbn [ends_within] in Hh.
    destruct (Py.int 16 h); [|exact I].
    destruct (Py.chr z); [|exact I].
    apply N. lia.
  - destruct (lookup e _ESCAPE_CHARACTERS); [|exact I].
    apply N; lia.
Qed.

Lemma parse_string_advances fuel idx c :
  _peek content idx = Some c -> idx <= n content - 1 ->
  n content - idx < Z.of_nat fuel ->
  advances content idx (_parse_string content fuel idx).
Proof.
  intros P Hi Hf. unfold _parse_string.
  rewrite (next_some _ _ P). apply peek_lt in P.
  destruct (_next content (idx + 1)) as [o j] eqn:En.
  apply (advances_from j).
  - destruct (next_cases _ _ _ En) as [[-> ->]|(Ho & -> & Hl)]; lia.
  - destruct (next_cases _ _ _ En) as [[-> ->]|(Ho & -> & Hl)];
      apply string_loop_ends; try lia; congruence.
Qed.

Lemma number_loop_ends fuel : forall s fl idx,
  idx <= n content - 1 -> n content - 1 - idx < Z.of_nat fuel ->
  ends_within content idx (number_loop content fuel s fl idx).
Proof.
  induction fuel as [|fuel IH]; intros s fl idx Hi Hf; [lia|].
  cbn [number_loop].
  destruct (_peek content idx) as [c|] eqn:P; [|cbn; lia].
  destruct (negb (Py.isspace c) && negb (closes c)); [|cbn; lia].
  rewrite (next_some _ _ P); cbn [snd]. apply peek_lt in P.
  apply (ends_within_from (idx + 1)); [lia|]. apply IH; lia.
Qed.

Lemma literal_loop_ends fuel : forall s idx,
  idx <= n content - 1 -> n content - 1 - idx < Z.of_nat fuel ->
  ends_within content idx (literal_loop content fuel s idx).
Proof.
  induction fuel as [|fuel IH]; intros s idx Hi Hf; [lia|].
  cbn [literal_loop].
  destruct (_peek content idx) as [c|] eqn:P; [|cbn; lia].
  destruct (negb (Py.isspace c) && negb (closes c)); [|cbn; lia].
  rewrite (next_some _ _ P); cbn [snd]. apply peek_lt in P.
  apply (ends_within_from (idx + 1)); [lia|]. apply IH; lia.
Qed.

Lemma parse_number_advances fuel idx c :
  _peek content idx = Some c -> token_char c = true ->
  n content - 1 - idx < Z.of_nat fuel ->
  advances content idx (_parse_number content fuel idx).
Proof.
  intros P Hc Hf. unfold _parse_number. pose proof (peek_lt _ _ P) as Hl.
  destruct fuel as [|fuel]; [lia|]. cbn [number_loop]. rewrite P.
  unfold token_char in Hc. rewrite Hc.
  rewrite (next_some _ _ P); cbn [snd].
  pose proof (number_loop_ends fuel ([] ++ [c])
                (if c =? 46 then true else false) (idx + 1)) as H.
  destruct (number_loop content fuel ([] ++ [c])
              (if c =? 46 then true else false) (idx + 1))
    as [[[s fl] j]| |]; [|exact I|apply H; lia].
  cbn [ends_within] in H. specialize (H ltac:(lia) ltac:(lia)).
  destruct (Py.index s (-1)); [|exact I].
  destruct (z =? 46); [exact I|].
  destruct (begins_with_zero s) as [[|]|]; try exact I.
  destruct fl.
  - destruct (Py.float s); cbn; [lia|exact I].
  - destruct (Py.int 10 s); cbn; [lia|exact I].
Qed.

Lemma parse_literal_advances fuel idx c :
  _peek content idx = Some c -> token_char c = true ->
  n content - 1 - idx < Z.of_nat fuel ->
  advances content idx (_parse_literal content fuel idx).
Proof.
  intros P Hc Hf. unfold _parse_literal. pose proof (peek_lt _ _ P) as Hl.
  destruct fuel as [|fuel]; [lia|]. cbn [literal_loop]. rewrite P.
  unfold token_char in Hc. rewrite Hc.
  rewrite (next_some _ _ P); cbn [snd].
  pose proof (literal_loop_ends fuel ([] ++ [c]) (idx + 1)) as H.
  destruct (literal_loop content fuel ([] ++ [c]) (idx + 1))
    as [[s j]| |]; [|exact I|apply H; lia].
  cbn [ends_within] in H. specialize (H ltac:(lia) ltac:(lia)).
  destruct (str_eqb s (txt "true")); [cbn; lia|].
  destruct (str_eqb s (txt "false")); [cbn; lia|].
  destruct (str_eqb s (txt "null")); [cbn; lia|exact I].
Qed.

Lemma literal_start_token_char (c : char) :
  (c =? 116) || (c =? 102) || (c =? 110) = true -> token_char c = true.
Proof.
  intros H. repeat (apply orb_prop in H; destruct H as [H|H]);
    apply Z.eqb_eq in H; subst; reflexivity.
Qed.

(** Take the next step of a run that is to end within the text. *)
Ltac peek_cases i :=
  let P := fresh "P" in
  destruct (_peek content i) eqn:P;
  [ pose proof (peek_lt _ _ P); try rewrite (next_some _ _ P)
  | try rewrite (next_none _ P) ];
  cbn [snd fst is_char negb].

Ltac end_step IH1 IHloop :=
  match goal with
  | |- ends_within _ _ (Return _) => cbn [ends_within]; lia
  | |- ends_within _ _ (Raise _) => exact I
  | |- ends_within _ _
         (match ?m with Return _ => _ | Raise _ => _ | OutOfFuel => _ end) =>
      let F := fresh "F" in
      lazymatch m with
      | _skip_whitespace _ _ ?i =>
          assert (F : ends_within content i m)
            by (apply skip_whitespace_ends; lia)
      | _parse_string _ _ ?i =>
          assert (F : advances content i m)
            by (eapply parse_string_advances; [eassumption|lia|lia])
      | _parse_one _ _ ?i =>
          assert (F : advances content i m) by (apply IH1; lia)
      end;
      destruct m as [[? ?]| |]; cbn [ends_within advances] in F;
      [ | exact I | contradiction ]
  | |- ends_within _ _ (let (_, _) := _next content ?i in _) => peek_cases i
  | |- context [_peek content ?i] => peek_cases i
  | |- ends_within _ _ (if ?b then _ else _) => destruct b
  | |- ends_within _ _ (object_loop _ _ _ ?j) =>
      apply (ends_within_from j); [lia | apply IHloop; lia]
  | |- ends_within _ _ (array_loop _ _ _ ?j) =>
      apply (ends_within_from j); [lia | apply IHloop; lia]
  end.

Lemma parsers_end (fuel : nat) :
  (forall idx,
     idx <= n content - 1 ->
     3 * (n content - 1 - idx) + 2 <= Z.of_nat fuel ->
     advances content idx (_parse_one content fuel idx)) /\
  (forall idx c,
     _peek content idx = Some c ->
     3 * (n content - 1 - idx) + 1 <= Z.of_nat fuel ->
     advances content idx (_parse_object content fuel idx)) /\
  (forall obj idx,
     idx <= n content - 1 ->
     3 * (n content - 1 - idx) + 3 <= Z.of_nat fuel ->
     ends_within content idx (object_loop content fuel obj idx)) /\
  (forall idx c,
     _peek content idx = Some c ->
     3 * (n content - 1 - idx) + 1 <= Z.of_nat fuel ->
     advances content idx (_parse_array content fuel idx)) /\
  (forall arr idx,
     idx <= n content - 1 ->
     3 * (n content - 1 - idx) + 3 <= Z.of_nat fuel ->
     ends_within content idx (array_loop content fuel arr idx)).
Proof.
  induction fuel as [|fuel (IH1 & IH2 & IH3 & IH4 & IH5)].
  { repeat split; intros; try lia;
      match goal with P : _peek _ _ = Some _ |- _ => apply peek_lt in P end;
      lia. }
  repeat split.
  - intros idx Hi Hf. cbn [_parse_one].
    destruct (_peek content idx) as [c|] eqn:P; [|exact I].
    pose proof (peek_lt _ _ P) as Hl.
    destruct (c =? 123).
    { pose proof (IH2 idx c P ltac:(lia)) as F.
      destruct (_parse_object content fuel idx) as [[d j]| |];
        cbn [advances] in *; auto. }
    destruct (c =? 91).
    { pose proof (IH4 idx c P ltac:(lia)) as F.
      destruct (_parse_array content fuel idx) as [[d j]| |];
        cbn [advances] in *; auto. }
    destruct (c =? 34).
    { pose proof (parse_string_advances fuel idx c P Hi ltac:(lia)) as F.
      destruct (_parse_string content fuel idx) as [[d j]| |];
        cbn [advances] in *; auto. }
    destruct ((c =? 116) || (c =? 102) || (c =? 110)) eqn:El.
    { apply (parse_literal_advances fuel idx c P); [|lia].
      apply literal_start_token_char; exact El. }
    destruct ((c =? 45) || Py.isdigit c) eqn:En; [|exact I].
    apply (parse_number_advances fuel idx c P); [|lia].
    apply number_start_token_char; exact En.
  - intros idx c P Hf. cbn [_parse_object].
    rewrite (next_some _ _ P); cbn [snd]. apply peek_lt in P.
    apply (advances_from (idx + 1)); [lia|]. apply IH3; lia.
  - intros obj idx Hi Hf. cbn [object_loop].
    repeat end_step IH1 IH3.
  - intros idx c P Hf. cbn [_parse_array].
    rewrite (next_some _ _ P); cbn [snd]. apply peek_lt in P.
    apply (advances_from (idx + 1)); [lia|]. apply IH5; lia.
  - intros arr idx Hi Hf. cbn [array_loop].
    repeat end_step IH1 IH5.
Qed.

End Totality.

(** Every call of [decode] returns a value or raises: the fuel it gives to
    the run is enough for any text. *)
Lemma decode_ends (text : str) : decode text <> OutOfFuel.
Proof.
  unfold decode, JSONDecoder.decode.
  set (fuel := (3 + 3 * length text)%nat).
  assert (Hn : n text = Z.of_nat (length text)) by reflexivity.
  pose proof (skip_whitespace_ends text fuel (-1)) as F1.
  destruct (_skip_whitespace text fuel (-1)) as [[u i1]| |];
    [|discriminate|exfalso; apply F1; unfold fuel; lia].
  cbn [ends_within] in F1. specialize (F1 ltac:(lia) ltac:(unfold fuel; lia)).
  pose proof (proj1 (parsers_end text fuel) i1) as F2.
  destruct (_parse_one text fuel i1) as [[v i2]| |];
    [|discriminate|exfalso; apply F2; unfold fuel; lia].
  cbn [advances] in F2. specialize (F2 ltac:(lia) ltac:(unfold fuel; lia)).
  pose proof (skip_whitespace_ends text fuel i2) as F3.
  destruct (_skip_whitespace text fuel i2) as [[u' i3]| |];
    [|discriminate|exfalso; apply F3; unfold fuel; lia].
  destruct (_peek text i3); discriminate.
Qed.

(** ** What the checks of the decoder do refuse *)

Section Refusals.

Variable content : str.

(** No character: no input.  A character that starts no value: invalid. *)
Lemma parse_one_refuses (fuel : nat) (idx : Z) :
  match _peek content idx with
  | None =>
      _parse_one content (S fuel) idx = Raise (JSONDecodeError No_input)
  | Some c =>
      (c =? LBRACE) || (c =? LBRACKET) || (c =? DQUOTE) || (c =? 116) ||
      (c =? 102) || (c =? 110) || (c =? MINUS) || Py.isdigit c = false ->
      _parse_one content (S fuel) idx = Raise (JSONDecodeError Invalid_JSON)
  end.
Proof.
  cbn [_parse_one]. destruct (_peek content idx) as [c|]; [|reflexivity].
  intros H. repeat (apply orb_false_elim in H; destruct H as [H ?]).
  repeat match goal with E : _ = false |- _ => rewrite E; clear E end.
  reflexivity.
Qed.

(** A character that is no digit for Python and none of a-f, A-F among the
    four behind [\u], or the end of the text there: invalid escape. *)
Lemma hex_loop_refuses (k : nat) : forall (h pre : str) (idx : Z) (r : str),
  At content idx (pre ++ r) -> (length pre < k)%nat ->
  forallb (fun c => Py.isdigit c || Py.lower_in_abcdef c) pre = true ->
  match r with
  | c :: _ => Py.isdigit c || Py.lower_in_abcdef c = false
  | [] => True
  end ->
  hex_loop content k h idx = Raise (JSONDecodeError Invalid_u_escape).
Proof.
  induction k as [|k IH]; intros h pre idx r A0 Hl Hp Hr; [lia|].
  cbn [hex_loop]. destruct pre as [|c pre]; cbn [app] in A0.
  - destruct r as [|c r].
    + rewrite (next_nil _ _ A0). reflexivity.
    + rewrite (next_cons _ _ _ _ A0), Hr. reflexivity.
  - rewrite (next_cons _ _ _ _ A0). cbn [forallb] in Hp.
    apply andb_prop in Hp; destruct Hp as [Hc Hp]. rewrite Hc.
    apply (IH _ pre _ r); auto. eapply At_step; eauto. cbn [length] in Hl; lia.
Qed.

End Refusals.

Lemma isnumeric_token_char (c : char) :
  Py.isnumeric c = true -> token_char c = true.
Proof.
  apply (in_table_check token_char Py.numeric_table). vm_compute. reflexivity.
Qed.

(** A token that begins with a zero and a numeric character fails as an
    invalid number, whatever follows. *)
Lemma leading_zero_refused (content : str) (fuel : nat) (idx d : Z) (r0 : str) :
  At content idx (ZERO :: d :: r0) -> Py.isnumeric d = true ->
  (length content < fuel)%nat ->
  exists m, _parse_number content fuel idx = Raise (JSONDecodeError m) /\
            kind_of m = InvalidNumber.
Proof.
  intros A0 Hd Hf.
  destruct (token_split r0) as (t & r & E & Ht & Hr). subst r0.
  change (48 :: d :: t ++ r) with ((48 :: d :: t) ++ r) in A0.
  pose proof (At_length _ _ _ A0) as Hl. autorewrite with len in Hl.
  destruct (number_loop_spec content (48 :: d :: t) r fuel [] false idx)
    as (idx' & El & A'); auto.
  { cbn [forallb]. rewrite (isnumeric_token_char d Hd). exact Ht. }
  { autorewrite with len. lia. }
  cbn [app] in El.
  destruct (index_last_nonempty (48 :: d :: t)) as (x & Hx & _);
    [discriminate|].
  unfold _parse_number. rewrite El, Hx.
  destruct (x =? 46); [exists Dot_at_end; split; reflexivity|].
  rewrite begins_with_zero_cons. cbn [Z.eqb Pos.eqb]. rewrite Hd.
  exists Leading_zero; split; reflexivity.
Qed.

(** [int()] refuses a string that holds a letter. *)
Lemma scan_digits_refuses (x : char) (s : str) : forall acc prev,
  In x s -> x <> UNDERSCORE -> 10 <= Py.digit_value x ->
  Py.scan_digits 10 acc prev s = None.
Proof.
  induction s as [|c s IH]; intros acc prev Hin Hu Hx; [destruct Hin|].
  cbn [Py.scan_digits].
  destruct (Z.eqb_spec c 95) as [->|Hc].
  - destruct Hin as [E|Hin]; [congruence|].
    destruct (prev =? 95); [reflexivity|]. apply IH; auto.
  - destruct (Z.ltb_spec (Py.digit_value c) 10); [|reflexivity].
    destruct Hin as [E|Hin]; [subst c; lia|]. apply IH; auto.
Qed.

Lemma to_ascii_keeps (x : char) (s : str) :
  In x s -> x < 127 -> In x (Py.to_ascii s) \/ In QUESTION (Py.to_ascii s).
Proof.
  induction s as [|c s IH]; intros Hin Hx; [destruct Hin|].
  cbn [Py.to_ascii].
  destruct (Z.ltb_spec c 127).
  - destruct Hin as [->|Hin]; [left; left; reflexivity|].
    destruct (IH Hin Hx); [left|right]; right; assumption.
  - destruct Hin as [->|Hin]; [lia|].
    destruct (Py.isspace c).
    + destruct (IH Hin Hx); [left|right]; right; assumption.
    + destruct (Py.decimal_value c).
      * destruct (IH Hin Hx); [left|right]; right; assumption.
      * right; left; reflexivity.
Qed.

Lemma lstrip_keeps (x : char) (s : str) :
  In x s -> Py.c_isspace x = false -> In x (Py.lstrip s).
Proof.
  induction s as [|c s IH]; intros Hin Hx; [destruct Hin|].
  cbn [Py.lstrip]. destruct (Py.c_isspace c) eqn:Ec; [|exact Hin].
  destruct Hin as [->|Hin]; [congruence|]. apply IH; auto.
Qed.

Lemma strip_keeps (x : char) (s : str) :
  In x s -> Py.c_isspace x = false -> In x (Py.strip s).
Proof.
  intros Hin Hx. unfold Py.strip.
  rewrite <- in_rev. apply lstrip_keeps; auto.
  rewrite <- in_rev. apply lstrip_keeps; auto.
Qed.

Lemma int_refuses_letter (x : char) (s : str) :
  In x s -> x = 101 \/ x = 69 -> Py.int 10 s = None.
Proof.
  intros Hin Hx.
  assert (K : exists y, In y (Py.strip (Py.to_ascii s)) /\
                        (y = 101 \/ y = 69 \/ y = QUESTION)).
  { destruct (to_ascii_keeps x s Hin) as [H|H]; [lia| |].
    - exists x. split; [apply strip_keeps; auto|tauto].
      destruct Hx; subst; reflexivity.
    - exists 63. split; [apply strip_keeps; auto|tauto]. }
  destruct K as (y & Hy & Ey).
  assert (Fy : y <> UNDERSCORE /\ 10 <= Py.digit_value y /\
               y <> PLUS /\ y <> MINUS)
    by (destruct Ey as [-> | [-> | ->]]; repeat split; cbv; congruence).
  destruct Fy as (F1 & F2 & F3 & F4).
  unfold Py.int.
  destruct (Py.sign (Py.strip (Py.to_ascii s))) as [neg a] eqn:Es.
  assert (Ha : In y a).
  { unfold Py.sign in Es.
    destruct (Py.strip (Py.to_ascii s)) as [|c a'];
      [destruct Hy|].
    destruct (Z.eqb_spec c 43) as [E1|E1];
      [|destruct (Z.eqb_spec c 45) as [E2|E2]];
      inversion Es; subst; auto;
      destruct Hy as [E|Hy]; auto; congruence. }
  rewrite skip_prefix_10. destruct a as [|c ds]; [reflexivity|].
  destruct (c =? 95); [reflexivity|].
  rewrite (scan_digits_refuses y (c :: ds)); auto.
Qed.

(** A number with an exponent and no dot fails as an invalid number. *)
Lemma exponent_without_dot_refused (content : str) (fuel : nat) (idx : Z)
      (s : str) (idx' : Z) :
  number_loop content fuel [] false idx = Return (s, false, idx') ->
  In 101 s \/ In 69 s ->
  exists m, _parse_number content fuel idx = Raise (JSONDecodeError m) /\
            kind_of m = InvalidNumber.
Proof.
  intros El He. unfold _parse_number. rewrite El.
  assert (Hne : s <> []) by (destruct He; destruct s; auto; discriminate).
  destruct (index_last_nonempty s Hne) as (x & Hx & _). rewrite Hx.
  destruct (x =? 46); [exists Dot_at_end; split; reflexivity|].
  destruct (begins_with_zero s) as [[|]|] eqn:Eb.
  - exists Leading_zero; split; reflexivity.
  - assert (Ei : Py.int 10 s = None)
      by (destruct He; eapply int_refuses_letter; eauto).
    rewrite Ei. exists Invalid_number; split; reflexivity.
  - exfalso. revert Eb. apply begins_with_zero_total.
Qed.

(** * The claims *)

(** C1, as amended.  For every input accepted by the restricted grammar,
    with integers of no more digits than [int()] converts, that holds no
    escape for a high surrogate with an escape for a low surrogate right
    behind it and nests arrays and objects no deeper than [nesting_limit],
    [decode] returns the value the reference decoder gives the same text:
    integers as integers, floats as the nearest double, the last value of a
    repeated key, the elements of an array in their order.  The bound on
    the nesting keeps the run within the stack of the interpreter, which is
    no part of the model. *)
Theorem decode_agrees_with_reference (text : str) (v : Value) :
  Grammar.json true text v ->
  Grammar.has_surrogate_pair text = false ->
  (Grammar.nesting text <= nesting_limit)%nat ->
  decode text = Return v.
Proof.
  intros Hj Hn _. apply decode_reads_json, json_without_pairs; assumption.
Qed.

Lemma decode_agrees_with_reference_witness :
  decode (txt "{'a': [1, 2.5], 'a': '\u00e9\\uD83D\uDE00\n'}") =
  Return (Object [(txt "a", String [233; 92; 117; 68; 56; 51; 68; 56832; 10])]).
Proof.
  apply decode_agrees_with_reference;
    [|reflexivity|apply Nat.leb_le; reflexivity].
  exists [], (txt "{'a': [1, 2.5], 'a': '\u00e9\\uD83D\uDE00\n'}"), [].
  repeat split.
  apply (Grammar.v_object true []
           (txt "'a': [1, 2.5], 'a': '\u00e9\\uD83D\uDE00\n'")
           [(txt "a", Array [Integer 1;
                             Float (nearest_double false 25 (-1))]);
            (txt "a", String [233; 92; 117; 68; 56; 51; 68; 56832; 10])]);
    [reflexivity|].
  apply (Grammar.members_more true (txt "a") (txt "a") [] (txt " ")
           (txt "[1, 2.5]") _ [] (txt " ")
           (txt "'a': '\u00e9\\uD83D\uDE00\n'"));
    try reflexivity.
  - apply Grammar.chars_raw; try (cbv; congruence). apply Grammar.chars_nil.
  - apply (Grammar.v_array true [] (txt "1, 2.5")); [reflexivity|].
    apply (Grammar.elements_more true (txt "1") _ [] (txt " ") (txt "2.5"));
      try reflexivity.
    + apply (Grammar.v_integer true false (txt "1"));
      [reflexivity|cbv; discriminate].
    + apply (Grammar.elements_last true (txt "2.5") _ []); [|reflexivity].
      apply (Grammar.v_float true false (txt "2") (txt "5")); reflexivity.
  - apply (Grammar.members_last true (txt "a") (txt "a") [] (txt " ")
             (txt "'\u00e9\\uD83D\uDE00\n'") _ []); try reflexivity.
    + apply Grammar.chars_raw; try (cbv; congruence). apply Grammar.chars_nil.
    + apply (Grammar.v_string true (txt "\u00e9\\uD83D\uDE00\n")
               [233; 92; 117; 68; 56; 51; 68; 56832; 10]).
      apply (Grammar.chars_u true 48 48 101 57 233
               (txt "\\uD83D\uDE00\n")
               [92; 117; 68; 56; 51; 68; 56832; 10]);
        [reflexivity | intros _ H; discriminate H |].
      apply (Grammar.chars_escape true 92 92 (txt "uD83D\uDE00\n")
               [117; 68; 56; 51; 68; 56832; 10]); [reflexivity|].
      do 5 (apply Grammar.chars_raw; try (cbv; congruence)).
      apply (Grammar.chars_u true 68 69 48 48 56832 (txt "\n") [10]);
        [reflexivity | intros _ H; discriminate H |].
      apply (Grammar.chars_escape true 110 10 [] []); [reflexivity|].
      apply Grammar.chars_nil.
Defined.

(** C1, as stated, fails on a surrogate pair: the reference decoder reads
    the two escapes as the one character U+1F600, [decode] returns the two
    surrogates. *)
Lemma decode_differs_on_surrogate_pair :
  Grammar.json true (txt "'\uD83D\uDE00'") (String [128512]) /\
  decode (txt "'\uD83D\uDE00'") = Return (String [55357; 56832]) /\
  decode (txt "'\uD83D\uDE00'") <> Return (String [128512]).
Proof.
  split; [|split; [reflexivity|discriminate]].
  exists [], (txt "'\uD83D\uDE00'"), []. repeat split.
  apply (Grammar.v_string true (txt "\uD83D\uDE00") [128512]).
  apply (Grammar.chars_pair true 68 56 51 68 55357 68 69 48 48 56832 [] []);
    try reflexivity.
  apply Grammar.chars_nil.
Qed.

(** C2.  A zero with a digit behind it is refused, but not when a minus
    sign stands before it: the text -01 is decoded as the integer -1. *)
Theorem leading_zero_behind_minus_accepted :
  decode (txt "01") = Raise (JSONDecodeError Leading_zero) /\
  decode (txt "00.1") = Raise (JSONDecodeError Leading_zero) /\
  decode (txt "-01") = Return (Integer (-1)) /\
  decode (txt "-00.1") = Return (Float (nearest_double true 1 (-1))).
Proof. repeat split; reflexivity. Qed.

(** C3.  A number with an exponent is refused when it has no dot, and
    decoded when it has one: the text 1.5e3 is decoded as the float 1500. *)
Theorem exponent_behind_dot_accepted :
  decode (txt "1e10") = Raise (JSONDecodeError Invalid_number) /\
  decode (txt "-2E-5") = Raise (JSONDecodeError Invalid_number) /\
  decode (txt "1.5e3") = Return (Float (nearest_double false 1500 0)).
Proof. repeat split; reflexivity. Qed.

(** C4.  The empty text fails for no input and a text that begins with an at
    sign fails as invalid, but a digit of another script is sent to the
    number parser: the text of the one character U+0661, ARABIC-INDIC DIGIT
    ONE, is decoded as the integer 1. *)
Theorem arabic_digit_decoded_as_number :
  decode [] = Raise (JSONDecodeError No_input) /\
  decode (txt "@") = Raise (JSONDecodeError Invalid_JSON) /\
  decode [1633] = Return (Integer 1).
Proof. repeat split; reflexivity. Qed.

(** C5.  A letter G among the four characters of a [\u] escape fails as an
    invalid escape, but digits of another script pass for hexadecimal
    digits: the string of a [\u] escape with four times U+0661 is decoded as
    the character U+1111. *)
Theorem arabic_digits_in_u_escape_accepted :
  decode (txt "'\u00G1'") = Raise (JSONDecodeError Invalid_u_escape) /\
  decode (txt "'\u" ++ [1633; 1633; 1633; 1633] ++ txt "'") =
  Return (String [4369]).
Proof. split; reflexivity. Qed.

(** C6.  A failure of the number conversion is caught and raised again as
    the decoder's error, but a [\u] escape with four times U+00B2,
    SUPERSCRIPT TWO, passes the test for digits and then fails in [int()],
    outside any [try]: a [ValueError] leaves [decode]. *)
Theorem u_escape_raises_ValueError :
  decode (txt "12a3") = Raise (JSONDecodeError Invalid_number) /\
  decode (txt "'\u" ++ [178; 178; 178; 178] ++ txt "'") = Raise ValueError.
Proof. split; reflexivity. Qed.

(** C7.  The object of the members [ps], written in this order between the
    braces, is decoded as a dictionary that gives every key the value of
    its last member and holds every key once; and the object with the
    members a: 1, b: 2, a: 3 is decoded as a: 3, b: 2. *)
Theorem duplicate_keys_last_wins :
  (forall w body ps,
     ws w -> Grammar.members false body ps ->
     exists d,
       decode (LBRACE :: w ++ body ++ [RBRACE]) = Return (Object d) /\
       (forall k, dict_get k d = last_value k ps) /\
       NoDup (map fst d)) /\
  decode (txt "{'a': 1, 'b': 2, 'a': 3}") =
  Return (Object [(txt "a", Integer 3); (txt "b", Integer 2)]).
Proof.
  split; [|reflexivity].
  intros w body ps Hw Hm. exists (dict_of ps). repeat split.
  - apply decode_reads_json.
    exists [], (LBRACE :: w ++ body ++ [RBRACE]), [].
    repeat split. { cbn [app]. rewrite app_nil_r. reflexivity. }
    apply Grammar.v_object; assumption.
  - intros k. unfold dict_of. rewrite assignments_last.
    destruct (last_value k ps); reflexivity.
  - apply assignments_NoDup. constructor.
Qed.

Lemma duplicate_keys_last_wins_witness :
  exists d,
    decode (txt "{'a': 1, 'b': 2, 'a': 3}") = Return (Object d) /\
    (forall k, dict_get k d =
               last_value k [(txt "a", Integer 1); (txt "b", Integer 2);
                             (txt "a", Integer 3)]) /\
    NoDup (map fst d).
Proof.
  apply (proj1 duplicate_keys_last_wins []
           (txt "'a': 1, 'b': 2, 'a': 3")
           [(txt "a", Integer 1); (txt "b", Integer 2); (txt "a", Integer 3)]);
    [reflexivity|].
  apply (Grammar.members_more false (txt "a") (txt "a") [] (txt " ")
           (txt "1") _ [] (txt " ") (txt "'b': 2, 'a': 3")); try reflexivity.
  - apply Grammar.chars_raw; try (cbv; congruence). apply Grammar.chars_nil.
  - apply (Grammar.v_integer false false (txt "1"));
      [reflexivity|cbv; discriminate].
  - apply (Grammar.members_more false (txt "b") (txt "b") [] (txt " ")
             (txt "2") _ [] (txt " ") (txt "'a': 3")); try reflexivity.
    + apply Grammar.chars_raw; try (cbv; congruence). apply Grammar.chars_nil.
    + apply (Grammar.v_integer false false (txt "2"));
      [reflexivity|cbv; discriminate].
    + apply (Grammar.members_last false (txt "a") (txt "a") [] (txt " ")
               (txt "3") _ []); try reflexivity.
      * apply Grammar.chars_raw; try (cbv; congruence).
        apply Grammar.chars_nil.
      * apply (Grammar.v_integer false false (txt "3"));
      [reflexivity|cbv; discriminate].
Defined.

(** C8.  [decode] skips the white space [w] the text begins with, parses
    one value from there, and returns it when only white space is left
    behind it; when anything else is left it fails with the message for
    extra characters; and it does return or fail, on every text.  The text
    of an empty object with blanks around and inside it is decoded as the
    empty object, and the text of an empty object, a blank and a word fails
    with that message. *)
Theorem decode_one_value_then_end :
  (forall text w s,
     text = w ++ s -> ws w -> ws_ahead s = false ->
     decode text =
     match _parse_one text (3 + 3 * length text) (Z.of_nat (length w) - 1) with
     | Return (v, j) =>
         if forallb is_ws (rest text j) then Return v
         else Raise (JSONDecodeError Extra_characters)
     | Raise e => Raise e
     | OutOfFuel => OutOfFuel
     end) /\
  (forall text, decode text <> OutOfFuel) /\
  decode (txt "   {  }  ") = Return (Object []) /\
  decode (txt "{} trailing") = Raise (JSONDecodeError Extra_characters).
Proof.
  split; [|split; [exact decode_ends|split; reflexivity]].
  intros text w s E Hw Hs. unfold decode, JSONDecoder.decode.
  set (fuel := (3 + 3 * length text)%nat).
  assert (A0 : At text (-1) (w ++ s)) by (rewrite <- E; apply At_init).
  assert (Hl : (length w <= length text)%nat)
    by (rewrite E; autorewrite with len; lia).
  rewrite (skip_whitespace_exact text w s fuel (-1) Hw Hs A0)
    by (unfold fuel; lia).
  replace (-1 + Z.of_nat (length w)) with (Z.of_nat (length w) - 1) by lia.
  destruct (_parse_one text fuel (Z.of_nat (length w) - 1))
    as [[v j]| |] eqn:Ev; try reflexivity.
  apply parse_one_mono in Ev.
  apply decode_end; [lia | unfold fuel; lia].
Qed.

Lemma decode_one_value_then_end_witness :
  decode (txt "   {  }  ") =
  match _parse_one (txt "   {  }  ") 30 2 with
  | Return (v, j) =>
      if forallb is_ws (rest (txt "   {  }  ") j) then Return v
      else Raise (JSONDecodeError Extra_characters)
  | Raise e => Raise e
  | OutOfFuel => OutOfFuel
  end.
Proof.
  apply (proj1 decode_one_value_then_end (txt "   {  }  ")
           (txt "   ") (txt "{  }  ")); reflexivity.
Defined.

(** C9.  An escape of four hexadecimal digits adds to the string the one
    character of that code point, whatever was read before it and whatever
    follows it; two escapes in a row give two characters, also when they
    are a high and a low surrogate. *)
Theorem u_escapes_decoded_one_by_one :
  (forall content fuel s idx h1 h2 h3 h4 c r v,
     Grammar.hex4 h1 h2 h3 h4 = Some v ->
     At content idx (117 :: h1 :: h2 :: h3 :: h4 :: c :: r) ->
     string_loop content (S fuel) s (Some BACKSLASH) idx =
     string_loop content fuel (s ++ [v]) (Some c) (idx + 6)) /\
  (forall h1 h2 h3 h4 l1 l2 l3 l4 hi lo,
     Grammar.hex4 h1 h2 h3 h4 = Some hi ->
     Grammar.hex4 l1 l2 l3 l4 = Some lo ->
     decode [DQUOTE; BACKSLASH; 117; h1; h2; h3; h4;
             BACKSLASH; 117; l1; l2; l3; l4; DQUOTE] =
     Return (String [hi; lo])) /\
  decode (txt "{'u': '\u0041\u00DF'}") =
  Return (Object [(txt "u", String [65; 223])]) /\
  decode (txt "'\uD83D\uDE00'") = Return (String [55357; 56832]).
Proof.
  split; [|split; [|split; reflexivity]].
  - intros content fuel s idx h1 h2 h3 h4 c r v Hh A0.
    apply (string_loop_u content h1 h2 h3 h4 c v r s fuel idx Hh A0).
  - intros h1 h2 h3 h4 l1 l2 l3 l4 hi lo Hh Hl.
    apply decode_reads_json.
    exists [], [DQUOTE; BACKSLASH; 117; h1; h2; h3; h4;
                BACKSLASH; 117; l1; l2; l3; l4; DQUOTE], [].
    repeat split.
    apply (Grammar.v_string false
             [BACKSLASH; 117; h1; h2; h3; h4; BACKSLASH; 117; l1; l2; l3; l4]
             [hi; lo]).
    apply Grammar.chars_u; [exact Hh | discriminate |].
    apply Grammar.chars_u; [exact Hl | discriminate |].
    apply Grammar.chars_nil.
Qed.

Lemma u_escapes_decoded_one_by_one_witness :
  decode (txt "'\uD83D\uDE00'") = Return (String [55357; 56832]).
Proof.
  apply (proj1 (proj2 u_escapes_decoded_one_by_one)
           68 56 51 68 68 69 48 48 55357 56832); reflexivity.
Defined.

(** C10.  Where the next character is a minus sign or a digit, the number
    parser collects a token that begins with this character, so the token
    has a last character, the test for a leading zero stays within it, and
    [_parse_number] raises no [IndexError]. *)
Theorem number_token_not_empty (content : str) (fuel : nat) (idx c : Z) :
  -1 <= idx ->
  _peek content idx = Some c ->
  (c =? MINUS) || Py.isdigit c = true ->
  (length content < fuel)%nat ->
  exists s isFloat idx',
    number_loop content fuel [] false idx = Return (s, isFloat, idx') /\
    hd_error s = Some c /\
    (exists last, Py.index s (-1) = Some last) /\
    (exists b, begins_with_zero s = Some b) /\
    _parse_number content fuel idx <> Raise IndexError.
Proof.
  intros Hi Hp Hc Hf.
  pose proof (At_rest content idx Hi) as A0.
  rewrite peek_rest in Hp by assumption.
  destruct (rest content idx) as [|c' r0] eqn:Er; [discriminate|].
  inversion Hp; subst c'; clear Hp.
  destruct (token_split r0) as (t & r & E & Ht & Hr). subst r0.
  change (c :: t ++ r) with ((c :: t) ++ r) in A0.
  pose proof (At_length _ _ _ A0) as Hl. autorewrite with len in Hl.
  destruct (number_loop_spec content (c :: t) r fuel [] false idx)
    as (idx' & El & A'); auto.
  { cbn [forallb]. rewrite (number_start_token_char c Hc). exact Ht. }
  { autorewrite with len. lia. }
  cbn [app] in El.
  destruct (index_last_nonempty (c :: t)) as (x & Hx & _); [discriminate|].
  destruct (begins_with_zero (c :: t)) as [b|] eqn:Eb;
    [|exfalso; revert Eb; apply begins_with_zero_total].
  eexists _, _, _. split; [exact El|].
  split; [reflexivity|]. split; [eauto|]. split; [eauto|].
  unfold _parse_number. rewrite El, Hx, Eb.
  destruct (x =? 46); [discriminate|].
  destruct b; [discriminate|].
  destruct (false || existsb (fun c0 => c0 =? 46) (c :: t)).
  - destruct (Py.float (c :: t)); discriminate.
  - destruct (Py.int 10 (c :: t)); discriminate.
Qed.

Lemma number_token_not_empty_witness :
  exists s isFloat idx',
    number_loop (txt "[-12, 3]") 9 [] false 0 = Return (s, isFloat, idx') /\
    hd_error s = Some MINUS /\
    (exists last, Py.index s (-1) = Some last) /\
    (exists b, begins_with_zero s = Some b) /\
    _parse_number (txt "[-12, 3]") 9 0 <> Raise IndexError.
Proof.
  apply (number_token_not_empty (txt "[-12, 3]") 9 0 MINUS);
    [lia | reflexivity | reflexivity | cbn; lia].
Defined.

(** * Further properties of the decoder *)

(** ** The top level *)

(** A failure of the one value is the failure of [decode]. *)
Lemma decode_raise (content : str) (e : exn) :
  ws_ahead content = false ->
  _parse_one content (3 + 3 * length content) (-1) = Raise e ->
  decode content = Raise e.
Proof.
  intros Hs H. unfold decode, JSONDecoder.decode.
  rewrite (skip_whitespace_exact content [] content _ (-1) eq_refl Hs
             (At_init content)) by (cbn [length]; lia).
  cbn [length Z.of_nat]. rewrite Z.add_0_r, H. reflexivity.
Qed.

(** A value that ends with the text is what [decode] returns. *)
Lemma decode_return (content : str) (v : Value) (idx : Z) :
  ws_ahead content = false ->
  _parse_one content (3 + 3 * length content) (-1) = Return (v, idx) ->
  At content idx [] ->
  decode content = Return v.
Proof.
  intros Hs H A. unfold decode, JSONDecoder.decode.
  rewrite (skip_whitespace_exact content [] content _ (-1) eq_refl Hs
             (At_init content)) by (cbn [length]; lia).
  cbn [length Z.of_nat]. rewrite Z.add_0_r, H.
  destruct (skip_whitespace_none content [] (3 + 3 * length content) idx)
    as (i & E & Ai); auto; [lia|].
  rewrite E, (peek_nil _ _ Ai). reflexivity.
Qed.

Lemma token_not_ws (c : char) : token_char c = true -> is_ws c = false.
Proof.
  intros H. destruct (is_ws c) eqn:E; [|reflexivity].
  rewrite (is_ws_delimits c E) in H. discriminate.
Qed.

(** X1.  [_skip_whitespace] moves the cursor over the longest run of
    blanks, tabs, line feeds and carriage returns before it, and no
    further: it stops before any other character, also one that is white
    space for Unicode, and it never fails. *)
Theorem skip_whitespace_longest_run (content w s : str) (fuel : nat) (idx : Z) :
  ws w -> ws_ahead s = false ->
  At content idx (w ++ s) -> (length w < fuel)%nat ->
  _skip_whitespace content fuel idx = Return (tt, idx + Z.of_nat (length w)) /\
  rest content (idx + Z.of_nat (length w)) = s.
Proof.
  intros Hw Hs A Hf.
  pose proof (skip_whitespace_exact content w s fuel idx Hw Hs A Hf) as E.
  destruct (skip_whitespace_spec content w s fuel idx Hw Hs A Hf)
    as (i & E' & [_ Ai]).
  rewrite E in E'. inversion E'; subst i. split; [exact E|exact Ai].
Qed.

Lemma skip_whitespace_longest_run_witness :
  _skip_whitespace [91; 32; 9; 10; 13; 160; 49; 93] 5 0 = Return (tt, 4) /\
  rest [91; 32; 9; 10; 13; 160; 49; 93] 4 = [160; 49; 93].
Proof.
  apply (skip_whitespace_longest_run [91; 32; 9; 10; 13; 160; 49; 93]
           [32; 9; 10; 13] [160; 49; 93] 5 0);
    [reflexivity | reflexivity | split; [lia|reflexivity] | cbn; lia].
Defined.

(** X2.  A text of white space only, the empty text among them, fails for
    no input. *)
Theorem blank_text_is_no_input (w : str) :
  ws w -> decode w = Raise (JSONDecodeError No_input).
Proof.
  intros Hw. unfold decode, JSONDecoder.decode.
  destruct (skip_whitespace_spec w w [] (3 + 3 * length w) (-1))
    as (i & E & Ai); auto.
  { rewrite app_nil_r. apply At_init. }
  { lia. }
  rewrite E. cbn [Nat.add _parse_one]. rewrite (peek_nil _ _ Ai). reflexivity.
Qed.

Lemma blank_text_is_no_input_witness :
  decode [32; 10; 9; 13] = Raise (JSONDecodeError No_input).
Proof. apply blank_text_is_no_input. reflexivity. Defined.

(** ** Literals and numbers *)

(** A text that is one token is collected whole. *)
Lemma token_text_start (t : str) :
  forallb token_char t = true -> ws_ahead t = false.
Proof.
  destruct t as [|c t]; [reflexivity|]. cbn [forallb ws_ahead]. intros H.
  apply andb_prop in H; destruct H as [H _]. apply token_not_ws; exact H.
Qed.

(** X3.  A text of one token that begins with t, f or n is decoded as the
    literal it spells when it is exactly true, false or null, and fails as
    an invalid literal otherwise: neither a prefix nor an extension of a
    literal passes. *)
Theorem literal_token_exact (t : str) (c : char) (t' : str) :
  t = c :: t' -> (c =? 116) || (c =? 102) || (c =? 110) = true ->
  forallb token_char t = true ->
  decode t =
  if str_eqb t (txt "true") then Return (Bool true)
  else if str_eqb t (txt "false") then Return (Bool false)
  else if str_eqb t (txt "null") then Return Null
  else Raise (JSONDecodeError Invalid_literal).
Proof.
  intros Et Hc Ht.
  pose proof (token_text_start t Ht) as Hs.
  assert (A0 : At t (-1) (t ++ [])) by (rewrite app_nil_r; apply At_init).
  destruct (literal_loop_spec t t [] (2 + 3 * length t) [] (-1) Ht eq_refl A0)
    as (i & E & Ai); [lia|].
  assert (D : _parse_one t (3 + 3 * length t) (-1) =
              _parse_literal t (2 + 3 * length t) (-1)).
  { assert (A1 : At t (-1) (c :: t')) by (rewrite <- Et; apply At_init).
    cbn [Nat.add]. rewrite (parse_one_dispatch t _ _ _ _ A1).
    repeat (apply orb_prop in Hc; destruct Hc as [Hc|Hc]);
      apply Z.eqb_eq in Hc; subst c; reflexivity. }
  unfold _parse_literal in D. rewrite E in D. cbn [app] in D.
  destruct (str_eqb t (txt "true"));
    [apply (decode_return t _ i Hs D Ai)|].
  destruct (str_eqb t (txt "false"));
    [apply (decode_return t _ i Hs D Ai)|].
  destruct (str_eqb t (txt "null"));
    [apply (decode_return t _ i Hs D Ai)|].
  apply (decode_raise t _ Hs D).
Qed.

Lemma literal_token_exact_witness :
  decode (txt "truth") = Raise (JSONDecodeError Invalid_literal).
Proof.
  apply (literal_token_exact (txt "truth") 116 (txt "ruth"));
    reflexivity.
Defined.

(** The number parser on a text that is one token. *)
Lemma number_token_text (t : str) (c : char) (t' : str) :
  t = c :: t' -> (c =? MINUS) || Py.isdigit c = true ->
  forallb token_char t = true ->
  exists i,
    _parse_one t (3 + 3 * length t) (-1) =
    _parse_number t (2 + 3 * length t) (-1) /\
    number_loop t (2 + 3 * length t) [] false (-1) =
    Return (t, existsb (fun c => c =? DOT) t, i) /\
    At t i [] /\ ws_ahead t = false.
Proof.
  intros Et Hc Ht.
  pose proof (token_text_start t Ht) as Hs.
  assert (A0 : At t (-1) (t ++ [])) by (rewrite app_nil_r; apply At_init).
  destruct (number_loop_spec t t [] (2 + 3 * length t) [] false (-1)
              Ht eq_refl A0) as (i & E & Ai); [lia|].
  exists i. repeat split; try assumption; try apply Ai.
  assert (A1 : At t (-1) (c :: t')) by (rewrite <- Et; apply At_init).
  cbn [Nat.add]. rewrite (parse_one_dispatch t _ _ _ _ A1).
  assert (Hk : token_char c = true) by (apply number_start_token_char; exact Hc).
  unfold token_char, closes in Hk.
  destruct (Z.eqb_spec c 123) as [->|_]; [discriminate|].
  destruct (Z.eqb_spec c 91) as [->|_]; [discriminate|].
  destruct (Z.eqb_spec c 34) as [->|_]; [discriminate|].
  destruct (Z.eqb_spec c 116) as [->|_]; [discriminate|].
  destruct (Z.eqb_spec c 102) as [->|_]; [discriminate|].
  destruct (Z.eqb_spec c 110) as [->|_]; [discriminate|].
  cbn [orb]. rewrite Hc. reflexivity.
Qed.

(** X4.  A text that begins with a zero and a numeric character, of any
    script, fails as an invalid number, whatever follows. *)
Theorem zero_then_digit_is_invalid (d : char) (r0 : str) :
  Py.isnumeric d = true ->
  exists m, decode (ZERO :: d :: r0) = Raise (JSONDecodeError m) /\
            kind_of m = InvalidNumber.
Proof.
  intros Hd. set (content := ZERO :: d :: r0).
  destruct (leading_zero_refused content (2 + 3 * length content) (-1) d r0
              (At_init content) Hd) as (m & E & K); [lia|].
  exists m. split; [|exact K].
  apply decode_raise; [reflexivity|].
  cbn [Nat.add]. rewrite (parse_one_dispatch content _ _ _ _ (At_init content)).
  exact E.
Qed.

Lemma zero_then_digit_is_invalid_witness :
  exists m, decode (txt "0123, 'x'") = Raise (JSONDecodeError m) /\
            kind_of m = InvalidNumber.
Proof. apply (zero_then_digit_is_invalid 49 (txt "23, 'x'")). reflexivity. Defined.

(** X5.  A text of one number token that holds the letter e or E and no dot
    fails as an invalid number. *)
Theorem exponent_without_dot_is_invalid (t : str) (c : char) (t' : str) :
  t = c :: t' -> (c =? MINUS) || Py.isdigit c = true ->
  forallb token_char t = true ->
  existsb (fun c => c =? DOT) t = false ->
  In 101 t \/ In 69 t ->
  exists m, decode t = Raise (JSONDecodeError m) /\ kind_of m = InvalidNumber.
Proof.
  intros Et Hc Ht Hd He.
  destruct (number_token_text t c t' Et Hc Ht) as (i & D & El & Ai & Hs).
  rewrite Hd in El.
  destruct (exponent_without_dot_refused t _ (-1) t i El He) as (m & E & K).
  exists m. split; [|exact K].
  apply decode_raise; [exact Hs|]. rewrite D. exact E.
Qed.

Lemma exponent_without_dot_is_invalid_witness :
  exists m, decode (txt "-2E-5") = Raise (JSONDecodeError m) /\
            kind_of m = InvalidNumber.
Proof.
  apply (exponent_without_dot_is_invalid (txt "-2E-5") MINUS (txt "2E-5"));
    try reflexivity.
  right. cbn. tauto.
Defined.

(** X6.  A text of one number token that ends with a dot fails for the dot
    at the end. *)
Theorem trailing_dot_is_refused (t : str) (c : char) (t' : str) :
  t = c :: t' -> (c =? MINUS) || Py.isdigit c = true ->
  forallb token_char t = true ->
  decode (t ++ [DOT]) = Raise (JSONDecodeError Dot_at_end).
Proof.
  intros Et Hc Ht.
  assert (Ht' : forallb token_char (t ++ [DOT]) = true)
    by (rewrite forallb_app, Ht; reflexivity).
  destruct (number_token_text (t ++ [DOT]) c (t' ++ [DOT])) as (i & D & El & Ai & Hs);
    auto. { subst t; reflexivity. }
  apply decode_raise; [exact Hs|]. rewrite D.
  unfold _parse_number. rewrite El, index_last. reflexivity.
Qed.

Lemma trailing_dot_is_refused_witness :
  decode (txt "3.") = Raise (JSONDecodeError Dot_at_end).
Proof.
  apply (trailing_dot_is_refused (txt "3") 51 []); reflexivity.
Defined.

Lemma digits_token (ds : str) :
  forallb is_ascii_digit ds = true ->
  forallb token_char ds = true /\
  Forall (fun c => c < 127 /\ Py.c_isspace c = false /\ c <> UNDERSCORE /\
                   c <> DOT) ds.
Proof.
  induction ds as [|d ds IH]; cbn [forallb]; intros H; [split; auto|].
  apply andb_prop in H; destruct H as [H1 H2].
  destruct (IH H2) as [I1 I2].
  destruct (digit_token_char d H1) as [T1 T2].
  destruct (ascii_digit_facts d H1) as (_ & _ & _ & S & _ & R).
  rewrite T1, I1. split; [reflexivity|].
  constructor; [|exact I2]. repeat split; auto; lia.
Qed.

Lemma last_digit (ds : str) (x : char) :
  ds <> [] -> forallb is_ascii_digit ds = true ->
  exists ds' l, ds = ds' ++ [l] /\ is_ascii_digit l = true.
Proof.
  intros Hne Hd. destruct (exists_last Hne) as (ds' & l & ->).
  exists ds', l. split; [reflexivity|].
  rewrite forallb_app in Hd. apply andb_prop in Hd; destruct Hd as [_ H].
  cbn in H. rewrite andb_true_r in H. exact H.
Qed.

(** X7.  A minus sign, a dot and digits, with no digit before the dot, are
    decoded as the float they spell. *)
Theorem fraction_without_integer_accepted (fp : str) :
  Grammar.digits fp = true ->
  decode (MINUS :: DOT :: fp) =
  Return (Float (nearest_double true (decimal fp) (- Z.of_nat (length fp)))).
Proof.
  intros Hf. destruct (digits_digits fp Hf) as [Hne Hd].
  destruct (digits_token fp Hd) as [Ht HF].
  set (t := MINUS :: DOT :: fp).
  destruct (number_token_text t MINUS (DOT :: fp)) as (i & D & El & Ai & Hs);
    try reflexivity.
  { unfold t. cbn [forallb]. rewrite Ht. reflexivity. }
  apply (decode_return t _ i Hs); [|exact Ai]. rewrite D.
  unfold _parse_number. rewrite El.
  destruct (last_digit fp 0 Hne Hd) as (fp' & l & Efp & Hl).
  assert (Ei : Py.index t (-1) = Some l).
  { unfold t. rewrite Efp.
    change (MINUS :: DOT :: fp' ++ [l]) with ((MINUS :: DOT :: fp') ++ [l]).
    apply index_last. }
  rewrite Ei. destruct (digit_token_char l Hl) as [_ Hld].
  apply Z.eqb_neq in Hld; rewrite Hld.
  unfold t at 1. rewrite begins_with_zero_cons. cbn [Z.eqb].
  unfold t at 1. cbn [existsb Z.eqb Pos.eqb orb].
  assert (Ef : Py.float t =
               Some (nearest_double true (decimal fp)
                                    (- Z.of_nat (length fp)))).
  { unfold Py.float, t.
    rewrite to_ascii_id.
    2:{ repeat constructor; try lia.
        eapply Forall_impl; [|exact HF]. intros a Ha; apply Ha. }
    rewrite strip_id.
    2:{ repeat constructor.
        eapply Forall_impl; [|exact HF]. intros a Ha; apply Ha. }
    rewrite drop_underscores_id; [|lia|].
    2:{ repeat constructor; try discriminate.
        eapply Forall_impl; [|exact HF]. intros a Ha; apply Ha. }
    unfold Py.strtod. cbn [Py.sign Z.eqb Pos.eqb Py.span_digits
                           is_ascii_digit Z.leb Z.compare Pos.compare
                           Pos.compare_cont andb].
    rewrite span_digits_all by exact Hd. cbn [app].
    destruct fp as [|x xs]; [congruence|]. cbn [Py.exponent].
    reflexivity. }
  rewrite Ef. reflexivity.
Qed.

Lemma fraction_without_integer_accepted_witness :
  decode (txt "-.5") = Return (Float (nearest_double true 5 (-1))).
Proof. apply (fraction_without_integer_accepted (txt "5")). reflexivity. Defined.







(** ** Strings that fail *)

Section StringPrefix.

Variable content : str.

(** The loop reads a well-formed beginning of a string body and goes on
    behind it with the characters read so far. *)
Lemma string_loop_prefix (body s : str) :
  Grammar.chars false body s ->
  forall fuel acc idx r,
    At content idx (body ++ r) ->
    (length body < fuel)%nat ->
    exists fuel' idx',
      (0 < fuel')%nat /\
      (let (char, i) := _next content idx in
       string_loop content fuel acc char i) =
      (let (char, i) := _next content idx' in
       string_loop content fuel' (acc ++ s) char i) /\
      At content idx' r.
Proof.
  induction 1 as [ | c body s Hc1 Hc2 Hc3 _ IH | e x body s He _ IH
                 | h1 h2 h3 h4 v body s Hh _ _ IH
                 | h1 h2 h3 h4 hi l1 l2 l3 l4 lo body s Hp ];
    intros fuel acc idx r A0 Hf; try discriminate.
  - exists fuel, idx. rewrite app_nil_r.
    split; [cbn [length] in Hf; lia|]. split; [reflexivity|exact A0].
  - destruct fuel as [|fuel]; [simpl in Hf; lia|].
    cbn [app] in A0; rewrite (next_cons _ _ _ _ A0).
    pose proof (At_step _ _ _ _ A0) as A1.
    destruct (IH fuel (acc ++ [c]) (idx + 1) r A1) as (f' & idx' & F & E & A');
      [simpl in Hf; lia|].
    exists f', idx'; split; [exact F|]. split; [|exact A'].
    cbn [string_loop]. unfold Py.ord. zbool.
    rewrite <- app_assoc in E. exact E.
  - destruct fuel as [|fuel]; [simpl in Hf; lia|].
    cbn [app] in A0; rewrite (next_cons _ _ _ _ A0).
    pose proof (At_step _ _ _ _ A0) as A1.
    destruct (escape_lookup _ _ He) as [Hne Hl].
    pose proof (At_step _ _ _ _ A1) as A2.
    destruct (IH fuel (acc ++ [x]) (idx + 1 + 1) r A2)
      as (f' & idx' & F & E & A'); [simpl in Hf; lia|].
    exists f', idx'; split; [exact F|]. split; [|exact A'].
    cbn [string_loop]. unfold Py.ord. zbool.
    rewrite (next_cons _ _ _ _ A1). zbool. rewrite Hl.
    rewrite <- app_assoc in E. exact E.
  - destruct fuel as [|fuel]; [simpl in Hf; lia|].
    cbn [app] in A0; rewrite (next_cons _ _ _ _ A0).
    pose proof (At_step _ _ _ _ A0) as A1.
    pose proof (At_step _ _ _ _ A1) as A2.
    destruct (hex_loop_spec _ _ _ _ _ _ _ _ Hh A2) as [Hl A6].
    destruct (int16_hex4 _ _ _ _ _ Hh) as (Hi & Hc & _).
    destruct (IH fuel (acc ++ [v]) (idx + 1 + 1 + 4) r A6)
      as (f' & idx' & F & E & A'); [simpl in Hf; lia|].
    exists f', idx'; split; [exact F|]. split; [|exact A'].
    cbn [string_loop]. unfold Py.ord. zbool.
    rewrite (next_cons _ _ _ _ A1). zbool.
    rewrite Hl, Hi, Hc.
    rewrite <- app_assoc in E. exact E.
Qed.

(** [_parse_string] behind a well-formed beginning of a body. *)
Lemma parse_string_prefix (body s r : str) (fuel : nat) (idx : Z) :
  Grammar.chars false body s ->
  At content idx (DQUOTE :: body ++ r) ->
  (length body < fuel)%nat ->
  exists fuel' idx',
    (0 < fuel')%nat /\
    _parse_string content fuel idx =
    (let (char, i) := _next content idx' in
     string_loop content fuel' s char i) /\
    At content idx' r.
Proof.
  intros Hc A0 Hf. unfold _parse_string.
  rewrite (next_cons _ _ _ _ A0).
  apply (string_loop_prefix body s Hc fuel [] (idx + 1) r); auto.
  eapply At_step; eauto.
Qed.

End StringPrefix.

(** A text that opens a string and fails in it: the failure of the loop
    behind the well-formed beginning is the failure of [decode]. *)
Lemma decode_string_raise (body s r : str) (e : exn) :
  Grammar.chars false body s ->
  (forall fuel acc idx, At (DQUOTE :: body ++ r) idx r ->
     (let (char, i) := _next (DQUOTE :: body ++ r) idx in
      string_loop (DQUOTE :: body ++ r) (S fuel) acc char i) = Raise e) ->
  decode (DQUOTE :: body ++ r) = Raise e.
Proof.
  intros Hc H. set (content := DQUOTE :: body ++ r).
  apply decode_raise; [reflexivity|].
  change (3 + 3 * length content)%nat with (S (2 + 3 * length content)).
  rewrite (parse_one_dispatch content _ _ _ _ (At_init content)).
  cbn [Z.eqb Pos.eqb].
  destruct (parse_string_prefix content body s r (2 + 3 * length content) (-1)
              Hc (At_init content)) as (f' & idx' & F & E & A').
  { unfold content. cbn [length]. rewrite length_app. lia. }
  rewrite E. destruct f' as [|f']; [lia|].
  pose proof (H f' s idx' A') as E2. fold content in E2.
  rewrite E2. reflexivity.
Qed.

(** X9.  A text that opens a string and ends before the closing quote
    fails as an unterminated string. *)
Theorem unclosed_string_is_unterminated (body s : str) :
  Grammar.chars false body s ->
  decode (DQUOTE :: body) = Raise (JSONDecodeError Unterminated_string).
Proof.
  intros Hc. rewrite <- (app_nil_r body).
  apply (decode_string_raise body s [] _ Hc).
  intros fuel acc idx A. rewrite (next_nil _ _ A). reflexivity.
Qed.

Lemma unclosed_string_is_unterminated_witness :
  decode (txt "'ab\n") = Raise (JSONDecodeError Unterminated_string).
Proof.
  apply (unclosed_string_is_unterminated (txt "ab\n") [97; 98; 10]).
  apply Grammar.chars_raw; [lia | discriminate | discriminate |].
  apply Grammar.chars_raw; [lia | discriminate | discriminate |].
  apply (Grammar.chars_escape false 110 10); [reflexivity|].
  apply Grammar.chars_nil.
Defined.

(** X10.  A character below U+0020 in a string, written as it is, makes the
    text fail, whatever follows it. *)
Theorem control_character_is_refused (body s : str) (c : char) (r : str) :
  Grammar.chars false body s -> c < 32 ->
  decode (DQUOTE :: body ++ c :: r) =
  Raise (JSONDecodeError Unescaped_control).
Proof.
  intros Hc Hlt.
  apply (decode_string_raise body s (c :: r) _ Hc).
  intros fuel acc idx A. rewrite (next_cons _ _ _ _ A).
  cbn [string_loop]. unfold Py.ord. zbool. reflexivity.
Qed.

Lemma control_character_is_refused_witness :
  decode (DQUOTE :: txt "a" ++ LF :: txt "b'") =
  Raise (JSONDecodeError Unescaped_control).
Proof.
  apply (control_character_is_refused (txt "a") (txt "a") LF (txt "b'")).
  - cbv. apply Grammar.chars_raw; [lia | discriminate | discriminate |].
    apply Grammar.chars_nil.
  - reflexivity.
Defined.

(** X11.  A backslash before a character that is neither u nor a key of
    [_ESCAPE_CHARACTERS] makes the text fail as an invalid escape. *)
Theorem unknown_escape_is_refused (body s : str) (e : char) (r : str) :
  Grammar.chars false body s ->
  e <> 117 -> lookup e _ESCAPE_CHARACTERS = None ->
  decode (DQUOTE :: body ++ BACKSLASH :: e :: r) =
  Raise (JSONDecodeError Invalid_escape).
Proof.
  intros Hc He Hl.
  apply (decode_string_raise body s (BACKSLASH :: e :: r) _ Hc).
  intros fuel acc idx A. rewrite (next_cons _ _ _ _ A).
  pose proof (At_step _ _ _ _ A) as A1.
  cbn [string_loop]. unfold Py.ord. cbn [Z.ltb Z.eqb Z.compare Pos.compare Pos.compare_cont Pos.eqb].
  rewrite (next_cons _ _ _ _ A1). zbool. rewrite Hl. reflexivity.
Qed.

Lemma unknown_escape_is_refused_witness :
  decode (DQUOTE :: [] ++ BACKSLASH :: 97 :: txt "'") =
  Raise (JSONDecodeError Invalid_escape).
Proof.
  apply (unknown_escape_is_refused [] [] 97 (txt "'"));
    [apply Grammar.chars_nil | lia | reflexivity].
Defined.

(** X12.  A backslash as the last character of the text, in a string, makes
    the text fail for the missing escape. *)
Theorem backslash_at_end_is_refused (body s : str) :
  Grammar.chars false body s ->
  decode (DQUOTE :: body ++ [BACKSLASH]) =
  Raise (JSONDecodeError Backslash_at_end).
Proof.
  intros Hc.
  apply (decode_string_raise body s [BACKSLASH] _ Hc).
  intros fuel acc idx A. rewrite (next_cons _ _ _ _ A).
  pose proof (At_step _ _ _ _ A) as A1.
  cbn [string_loop]. unfold Py.ord. cbn [Z.ltb Z.eqb Z.compare Pos.compare Pos.compare_cont Pos.eqb].
  rewrite (next_nil _ _ A1). reflexivity.
Qed.

Lemma backslash_at_end_is_refused_witness :
  decode (DQUOTE :: txt "a" ++ [BACKSLASH]) =
  Raise (JSONDecodeError Backslash_at_end).
Proof.
  apply (backslash_at_end_is_refused (txt "a") (txt "a")).
  cbv. apply Grammar.chars_raw; [lia | discriminate | discriminate |].
  apply Grammar.chars_nil.
Defined.

(** X13.  A [\u] followed by fewer than four characters that are digits or
    letters a to f, and then by another character or the end of the text,
    makes the text fail as an invalid [\u] escape. *)
Theorem short_u_escape_is_refused (body s pre r : str) :
  Grammar.chars false body s ->
  (length pre < 4)%nat ->
  forallb (fun c => Py.isdigit c || Py.lower_in_abcdef c) pre = true ->
  match r with
  | c :: _ => Py.isdigit c || Py.lower_in_abcdef c = false
  | [] => True
  end ->
  decode (DQUOTE :: body ++ BACKSLASH :: 117 :: pre ++ r) =
  Raise (JSONDecodeError Invalid_u_escape).
Proof.
  intros Hc Hl Hp Hr.
  apply (decode_string_raise body s (BACKSLASH :: 117 :: pre ++ r) _ Hc).
  intros fuel acc idx A. rewrite (next_cons _ _ _ _ A).
  pose proof (At_step _ _ _ _ A) as A1.
  pose proof (At_step _ _ _ _ A1) as A2.
  cbn [string_loop]. unfold Py.ord. cbn [Z.ltb Z.eqb Z.compare Pos.compare Pos.compare_cont Pos.eqb].
  rewrite (next_cons _ _ _ _ A1). cbn [Z.eqb Pos.eqb].
  rewrite (hex_loop_refuses _ 4 [] pre _ r A2 Hl Hp Hr). reflexivity.
Qed.

Lemma short_u_escape_is_refused_witness :
  decode (DQUOTE :: [] ++ BACKSLASH :: 117 :: txt "12a" ++ txt "'") =
  Raise (JSONDecodeError Invalid_u_escape).
Proof.
  apply (short_u_escape_is_refused [] [] (txt "12a") (txt "'"));
    [apply Grammar.chars_nil | cbn; lia | reflexivity | reflexivity].
Defined.

(** ** The exceptions that leave the decoder *)

Section Exceptions.

Variable content : str.

(** What an exception of a run on [content] has to be: no [IndexError],
    and a [ValueError] only where the text holds a digit of another
    script. *)
Local Abbreviation expected e :=
  (e <> IndexError /\
   (e = ValueError ->
    exists c, In c content /\ Py.isdigit c = true /\
              is_ascii_digit c = false)).

Lemma peek_In idx c : _peek content idx = Some c -> In c content.
Proof.
  unfold _peek. destruct (idx + 1 <? n content); [|discriminate].
  apply nth_error_In.
Qed.

Lemma skip_whitespace_never_raises fuel : forall idx e,
  _skip_whitespace content fuel idx <> Raise e.
Proof.
  induction fuel as [|fuel IH]; intros idx e; [discriminate|].
  cbn [_skip_whitespace].
  destruct (_peek content idx) as [c|]; [|discriminate].
  match goal with |- context [if ?b then _ else _] => destruct b end;
    [apply IH|discriminate].
Qed.

(** The four characters behind [\u] are characters of the text that passed
    the test of the loop. *)
Lemma hex_loop_reads k : forall h idx hs idx',
  hex_loop content k h idx = Return (hs, idx') ->
  exists t, hs = h ++ t /\ length t = k /\
            Forall (fun c => In c content /\
                             Py.isdigit c || Py.lower_in_abcdef c = true) t.
Proof.
  induction k as [|k IH]; intros h idx hs idx' H; cbn [hex_loop] in H.
  - inversion H; subst. exists []. rewrite app_nil_r. auto.
  - unfold _next in H. destruct (_peek content idx) as [c|] eqn:P;
      [|discriminate].
    destruct (Py.isdigit c || Py.lower_in_abcdef c) eqn:T; [|discriminate].
    apply IH in H. destruct H as (t & -> & Hl & Ht).
    exists (c :: t). rewrite <- app_assoc. split; [reflexivity|].
    split; [cbn [length]; lia|].
    constructor; [|exact Ht]. split; [eapply peek_In; eauto|exact T].
Qed.

Lemma hex_loop_raises k : forall h idx e,
  hex_loop content k h idx = Raise e -> e = JSONDecodeError Invalid_u_escape.
Proof.
  induction k as [|k IH]; intros h idx e H; cbn [hex_loop] in H;
    [discriminate|].
  destruct (_next content idx) as [[c|] j]; [|congruence].
  destruct (Py.isdigit c || Py.lower_in_abcdef c); [eauto|congruence].
Qed.

(** A character that passed the test and is no digit of another script is
    a hexadecimal digit. *)
Lemma hex_test_value (c : char) :
  Py.isdigit c || Py.lower_in_abcdef c = true ->
  (Py.isdigit c = true -> is_ascii_digit c = true) ->
  exists v, Grammar.hex_value c = Some v.
Proof.
  intros T A. unfold Grammar.hex_value.
  destruct (Py.isdigit c) eqn:D.
  - specialize (A eq_refl). unfold is_ascii_digit in A. rewrite A. eauto.
  - cbn [orb] in T. unfold Py.lower_in_abcdef in T.
    destruct ((48 <=? c) && (c <=? 57)); [eauto|].
    destruct ((97 <=? c) && (c <=? 102)); [eauto|].
    cbn [orb] in T. rewrite T. eauto.
Qed.

Lemma foreign_digit_dec (c : char) :
  (Py.isdigit c = true /\ is_ascii_digit c = false) \/
  (Py.isdigit c = true -> is_ascii_digit c = true).
Proof.
  destruct (Py.isdigit c); [|right; discriminate].
  destruct (is_ascii_digit c); [right|left]; auto.
Qed.

(** The number behind [\u] is no number, or no code point, only where one
    of the four characters is a digit of another script. *)
Lemma u_escape_value (hs : str) (idx idx' : Z) :
  hex_loop content 4 [] idx = Return (hs, idx') ->
  (exists v, Py.int 16 hs = Some v /\ Py.chr v = Some v) \/
  (exists c, In c content /\ Py.isdigit c = true /\ is_ascii_digit c = false).
Proof.
  intros H. apply hex_loop_reads in H. destruct H as (t & -> & Hl & Ht).
  cbn [app].
  destruct t as [|h1 [|h2 [|h3 [|h4 [|x t]]]]]; try discriminate.
  inversion Ht as [|? ? [I1 T1] Ht1]; subst.
  inversion Ht1 as [|? ? [I2 T2] Ht2]; subst.
  inversion Ht2 as [|? ? [I3 T3] Ht3]; subst.
  inversion Ht3 as [|? ? [I4 T4] _]; subst.
  destruct (foreign_digit_dec h1) as [[? ?]|A1]; [right; eauto|].
  destruct (foreign_digit_dec h2) as [[? ?]|A2]; [right; eauto|].
  destruct (foreign_digit_dec h3) as [[? ?]|A3]; [right; eauto|].
  destruct (foreign_digit_dec h4) as [[? ?]|A4]; [right; eauto|].
  left.
  destruct (hex_test_value h1 T1 A1) as [v1 V1].
  destruct (hex_test_value h2 T2 A2) as [v2 V2].
  destruct (hex_test_value h3 T3 A3) as [v3 V3].
  destruct (hex_test_value h4 T4 A4) as [v4 V4].
  assert (Hh : Grammar.hex4 h1 h2 h3 h4 =
               Some (((v1 * 16 + v2) * 16 + v3) * 16 + v4))
    by (unfold Grammar.hex4; rewrite V1, V2, V3, V4; reflexivity).
  destruct (int16_hex4 _ _ _ _ _ Hh) as (Hi & Hc & _). eauto.
Qed.

Lemma string_loop_raises fuel : forall s char idx e,
  string_loop content fuel s char idx = Raise e -> expected e.
Proof.
  induction fuel as [|fuel IH]; intros s char idx e H; [discriminate|].
  cbn [string_loop] in H.
  destruct char as [c|]; [|inversion H; split; discriminate].
  destruct (Py.ord c <? 32); [inversion H; split; discriminate|].
  destruct (c =? DQUOTE); [discriminate|].
  destruct (c =? BACKSLASH).
  - destruct (_next content idx) as [[x|] j];
      [|inversion H; split; discriminate].
    destruct (x =? 117).
    + destruct (hex_loop content 4 [] j) as [[hs j']|e'|] eqn:E;
        [| |discriminate].
      * destruct (u_escape_value hs j j' E) as [(v & Hi & Hc)|Hbad].
        -- rewrite Hi, Hc in H.
           destruct (_next content j') as [o j'']. eapply IH; eauto.
        -- destruct (Py.int 16 hs) as [v|];
             [destruct (Py.chr v)|];
             [destruct (_next content j') as [o j'']; eapply IH; eauto | |];
             inversion H; split; auto; discriminate.
      * apply hex_loop_raises in E. subst e'.
        inversion H; split; discriminate.
    + destruct (lookup x _ESCAPE_CHARACTERS);
        [|inversion H; split; discriminate].
      destruct (_next content j) as [o j']. eapply IH; eauto.
  - destruct (_next content idx) as [o j]. eapply IH; eauto.
Qed.

Lemma parse_string_raises fuel idx e :
  _parse_string content fuel idx = Raise e -> expected e.
Proof.
  unfold _parse_string.
  destruct (_next content idx) as [o j].
  destruct (_next content j) as [o' j']. apply string_loop_raises.
Qed.

Lemma number_loop_extends fuel : forall s fl idx s' fl' idx',
  number_loop content fuel s fl idx = Return (s', fl', idx') ->
  exists t, s' = s ++ t.
Proof.
  induction fuel as [|fuel IH]; intros s fl idx s' fl' idx' H; [discriminate|].
  cbn [number_loop] in H.
  destruct (_peek content idx) as [c|];
    [|inversion H; subst; exists []; rewrite app_nil_r; reflexivity].
  destruct (negb (Py.isspace c) && negb (closes c));
    [|inversion H; subst; exists []; rewrite app_nil_r; reflexivity].
  apply IH in H. destruct H as (t & ->).
  exists (c :: t). rewrite <- app_assoc. reflexivity.
Qed.

Lemma number_loop_never_raises fuel : forall s fl idx e,
  number_loop content fuel s fl idx <> Raise e.
Proof.
  induction fuel as [|fuel IH]; intros s fl idx e; [discriminate|].
  cbn [number_loop].
  destruct (_peek content idx) as [c|]; [|discriminate].
  destruct (negb (Py.isspace c) && negb (closes c)); [apply IH|discriminate].
Qed.

(** Behind a minus sign or a digit, the number is not empty, so no index is
    out of range. *)
Lemma parse_number_raises fuel idx c e :
  _peek content idx = Some c -> (c =? MINUS) || Py.isdigit c = true ->
  _parse_number content fuel idx = Raise e -> exists m, e = JSONDecodeError m.
Proof.
  intros P Hc H. unfold _parse_number in H.
  destruct (number_loop content fuel [] false idx) as [[[s fl] j]|e'|] eqn:E;
    [|exfalso; eapply number_loop_never_raises; eauto|discriminate].
  destruct fuel as [|fuel]; [discriminate|].
  cbn [number_loop] in E. rewrite P in E.
  pose proof (number_start_token_char c Hc) as T. unfold token_char in T.
  rewrite T in E. apply number_loop_extends in E. destruct E as (t & ->).
  cbn [app] in H.
  destruct (index_last_nonempty (c :: t)) as (x & Hx & _); [discriminate|].
  rewrite Hx in H.
  destruct (x =? DOT); [inversion H; eauto|].
  destruct (begins_with_zero (c :: t)) as [b|] eqn:Eb;
    [|exfalso; revert Eb; apply begins_with_zero_total].
  destruct b; [inversion H; eauto|].
  destruct fl.
  - destruct (Py.float (c :: t)); [discriminate|inversion H; eauto].
  - destruct (Py.int 10 (c :: t)); [discriminate|inversion H; eauto].
Qed.

Lemma literal_loop_never_raises fuel : forall s idx e,
  literal_loop content fuel s idx <> Raise e.
Proof.
  induction fuel as [|fuel IH]; intros s idx e; [discriminate|].
  cbn [literal_loop].
  destruct (_peek content idx) as [c|]; [|discriminate].
  destruct (negb (Py.isspace c) && negb (closes c)); [apply IH|discriminate].
Qed.

Lemma parse_literal_raises fuel idx e :
  _parse_literal content fuel idx = Raise e ->
  e = JSONDecodeError Invalid_literal.
Proof.
  unfold _parse_literal.
  destruct (literal_loop content fuel [] idx) as [[s j]|e'|] eqn:E;
    [|intros _; exfalso; eapply literal_loop_never_raises; eauto|discriminate].
  destruct (str_eqb s (txt "true")); [discriminate|].
  destruct (str_eqb s (txt "false")); [discriminate|].
  destruct (str_eqb s (txt "null")); [discriminate|].
  congruence.
Qed.

(** Take the next step of a run that is known to raise. *)
Ltac raise_step H IH :=
  match type of H with
  | match ?m with Return _ => _ | Raise _ => _ | OutOfFuel => _ end
    = Raise _ =>
      let E := fresh "E" in
      destruct m as [[? ?]|?|] eqn:E;
      [ clear E
      | first [ exfalso; eapply skip_whitespace_never_raises; exact E
              | apply parse_string_raises in E; inversion H; subst; exact E
              | apply IH in E; inversion H; subst; exact E ]
      | discriminate ]
  | (if ?b then _ else _) = Raise _ => destruct b
  | match ?o with Some _ => _ | None => _ end = Raise _ => destruct o
  | (let (_, _) := _next content ?i in _) = Raise _ =>
      destruct (_next content i) as [? ?]
  | Raise (JSONDecodeError _) = Raise _ =>
      inversion H; split; discriminate
  end.

Lemma parsers_raise (fuel : nat) :
  (forall idx e, _parse_one content fuel idx = Raise e -> expected e) /\
  (forall idx e, _parse_object content fuel idx = Raise e -> expected e) /\
  (forall obj idx e, object_loop content fuel obj idx = Raise e ->
                     expected e) /\
  (forall idx e, _parse_array content fuel idx = Raise e -> expected e) /\
  (forall arr idx e, array_loop content fuel arr idx = Raise e ->
                     expected e).
Proof.
  induction fuel as [|fuel (IH1 & IH2 & IH3 & IH4 & IH5)];
    [repeat split; intros; discriminate|].
  split; [|split; [|split; [|split]]].
  - intros idx e H. cbn [_parse_one] in H.
    destruct (_peek content idx) as [c|] eqn:P;
      [|inversion H; split; discriminate].
    destruct (c =? 123).
    { destruct (_parse_object content fuel idx) as [[d j]|e'|] eqn:E;
        try discriminate.
      inversion H; subst. eapply IH2; eauto. }
    destruct (c =? 91).
    { destruct (_parse_array content fuel idx) as [[d j]|e'|] eqn:E;
        try discriminate.
      inversion H; subst. eapply IH4; eauto. }
    destruct (c =? 34).
    { destruct (_parse_string content fuel idx) as [[d j]|e'|] eqn:E;
        try discriminate.
      inversion H; subst. eapply parse_string_raises; eauto. }
    destruct ((c =? 116) || (c =? 102) || (c =? 110)).
    { apply parse_literal_raises in H. subst e. split; discriminate. }
    destruct ((c =? 45) || Py.isdigit c) eqn:Hc;
      [|inversion H; split; discriminate].
    destruct (parse_number_raises fuel idx c e P Hc H) as [m ->].
    split; discriminate.
  - intros idx e H. cbn [_parse_object] in H. eapply IH3; eauto.
  - intros obj idx e H. cbn [object_loop] in H.
    repeat raise_step H IH1; try discriminate; eapply IH3; eauto.
  - intros idx e H. cbn [_parse_array] in H. eapply IH5; eauto.
  - intros arr idx e H. cbn [array_loop] in H.
    repeat raise_step H IH1; try discriminate; eapply IH5; eauto.
Qed.

End Exceptions.

Lemma decode_raises (text : str) (e : exn) :
  decode text = Raise e ->
  e <> IndexError /\
  (e = ValueError ->
   exists c, In c text /\ Py.isdigit c = true /\ is_ascii_digit c = false).
Proof.
  unfold decode, JSONDecoder.decode. intros H.
  destruct (_skip_whitespace text (3 + 3 * length text) (-1))
    as [[u i]|e'|] eqn:E1;
    [|exfalso; eapply skip_whitespace_never_raises; eauto|discriminate].
  destruct (_parse_one text (3 + 3 * length text) i) as [[v j]|e'|] eqn:E2;
    [| |discriminate].
  - destruct (_skip_whitespace text (3 + 3 * length text) j)
      as [[u' k]|e'|] eqn:E3;
      [|exfalso; eapply skip_whitespace_never_raises; eauto|discriminate].
    destruct (_peek text k); [|discriminate].
    inversion H; split; discriminate.
  - inversion H; subst e'.
    exact (proj1 (parsers_raise text _) i e E2).
Qed.

(** X14.  No text makes [decode] raise an [IndexError]: the indexing of
    the number token in [_parse_number] stays within the token wherever the
    number parser is called. *)
Theorem decode_never_raises_IndexError (text : str) :
  decode text <> Raise IndexError.
Proof.
  intros H. apply decode_raises in H. destruct H as [H _]. congruence.
Qed.

(** X15.  For a text whose digits, in the sense of [str.isdigit], are all
    ASCII digits, [decode] raises no [ValueError]: the one place it can come
    from, the conversion of the four characters behind [\u], then gets
    hexadecimal digits only. *)
Theorem ascii_digits_raise_no_ValueError (text : str) :
  Forall (fun c => Py.isdigit c = true -> is_ascii_digit c = true) text ->
  decode text <> Raise ValueError.
Proof.
  intros Ha H. destruct (decode_raises text _ H) as [_ Hv].
  destruct (Hv eq_refl) as (c & Hin & Hd & Hn).
  rewrite Forall_forall in Ha. rewrite (Ha c Hin Hd) in Hn. discriminate.
Qed.

Lemma ascii_digits_raise_no_ValueError_witness :
  decode (txt "'\u12G4'") <> Raise ValueError.
Proof.
  apply (ascii_digits_raise_no_ValueError (txt "'\u12G4'")).
  match goal with
  | |- Forall _ ?l => let l' := eval vm_compute in l in change l with l'
  end.
  repeat (constructor;
          [intros H; first [reflexivity | vm_compute in H; discriminate]|]).
  constructor.
Defined.

(** ** Arrays that fail *)

(** A value does not end in white space. *)
Lemma value_last (t : str) (v : Value) :
  Grammar.value false t v ->
  forall b s, t = b ++ [s] -> is_ws s = false.
Proof.
  assert (L : forall (x : str) c b s, x ++ [c] = b ++ [s] -> s = c).
  { intros x c b s H. apply app_inj_tail in H. symmetry; apply H. }
  assert (D : forall pre ds b s, Grammar.digits ds = true ->
              pre ++ ds = b ++ [s] -> is_ws s = false).
  { intros pre ds b s Hd H. destruct (digits_digits ds Hd) as [Hne Hds].
    destruct (last_digit ds 0 Hne Hds) as (ds' & l & -> & Hl).
    rewrite app_assoc in H. apply L in H. subst s.
    apply token_not_ws. apply (digit_token_char l Hl). }
  assert (I : forall pre ip b s, Grammar.int_part ip = true ->
              pre ++ ip = b ++ [s] -> is_ws s = false).
  { intros pre ip b s Hi H. destruct (int_part_digits ip Hi) as [Hne Hds].
    destruct (last_digit ip 0 Hne Hds) as (ds' & l & -> & Hl).
    rewrite app_assoc in H. apply L in H. subst s.
    apply token_not_ws. apply (digit_token_char l Hl). }
  destruct 1 as [ | | | neg ip Hi | neg ip fp Hi Hd | body s0 Hc | w Hw
                | w body vs Hw He | w Hw | w body ps Hw Hm ]; intros b s E.
  - change (txt "null") with (txt "nul" ++ [108]) in E.
    apply L in E; subst; reflexivity.
  - change (txt "true") with (txt "tru" ++ [101]) in E.
    apply L in E; subst; reflexivity.
  - change (txt "false") with (txt "fals" ++ [101]) in E.
    apply L in E; subst; reflexivity.
  - eapply I; eauto.
  - change (DOT :: fp) with ([DOT] ++ fp) in E. rewrite !app_assoc in E.
    eapply D; eauto.
  - rewrite app_comm_cons in E. apply L in E; subst; reflexivity.
  - rewrite app_comm_cons in E. apply L in E; subst; reflexivity.
  - rewrite app_comm_cons, !app_assoc in E. apply L in E; subst; reflexivity.
  - rewrite app_comm_cons in E. apply L in E; subst; reflexivity.
  - rewrite app_comm_cons, !app_assoc in E. apply L in E; subst; reflexivity.
Qed.

(** The end of a text that ends in [s] is the end of its last part. *)
Lemma app_last_part (x y b : str) (s : char) :
  y <> [] -> x ++ y = b ++ [s] -> exists b', y = b' ++ [s].
Proof.
  intros Hne H. destruct (exists_last Hne) as (y' & l & ->).
  rewrite app_assoc in H. apply app_inj_tail in H. destruct H as [_ ->].
  eauto.
Qed.

(** A string, an array or an object ends with its closing character: it
    is read whatever follows.  A number or a literal is read where it is
    delimited. *)
Lemma parse_one_value (t : str) (v : Value) :
  Grammar.value false t v ->
  forall content fuel idx r,
    At content idx (t ++ r) ->
    delimited r = true \/ (exists b s, t = b ++ [s] /\ closing s = true) ->
    (3 * length (t ++ r) + 2 <= fuel)%nat ->
    exists idx',
      _parse_one content fuel idx = Return (v, idx') /\ At content idx' r.
Proof.
  intros Hv content fuel idx r A0 [Hd|(b & s & E & Hs)] Hf;
    [apply (proj1 decoder_reads_grammar t v Hv content fuel idx r A0 Hd Hf)|].
  assert (L : forall (x : str) c, x ++ [c] = b ++ [s] -> s = c).
  { intros x c H. apply app_inj_tail in H. symmetry; apply H. }
  assert (D : forall pre ds, forallb is_ascii_digit ds = true -> ds <> [] ->
              pre ++ ds = b ++ [s] -> False).
  { intros pre ds Hds Hne H.
    destruct (last_digit ds 0 Hne Hds) as (ds' & l & -> & Hl).
    rewrite app_assoc in H. apply L in H. subst s.
    destruct (ascii_digit_facts l Hl) as (_ & _ & _ & _ & _ & Hr).
    unfold closing in Hs.
    replace (l =? DQUOTE) with false in Hs
      by (symmetry; apply Z.eqb_neq; lia).
    replace (l =? RBRACKET) with false in Hs
      by (symmetry; apply Z.eqb_neq; lia).
    replace (l =? RBRACE) with false in Hs
      by (symmetry; apply Z.eqb_neq; lia).
    discriminate. }
  destruct Hv as [ | | | neg ip Hi Hlen | neg ip fp Hi Hfp | body s0 Hc | w Hw
                 | w body vs Hw He | w Hw | w body ps Hw Hm ].
  - change (txt "null") with (txt "nul" ++ [108]) in E.
    apply L in E; subst; discriminate.
  - change (txt "true") with (txt "tru" ++ [101]) in E.
    apply L in E; subst; discriminate.
  - change (txt "false") with (txt "fals" ++ [101]) in E.
    apply L in E; subst; discriminate.
  - exfalso. destruct (int_part_digits ip Hi) as [Hne Hds].
    apply (D (Grammar.minus neg) ip Hds Hne E).
  - exfalso. destruct (digits_digits fp Hfp) as [Hne Hds].
    change (DOT :: fp) with ([DOT] ++ fp) in E. rewrite !app_assoc in E.
    apply (D _ fp Hds Hne E).
  - norm A0. norm_len Hf. fuelS fuel Hf.
    rewrite (parse_one_dispatch _ _ _ _ _ A0). cbn [Z.eqb Pos.eqb].
    destruct (parse_string_chars content body s0 r fuel idx Hc A0)
      as (idx' & E' & A'); [lia|].
    exists idx'; split; [|exact A']. rewrite E'. reflexivity.
  - norm A0. norm_len Hf. fuelS fuel Hf.
    rewrite (parse_one_dispatch _ _ _ _ _ A0). cbn [Z.eqb Pos.eqb].
    fuelS fuel Hf. cbn [_parse_array].
    rewrite (next_cons _ _ _ _ A0). cbn [snd].
    apply At_step in A0.
    fuelS fuel Hf. cbn [array_loop].
    destruct (skip_whitespace_spec content w (RBRACKET :: r) fuel (idx + 1))
      as (i1 & E1 & A1); auto; [lia|].
    rewrite E1, (peek_cons _ _ _ _ A1). cbn [Z.eqb Pos.eqb].
    rewrite (next_cons _ _ _ _ A1). cbn [snd].
    exists (i1 + 1); split; [reflexivity|]. eapply At_step; eauto.
  - norm A0. norm_len Hf. fuelS fuel Hf.
    rewrite (parse_one_dispatch _ _ _ _ _ A0). cbn [Z.eqb Pos.eqb].
    fuelS fuel Hf. cbn [_parse_array].
    rewrite (next_cons _ _ _ _ A0). cbn [snd].
    apply At_step in A0.
    destruct (proj1 (proj2 decoder_reads_grammar) body vs He content fuel []
                (idx + 1) w r Hw A0) as (idx' & E' & A'); [len|].
    exists idx'; split; [|exact A']. rewrite E'. reflexivity.
  - norm A0. norm_len Hf. fuelS fuel Hf.
    rewrite (parse_one_dispatch _ _ _ _ _ A0). cbn [Z.eqb Pos.eqb].
    fuelS fuel Hf. cbn [_parse_object].
    rewrite (next_cons _ _ _ _ A0). cbn [snd].
    apply At_step in A0.
    fuelS fuel Hf. cbn [object_loop].
    destruct (skip_whitespace_spec content w (RBRACE :: r) fuel (idx + 1))
      as (i1 & E1 & A1); auto; [lia|].
    rewrite E1, (peek_cons _ _ _ _ A1). cbn [Z.eqb Pos.eqb].
    rewrite (next_cons _ _ _ _ A1). cbn [snd].
    exists (i1 + 1); split; [reflexivity|]. eapply At_step; eauto.
  - norm A0. norm_len Hf. fuelS fuel Hf.
    rewrite (parse_one_dispatch _ _ _ _ _ A0). cbn [Z.eqb Pos.eqb].
    fuelS fuel Hf. cbn [_parse_object].
    rewrite (next_cons _ _ _ _ A0). cbn [snd].
    apply At_step in A0.
    destruct (proj2 (proj2 decoder_reads_grammar) body ps Hm content fuel []
                (idx + 1) w r Hw A0) as (idx' & E' & A'); [len|].
    exists idx'; split; [|exact A']. rewrite E'. reflexivity.
Qed.

(** Where the elements or members end in white space or in a closing
    character, the last value does. *)
Lemma last_value_ends (t w1 tail b : str) (v : Value) (s : char) :
  Grammar.value false t v -> ws w1 ->
  t ++ w1 = b ++ [s] -> is_ws s || closing s = true ->
  delimited (w1 ++ tail) = true \/
  (exists b' s', t = b' ++ [s'] /\ closing s' = true).
Proof.
  intros Hv Hw1 E Hs. destruct w1 as [|c w1].
  - right. rewrite app_nil_r in E. exists b, s. split; [exact E|].
    rewrite (value_last t v Hv b s E) in Hs. exact Hs.
  - left. apply ws_cons in Hw1. destruct Hw1 as [Hc _].
    cbn [app delimited]. rewrite (is_ws_delimits c Hc). reflexivity.
Qed.

(** One turn of the loop of [_parse_array] over an element, up to the test
    of the character behind it. *)
Lemma array_loop_element (content : str) (fuel : nat) (arr : list Value)
      (idx : Z) (w t : str) (v : Value) (w1 tail : str) :
  ws w -> Grammar.value false t v -> ws w1 -> ws_ahead tail = false ->
  delimited (w1 ++ tail) = true \/
  (exists b s, t = b ++ [s] /\ closing s = true) ->
  At content idx (w ++ t ++ w1 ++ tail) ->
  (3 * length (w ++ t ++ w1 ++ tail) + 3 <= S fuel)%nat ->
  exists idx',
    At content idx' tail /\
    array_loop content (S fuel) arr idx =
    (if is_char (_peek content idx') COMMA then
       let* (_, i) := _skip_whitespace content fuel
                                       (snd (_next content idx')) in
       if is_char (_peek content i) COMMA
       then Raise (JSONDecodeError Two_commas)
       else if is_char (_peek content i) RBRACKET
       then Raise (JSONDecodeError Trailing_comma)
       else array_loop content fuel (arr ++ [v]) i
     else if negb (is_char (_peek content idx') RBRACKET)
     then Raise (JSONDecodeError Elements_not_separated)
     else array_loop content fuel (arr ++ [v]) idx').
Proof.
  intros Hw Hv Hw1 Ht Hd A0 Hf.
  destruct (value_head _ _ _ Hv) as (c & t' & Et & Hc & Hc1 & Hc2 & Hc3).
  autorewrite with len in Hf. cbn [array_loop].
  destruct (skip_whitespace_spec content w (t ++ w1 ++ tail) fuel idx)
    as (i1 & E1 & A1); auto; [subst t; exact Hc | lia |].
  rewrite E1.
  assert (P1 : _peek content i1 = Some c)
    by (subst t; exact (peek_cons _ _ _ _ A1)).
  rewrite P1. zbool.
  destruct (parse_one_value t v Hv content fuel i1 (w1 ++ tail) A1 Hd)
    as (i2 & E2 & A2); [len|].
  rewrite E2.
  destruct (skip_whitespace_spec content w1 tail fuel i2)
    as (i3 & E3 & A3); auto; [lia|].
  rewrite E3. exists i3. split; [exact A3|reflexivity].
Qed.

Section ArrayFailures.

Variable e : exn.
Variable tail : str.

(** What the loop does at the last element before [tail]. *)
Hypothesis last_fails :
  forall content fuel arr idx w t v w1,
    ws w -> Grammar.value false t v -> ws w1 ->
    delimited (w1 ++ tail) = true \/
    (exists b s, t = b ++ [s] /\ closing s = true) ->
    At content idx (w ++ t ++ w1 ++ tail) ->
    (3 * length (w ++ t ++ w1 ++ tail) + 3 <= fuel)%nat ->
    array_loop content fuel arr idx = Raise e.

(** It does the same behind any elements before it. *)
Lemma array_loop_fails (body : str) (vs : list Value) :
  Grammar.elements false body vs ->
  forall content fuel arr idx w,
    ws w ->
    delimited tail = true \/
    (exists b s, body = b ++ [s] /\ is_ws s || closing s = true) ->
    At content idx (w ++ body ++ tail) ->
    (3 * length (w ++ body ++ tail) + 3 <= fuel)%nat ->
    array_loop content fuel arr idx = Raise e.
Proof.
  induction 1 as [t v w1 Hv Hw1 | t v w1 w2 body vs Hv Hw1 Hw2 He IHe];
    intros content fuel arr idx w Hw Hsep A0 Hf.
  - rewrite <- app_assoc in A0. rewrite <- app_assoc in Hf.
    apply (last_fails content fuel arr idx w t v w1); auto.
    destruct Hsep as [Hd|(b & s & E & Hs)];
      [left; apply ws_app_delimited; auto|].
    apply (last_value_ends t w1 tail b v s); auto.
  - destruct (value_head _ _ _ Hv) as (c & t' & Et & Hc & Hc1 & Hc2 & Hc3).
    destruct (elements_head _ _ _ He) as (c' & b' & Eb & Hc' & Hc1' & Hc2' & _).
    norm A0. norm_len Hf. fuelS fuel Hf. cbn [array_loop].
    destruct (skip_whitespace_spec content w
                (t ++ w1 ++ COMMA :: w2 ++ body ++ tail) fuel idx)
      as (i1 & E1 & A1); auto; [subst t; exact Hc | lia |].
    rewrite E1.
    assert (P1 : _peek content i1 = Some c)
      by (subst t; exact (peek_cons _ _ _ _ A1)).
    rewrite P1. zbool.
    destruct (proj1 decoder_reads_grammar t v Hv content fuel i1
                (w1 ++ COMMA :: w2 ++ body ++ tail) A1)
      as (i2 & E2 & A2);
      [apply ws_app_delimited; auto | len |].
    rewrite E2.
    destruct (skip_whitespace_spec content w1
                (COMMA :: w2 ++ body ++ tail) fuel i2)
      as (i3 & E3 & A3); auto; [lia|].
    rewrite E3, (peek_cons _ _ _ _ A3). cbn [is_char Z.eqb Pos.eqb].
    rewrite (next_cons _ _ _ _ A3). cbn [snd]. apply At_step in A3.
    destruct (skip_whitespace_spec content w2 (body ++ tail)
                fuel (i3 + 1)) as (i4 & E4 & A4); auto;
      [subst body; exact Hc' | lia |].
    rewrite E4.
    assert (P4 : _peek content i4 = Some c')
      by (subst body; exact (peek_cons _ _ _ _ A4)).
    rewrite P4. cbn [is_char]. zbool.
    apply (IHe content fuel (arr ++ [v]) i4 []); auto.
    + reflexivity.
    + destruct Hsep as [Hd|(b & s & E & Hs)]; [left; exact Hd|right].
      replace (t ++ w1 ++ COMMA :: w2 ++ body)
        with ((t ++ w1 ++ COMMA :: w2) ++ body) in E
        by (repeat rewrite <- app_assoc; cbn [app]; reflexivity).
      destruct (app_last_part (t ++ w1 ++ COMMA :: w2) body b s)
        as (b2 & E2'); auto; [subst body; discriminate|].
      exists b2, s. split; auto.
    + cbn [app]. len.
Qed.

(** So does [decode], for an array that is the whole text. *)
Lemma decode_array_fails (w body : str) (vs : list Value) :
  ws w -> Grammar.elements false body vs ->
  delimited tail = true \/
  (exists b s, body = b ++ [s] /\ is_ws s || closing s = true) ->
  decode (LBRACKET :: w ++ body ++ tail) = Raise e.
Proof.
  intros Hw He Hsep. set (content := LBRACKET :: w ++ body ++ tail).
  apply decode_raise; [reflexivity|].
  change (3 + 3 * length content)%nat with (S (S (1 + 3 * length content))).
  pose proof (At_init content) as A0.
  rewrite (parse_one_dispatch content _ _ _ _ A0). cbn [Z.eqb Pos.eqb].
  cbn [_parse_array]. rewrite (next_cons _ _ _ _ A0). cbn [snd].
  apply At_step in A0.
  rewrite (array_loop_fails body vs He content _ [] (-1 + 1) w Hw Hsep A0).
  - reflexivity.
  - unfold content. cbn [length]. lia.
Qed.

End ArrayFailures.

(** X16.  An array whose text ends behind the opening bracket and white
    space fails as an array without its closing bracket. *)
Theorem open_array_is_unterminated (w : str) :
  ws w ->
  decode (LBRACKET :: w) = Raise (JSONDecodeError Array_unterminated).
Proof.
  intros Hw. set (content := LBRACKET :: w).
  apply decode_raise; [reflexivity|].
  change (3 + 3 * length content)%nat with (S (S (S (3 * length content)))).
  pose proof (At_init content) as A0.
  rewrite (parse_one_dispatch content _ _ _ _ A0). cbn [Z.eqb Pos.eqb].
  cbn [_parse_array array_loop]. rewrite (next_cons _ _ _ _ A0). cbn [snd].
  apply At_step in A0. rewrite <- (app_nil_r w) in A0.
  destruct (skip_whitespace_spec content w [] (3 * length content) (-1 + 1))
    as (i & E & A); auto; [unfold content; cbn [length]; lia|].
  rewrite E, (peek_nil _ _ A). reflexivity.
Qed.

Lemma open_array_is_unterminated_witness :
  decode (txt "[ ") = Raise (JSONDecodeError Array_unterminated).
Proof. apply (open_array_is_unterminated (txt " ")). reflexivity. Defined.



(** X18.  A comma behind the last element, with the closing bracket behind
    it, makes the text fail for the trailing comma, whatever follows. *)
Theorem array_trailing_comma_refused (w body : str) (vs : list Value)
        (w2 r : str) :
  ws w -> Grammar.elements false body vs -> ws w2 ->
  decode (LBRACKET :: w ++ body ++ COMMA :: w2 ++ RBRACKET :: r) =
  Raise (JSONDecodeError Trailing_comma).
Proof.
  intros Hw He Hw2.
  apply (decode_array_fails _ (COMMA :: w2 ++ RBRACKET :: r)) with (vs := vs);
    auto.
  intros content fuel arr idx w0 t v w1 Hw0 Hv Hw1 Hd A0 Hf.
  fuelS fuel Hf.
  destruct (array_loop_element content fuel arr idx w0 t v w1
              (COMMA :: w2 ++ RBRACKET :: r)) as (i & A & E); auto.
  rewrite E, (peek_cons _ _ _ _ A). cbn [is_char Z.eqb Pos.eqb].
  rewrite (next_cons _ _ _ _ A). cbn [snd]. apply At_step in A.
  autorewrite with len in Hf.
  destruct (skip_whitespace_spec content w2 (RBRACKET :: r) fuel (i + 1))
    as (i2 & E2 & A2); auto; [lia|].
  rewrite E2, (peek_cons _ _ _ _ A2). reflexivity.
Qed.

Lemma array_trailing_comma_refused_witness :
  decode (LBRACKET :: [] ++ txt "1" ++ COMMA :: txt " " ++ RBRACKET :: []) =
  Raise (JSONDecodeError Trailing_comma).
Proof.
  apply (array_trailing_comma_refused [] (txt "1") [Integer 1] (txt " ") []);
    try reflexivity.
  apply (Grammar.elements_last false (txt "1") (Integer 1) []);
    [|reflexivity].
  apply (Grammar.v_integer false false (txt "1"));
      [reflexivity|cbv; discriminate].
Defined.

(** X19.  Two commas behind an element, with at most white space between
    them, make the text fail for the two commas, whatever follows. *)
Theorem array_two_commas_refused (w body : str) (vs : list Value)
        (w2 r : str) :
  ws w -> Grammar.elements false body vs -> ws w2 ->
  decode (LBRACKET :: w ++ body ++ COMMA :: w2 ++ COMMA :: r) =
  Raise (JSONDecodeError Two_commas).
Proof.
  intros Hw He Hw2.
  apply (decode_array_fails _ (COMMA :: w2 ++ COMMA :: r)) with (vs := vs);
    auto.
  intros content fuel arr idx w0 t v w1 Hw0 Hv Hw1 Hd A0 Hf.
  fuelS fuel Hf.
  destruct (array_loop_element content fuel arr idx w0 t v w1
              (COMMA :: w2 ++ COMMA :: r)) as (i & A & E); auto.
  rewrite E, (peek_cons _ _ _ _ A). cbn [is_char Z.eqb Pos.eqb].
  rewrite (next_cons _ _ _ _ A). cbn [snd]. apply At_step in A.
  autorewrite with len in Hf.
  destruct (skip_whitespace_spec content w2 (COMMA :: r) fuel (i + 1))
    as (i2 & E2 & A2); auto; [lia|].
  rewrite E2, (peek_cons _ _ _ _ A2). reflexivity.
Qed.

Lemma array_two_commas_refused_witness :
  decode (LBRACKET :: [] ++ txt "1" ++ COMMA :: [] ++ COMMA :: txt "2]") =
  Raise (JSONDecodeError Two_commas).
Proof.
  apply (array_two_commas_refused [] (txt "1") [Integer 1] [] (txt "2]"));
    try reflexivity.
  apply (Grammar.elements_last false (txt "1") (Integer 1) []);
    [|reflexivity].
  apply (Grammar.v_integer false false (txt "1"));
      [reflexivity|cbv; discriminate].
Defined.

(** X20.  An array whose text ends behind a comma and white space fails as
    an array without its closing bracket. *)
Theorem array_end_behind_comma_is_unterminated (w body : str)
        (vs : list Value) (w2 : str) :
  ws w -> Grammar.elements false body vs -> ws w2 ->
  decode (LBRACKET :: w ++ body ++ COMMA :: w2) =
  Raise (JSONDecodeError Array_unterminated).
Proof.
  intros Hw He Hw2.
  apply (decode_array_fails _ (COMMA :: w2)) with (vs := vs); auto.
  intros content fuel arr idx w0 t v w1 Hw0 Hv Hw1 Hd A0 Hf.
  fuelS fuel Hf.
  destruct (array_loop_element content fuel arr idx w0 t v w1
              (COMMA :: w2)) as (i & A & E); auto.
  rewrite E, (peek_cons _ _ _ _ A). cbn [is_char Z.eqb Pos.eqb].
  rewrite (next_cons _ _ _ _ A). cbn [snd]. apply At_step in A.
  autorewrite with len in Hf. rewrite <- (app_nil_r w2) in A.
  destruct (skip_whitespace_spec content w2 [] fuel (i + 1))
    as (i2 & E2 & A2); auto; [lia|].
  rewrite E2, (peek_nil _ _ A2). cbn [is_char].
  fuelS fuel Hf. cbn [array_loop].
  destruct (skip_whitespace_none content [] fuel i2)
    as (i3 & E3 & A3); auto; [lia|].
  rewrite E3, (peek_nil _ _ A3). reflexivity.
Qed.

Lemma array_end_behind_comma_is_unterminated_witness :
  decode (LBRACKET :: [] ++ txt "1" ++ COMMA :: txt " ") =
  Raise (JSONDecodeError Array_unterminated).
Proof.
  apply (array_end_behind_comma_is_unterminated [] (txt "1") [Integer 1]
           (txt " ")); try reflexivity.
  apply (Grammar.elements_last false (txt "1") (Integer 1) []);
    [|reflexivity].
  apply (Grammar.v_integer false false (txt "1"));
      [reflexivity|cbv; discriminate].
Defined.

(** ** Objects that fail *)

(** One turn of the loop of [_parse_object] over a member, up to the test
    of the character behind it. *)
Lemma object_loop_member (content : str) (fuel : nat)
      (obj : list (str * Value)) (idx : Z) (w kb k w1 w2 t : str)
      (v : Value) (w3 tail : str) :
  ws w -> Grammar.chars false kb k -> ws w1 -> ws w2 ->
  Grammar.value false t v -> ws w3 -> ws_ahead tail = false ->
  delimited (w3 ++ tail) = true \/
  (exists b s, t = b ++ [s] /\ closing s = true) ->
  At content idx
     (w ++ DQUOTE :: kb ++ DQUOTE :: w1 ++ COLON :: w2 ++ t ++ w3 ++ tail) ->
  (3 * length (w ++ DQUOTE :: kb ++ DQUOTE :: w1 ++ COLON :: w2 ++ t ++
               w3 ++ tail) + 3 <= S fuel)%nat ->
  exists idx',
    At content idx' tail /\
    object_loop content (S fuel) obj idx =
    (if is_char (_peek content idx') COMMA then
       let* (_, i) := _skip_whitespace content fuel
                                       (snd (_next content idx')) in
       if is_char (_peek content i) COMMA
       then Raise (JSONDecodeError Two_commas)
       else if is_char (_peek content i) RBRACE
       then Raise (JSONDecodeError Trailing_comma)
       else object_loop content fuel (dict_set k v obj) i
     else if negb (is_char (_peek content idx') RBRACE)
     then Raise (JSONDecodeError Keys_not_separated)
     else object_loop content fuel (dict_set k v obj) idx').
Proof.
  intros Hw Hk Hw1 Hw2 Hv Hw3 Ht Hd A0 Hf.
  destruct (value_head _ _ _ Hv) as (c & t' & Et & Hc & Hc1 & Hc2 & Hc3).
  norm_len Hf. cbn [object_loop].
  destruct (skip_whitespace_spec content w
              (DQUOTE :: kb ++ DQUOTE :: w1 ++ COLON :: w2 ++ t ++ w3 ++ tail)
              fuel idx)
    as (i1 & E1 & A1); auto; [lia|].
  rewrite E1, (peek_cons _ _ _ _ A1). cbn [Z.eqb Pos.eqb negb].
  destruct (parse_string_chars content kb k _ fuel i1 Hk A1)
    as (i2 & E2 & A2); [lia|].
  rewrite E2.
  destruct (skip_whitespace_spec content w1
              (COLON :: w2 ++ t ++ w3 ++ tail) fuel i2)
    as (i3 & E3 & A3); auto; [lia|].
  rewrite E3, (next_cons _ _ _ _ A3). cbn [is_char Z.eqb Pos.eqb negb].
  apply At_step in A3.
  destruct (skip_whitespace_spec content w2 (t ++ w3 ++ tail) fuel (i3 + 1))
    as (i4 & E4 & A4); auto; [subst t; exact Hc | lia |].
  rewrite E4.
  destruct (parse_one_value t v Hv content fuel i4 (w3 ++ tail) A4 Hd)
    as (i5 & E5 & A5); [len|].
  rewrite E5.
  destruct (skip_whitespace_spec content w3 tail fuel i5)
    as (i6 & E6 & A6); auto; [lia|].
  rewrite E6. exists i6. split; [exact A6|reflexivity].
Qed.

Section ObjectFailures.

Variable e : exn.
Variable tail : str.

(** What the loop does at the last member before [tail]. *)
Hypothesis last_fails :
  forall content fuel obj idx w kb k w1 w2 t v w3,
    ws w -> Grammar.chars false kb k -> ws w1 -> ws w2 ->
    Grammar.value false t v -> ws w3 ->
    delimited (w3 ++ tail) = true \/
    (exists b s, t = b ++ [s] /\ closing s = true) ->
    At content idx
       (w ++ DQUOTE :: kb ++ DQUOTE :: w1 ++ COLON :: w2 ++ t ++ w3 ++ tail) ->
    (3 * length (w ++ DQUOTE :: kb ++ DQUOTE :: w1 ++ COLON :: w2 ++ t ++
                 w3 ++ tail) + 3 <= fuel)%nat ->
    object_loop content fuel obj idx = Raise e.

(** It does the same behind any members before it. *)
Lemma object_loop_fails (body : str) (ps : list (str * Value)) :
  Grammar.members false body ps ->
  forall content fuel obj idx w,
    ws w ->
    delimited tail = true \/
    (exists b s, body = b ++ [s] /\ is_ws s || closing s = true) ->
    At content idx (w ++ body ++ tail) ->
    (3 * length (w ++ body ++ tail) + 3 <= fuel)%nat ->
    object_loop content fuel obj idx = Raise e.
Proof.
  induction 1 as [ kb k w1 w2 t v w3 Hk Hw1 Hw2 Hv Hw3
                 | kb k w1 w2 t v w3 w4 body ps Hk Hw1 Hw2 Hv Hw3 Hw4 Hm IHm ];
    intros content fuel obj idx w Hw Hsep A0 Hf.
  - norm A0. norm Hf.
    apply (last_fails content fuel obj idx w kb k w1 w2 t v w3); auto.
    destruct Hsep as [Hd|(b & s & E & Hs)];
      [left; apply ws_app_delimited; auto|].
    replace (DQUOTE :: kb ++ DQUOTE :: w1 ++ COLON :: w2 ++ t ++ w3)
      with ((DQUOTE :: kb ++ DQUOTE :: w1 ++ COLON :: w2) ++ t ++ w3) in E
      by (repeat (cbn [app]; rewrite <- app_assoc); reflexivity).
    destruct (value_head _ _ _ Hv) as (c & t' & Et & _).
    destruct (app_last_part (DQUOTE :: kb ++ DQUOTE :: w1 ++ COLON :: w2)
                            (t ++ w3) b s) as (b2 & E2); auto;
      [subst t; discriminate|].
    apply (last_value_ends t w3 tail b2 v s); auto.
  - destruct (members_head _ _ _ Hm) as (b' & Eb).
    norm A0. norm Hf. fuelS fuel Hf.
    destruct (object_loop_member content fuel obj idx w kb k w1 w2 t v w3
                (COMMA :: w4 ++ body ++ tail))
      as (i & A & E); auto.
    { left. apply ws_app_delimited; auto. }
    rewrite E, (peek_cons _ _ _ _ A). cbn [is_char Z.eqb Pos.eqb].
    rewrite (next_cons _ _ _ _ A). cbn [snd]. apply At_step in A.
    autorewrite with len in Hf.
    destruct (skip_whitespace_spec content w4 (body ++ tail) fuel (i + 1))
      as (i2 & E2 & A2); auto; [subst body; reflexivity | lia |].
    rewrite E2.
    assert (P2 : _peek content i2 = Some DQUOTE)
      by (subst body; exact (peek_cons _ _ _ _ A2)).
    rewrite P2. cbn [Z.eqb Pos.eqb].
    apply (IHm content fuel (dict_set k v obj) i2 []); auto.
    + reflexivity.
    + destruct Hsep as [Hd|(b & s & E' & Hs)]; [left; exact Hd|right].
      replace (DQUOTE :: kb ++ DQUOTE :: w1 ++ COLON :: w2 ++ t ++ w3 ++
               COMMA :: w4 ++ body)
        with ((DQUOTE :: kb ++ DQUOTE :: w1 ++ COLON :: w2 ++ t ++ w3 ++
               COMMA :: w4) ++ body) in E'
        by (repeat (cbn [app]; rewrite <- app_assoc); reflexivity).
      destruct (app_last_part _ body b s (ltac:(subst body; discriminate)) E')
        as (b2 & E2').
      exists b2, s. split; auto.
    + cbn [app]. len.
Qed.

(** So does [decode], for an object that is the whole text. *)
Lemma decode_object_fails (w body : str) (ps : list (str * Value)) :
  ws w -> Grammar.members false body ps ->
  delimited tail = true \/
  (exists b s, body = b ++ [s] /\ is_ws s || closing s = true) ->
  decode (LBRACE :: w ++ body ++ tail) = Raise e.
Proof.
  intros Hw Hm Hsep. set (content := LBRACE :: w ++ body ++ tail).
  apply decode_raise; [reflexivity|].
  change (3 + 3 * length content)%nat with (S (S (1 + 3 * length content))).
  pose proof (At_init content) as A0.
  rewrite (parse_one_dispatch content _ _ _ _ A0). cbn [Z.eqb Pos.eqb].
  cbn [_parse_object]. rewrite (next_cons _ _ _ _ A0). cbn [snd].
  apply At_step in A0.
  rewrite (object_loop_fails body ps Hm content _ [] (-1 + 1) w Hw Hsep A0).
  - reflexivity.
  - unfold content. cbn [length]. lia.
Qed.

End ObjectFailures.

Section MemberStarts.

Variable e : exn.
Variable start : str.

(** What the loop does where [start] is in the place of a member. *)
Hypothesis start_fails :
  forall content fuel obj idx w,
    ws w -> At content idx (w ++ start) ->
    (3 * length (w ++ start) + 3 <= fuel)%nat ->
    object_loop content fuel obj idx = Raise e.

Hypothesis start_no_ws : ws_ahead start = false.
Hypothesis start_no_comma : hd_error start <> Some COMMA.
Hypothesis start_no_brace : hd_error start <> Some RBRACE.

(** It does so in the place of the first member and behind the comma of any
    member. *)
Lemma decode_member_start_fails (w pre : str) :
  ws w ->
  pre = [] \/
  (exists body ps w4, Grammar.members false body ps /\ ws w4 /\
                      pre = body ++ COMMA :: w4) ->
  decode (LBRACE :: w ++ pre ++ start) = Raise e.
Proof.
  intros Hw [->|(body & ps & w4 & Hm & Hw4 & ->)].
  - set (content := LBRACE :: w ++ [] ++ start).
    apply decode_raise; [reflexivity|].
    change (3 + 3 * length content)%nat with (S (S (1 + 3 * length content))).
    pose proof (At_init content) as A0.
    rewrite (parse_one_dispatch content _ _ _ _ A0). cbn [Z.eqb Pos.eqb].
    cbn [_parse_object]. rewrite (next_cons _ _ _ _ A0). cbn [snd].
    apply At_step in A0. cbn [app] in A0.
    rewrite (start_fails content _ [] (-1 + 1) w Hw A0); [reflexivity|].
    unfold content. cbn [length app]. lia.
  - rewrite <- app_assoc. cbn [app].
    apply (decode_object_fails e (COMMA :: w4 ++ start)) with (ps := ps);
      auto.
    intros content fuel obj idx w0 kb k w1 w2 t v w3
           Hw0 Hk Hw1 Hw2 Hv Hw3 Hd A0 Hf.
    fuelS fuel Hf.
    destruct (object_loop_member content fuel obj idx w0 kb k w1 w2 t v w3
                (COMMA :: w4 ++ start)) as (i & A & E); auto.
    rewrite E, (peek_cons _ _ _ _ A). cbn [is_char Z.eqb Pos.eqb].
    rewrite (next_cons _ _ _ _ A). cbn [snd]. apply At_step in A.
    norm_len Hf.
    destruct (skip_whitespace_spec content w4 start fuel (i + 1))
      as (i2 & E2 & A2); auto; [lia|].
    rewrite E2.
    assert (P : is_char (_peek content i2) COMMA = false /\
                is_char (_peek content i2) RBRACE = false).
    { destruct start as [|c r].
      - rewrite (peek_nil _ _ A2). split; reflexivity.
      - rewrite (peek_cons _ _ _ _ A2). cbn [is_char hd_error] in *.
        split; apply Z.eqb_neq; congruence. }
    destruct P as [P1 P2]. rewrite P1, P2.
    apply (start_fails content fuel _ i2 []); auto; [reflexivity|].
    cbn [app]. lia.
Qed.

End MemberStarts.

(** X21.  An object whose text ends where a member may begin, behind the
    opening brace or behind the comma of a member, fails as an object
    without its closing brace. *)
Theorem open_object_is_unterminated (w pre : str) :
  ws w ->
  pre = [] \/
  (exists body ps w4, Grammar.members false body ps /\ ws w4 /\
                      pre = body ++ COMMA :: w4) ->
  decode (LBRACE :: w ++ pre) = Raise (JSONDecodeError Object_unterminated).
Proof.
  intros Hw Hpre. rewrite <- (app_nil_r pre).
  apply (decode_member_start_fails _ []); auto; try discriminate.
  intros content fuel obj idx w0 Hw0 A0 Hf.
  autorewrite with len in Hf. fuelS fuel Hf. cbn [object_loop].
  destruct (skip_whitespace_spec content w0 [] fuel idx)
    as (i & E & A); auto; [cbn [length] in Hf; lia|].
  rewrite E, (peek_nil _ _ A). reflexivity.
Qed.

Lemma open_object_is_unterminated_witness :
  decode (LBRACE :: txt " " ++ txt "'a':1," ) =
  Raise (JSONDecodeError Object_unterminated).
Proof.
  apply (open_object_is_unterminated (txt " ") (txt "'a':1,"));
    [reflexivity|].
  right. exists (txt "'a':1"), [(txt "a", Integer 1)], []. repeat split.
  apply (Grammar.members_last false (txt "a") (txt "a") [] [] (txt "1")
           (Integer 1) []); try reflexivity.
  - cbv. apply Grammar.chars_raw; [lia | discriminate | discriminate |].
    apply Grammar.chars_nil.
  - apply (Grammar.v_integer false false (txt "1"));
      [reflexivity|cbv; discriminate].
Defined.

(** X22.  Where a member may begin, behind the opening brace or behind the
    comma of a member, any character other than a double quote, the closing
    brace and another comma makes the text fail: keys must be strings. *)
Theorem key_must_be_string (w pre : str) (c : char) (r : str) :
  ws w ->
  pre = [] \/
  (exists body ps w4, Grammar.members false body ps /\ ws w4 /\
                      pre = body ++ COMMA :: w4) ->
  is_ws c = false -> c <> DQUOTE -> c <> RBRACE -> c <> COMMA ->
  decode (LBRACE :: w ++ pre ++ c :: r) =
  Raise (JSONDecodeError Keys_must_be_strings).
Proof.
  intros Hw Hpre Hc H1 H2 H3.
  apply (decode_member_start_fails _ (c :: r)); auto;
    try (cbn [hd_error]; congruence).
  intros content fuel obj idx w0 Hw0 A0 Hf.
  autorewrite with len in Hf. fuelS fuel Hf. cbn [object_loop].
  destruct (skip_whitespace_spec content w0 (c :: r) fuel idx)
    as (i & E & A); auto; [lia|].
  rewrite E, (peek_cons _ _ _ _ A). zbool. reflexivity.
Qed.

Lemma key_must_be_string_witness :
  decode (LBRACE :: [] ++ [] ++ 97 :: txt ":1}") =
  Raise (JSONDecodeError Keys_must_be_strings).
Proof.
  apply (key_must_be_string [] [] 97 (txt ":1}"));
    first [reflexivity | lia | left; reflexivity].
Defined.

(** X23.  A key that is followed, behind white space, by the end of the
    text or by a character other than a colon makes the text fail: the key
    is not followed by its colon. *)
Theorem key_without_colon_refused (w pre kb k w1 r : str) :
  ws w ->
  pre = [] \/
  (exists body ps w4, Grammar.members false body ps /\ ws w4 /\
                      pre = body ++ COMMA :: w4) ->
  Grammar.chars false kb k -> ws w1 -> ws_ahead r = false ->
  hd_error r <> Some COLON ->
  decode (LBRACE :: w ++ pre ++ DQUOTE :: kb ++ DQUOTE :: w1 ++ r) =
  Raise (JSONDecodeError Key_without_colon).
Proof.
  intros Hw Hpre Hk Hw1 Hr Hc.
  apply (decode_member_start_fails _ (DQUOTE :: kb ++ DQUOTE :: w1 ++ r));
    auto; try discriminate.
  intros content fuel obj idx w0 Hw0 A0 Hf.
  norm_len Hf. fuelS fuel Hf. cbn [object_loop].
  destruct (skip_whitespace_spec content w0
              (DQUOTE :: kb ++ DQUOTE :: w1 ++ r) fuel idx)
    as (i1 & E1 & A1); auto; [lia|].
  rewrite E1, (peek_cons _ _ _ _ A1). cbn [Z.eqb Pos.eqb negb].
  destruct (parse_string_chars content kb k _ fuel i1 Hk A1)
    as (i2 & E2 & A2); [lia|].
  rewrite E2.
  destruct (skip_whitespace_spec content w1 r fuel i2)
    as (i3 & E3 & A3); auto; [lia|].
  rewrite E3. destruct r as [|c r].
  - rewrite (next_nil _ _ A3). reflexivity.
  - rewrite (next_cons _ _ _ _ A3). cbn [is_char hd_error] in *.
    replace (c =? COLON) with false
      by (symmetry; apply Z.eqb_neq; congruence).
    reflexivity.
Qed.

Lemma key_without_colon_refused_witness :
  decode (LBRACE :: [] ++ [] ++ DQUOTE :: txt "a" ++ DQUOTE :: txt " " ++
          txt "1}") =
  Raise (JSONDecodeError Key_without_colon).
Proof.
  apply (key_without_colon_refused [] [] (txt "a") (txt "a") (txt " ")
           (txt "1}")); try reflexivity; try discriminate.
  - left; reflexivity.
  - cbv. apply Grammar.chars_raw; [lia | discriminate | discriminate |].
    apply Grammar.chars_nil.
Defined.



(** X25.  A comma behind the last member, with the closing brace behind it,
    makes the text fail for the trailing comma, whatever follows. *)
Theorem object_trailing_comma_refused (w body : str)
        (ps : list (str * Value)) (w4 r : str) :
  ws w -> Grammar.members false body ps -> ws w4 ->
  decode (LBRACE :: w ++ body ++ COMMA :: w4 ++ RBRACE :: r) =
  Raise (JSONDecodeError Trailing_comma).
Proof.
  intros Hw Hm Hw4.
  apply (decode_object_fails _ (COMMA :: w4 ++ RBRACE :: r)) with (ps := ps);
    auto.
  intros content fuel obj idx w0 kb k w1 w2 t v w3
         Hw0 Hk Hw1 Hw2 Hv Hw3 Hd A0 Hf.
  fuelS fuel Hf.
  destruct (object_loop_member content fuel obj idx w0 kb k w1 w2 t v w3
              (COMMA :: w4 ++ RBRACE :: r)) as (i & A & E); auto.
  rewrite E, (peek_cons _ _ _ _ A). cbn [is_char Z.eqb Pos.eqb].
  rewrite (next_cons _ _ _ _ A). cbn [snd]. apply At_step in A.
  norm_len Hf.
  destruct (skip_whitespace_spec content w4 (RBRACE :: r) fuel (i + 1))
    as (i2 & E2 & A2); auto; [lia|].
  rewrite E2, (peek_cons _ _ _ _ A2). reflexivity.
Qed.

Lemma object_trailing_comma_refused_witness :
  decode (LBRACE :: [] ++ txt "'a':1" ++ COMMA :: [] ++ RBRACE :: []) =
  Raise (JSONDecodeError Trailing_comma).
Proof.
  apply (object_trailing_comma_refused [] (txt "'a':1")
           [(txt "a", Integer 1)] [] []); try reflexivity.
  apply (Grammar.members_last false (txt "a") (txt "a") [] [] (txt "1")
           (Integer 1) []); try reflexivity.
  - cbv. apply Grammar.chars_raw; [lia | discriminate | discriminate |].
    apply Grammar.chars_nil.
  - apply (Grammar.v_integer false false (txt "1"));
      [reflexivity|cbv; discriminate].
Defined.

(** X26.  Two commas behind a member, with at most white space between
    them, make the text fail for the two commas, whatever follows. *)
Theorem object_two_commas_refused (w body : str)
        (ps : list (str * Value)) (w4 r : str) :
  ws w -> Grammar.members false body ps -> ws w4 ->
  decode (LBRACE :: w ++ body ++ COMMA :: w4 ++ COMMA :: r) =
  Raise (JSONDecodeError Two_commas).
Proof.
  intros Hw Hm Hw4.
  apply (decode_object_fails _ (COMMA :: w4 ++ COMMA :: r)) with (ps := ps);
    auto.
  intros content fuel obj idx w0 kb k w1 w2 t v w3
         Hw0 Hk Hw1 Hw2 Hv Hw3 Hd A0 Hf.
  fuelS fuel Hf.
  destruct (object_loop_member content fuel obj idx w0 kb k w1 w2 t v w3
              (COMMA :: w4 ++ COMMA :: r)) as (i & A & E); auto.
  rewrite E, (peek_cons _ _ _ _ A). cbn [is_char Z.eqb Pos.eqb].
  rewrite (next_cons _ _ _ _ A). cbn [snd]. apply At_step in A.
  norm_len Hf.
  destruct (skip_whitespace_spec content w4 (COMMA :: r) fuel (i + 1))
    as (i2 & E2 & A2); auto; [lia|].
  rewrite E2, (peek_cons _ _ _ _ A2). reflexivity.
Qed.

Lemma object_two_commas_refused_witness :
  decode (LBRACE :: [] ++ txt "'a':1" ++ COMMA :: txt " " ++
          COMMA :: txt "'b':2}") =
  Raise (JSONDecodeError Two_commas).
Proof.
  apply (object_two_commas_refused [] (txt "'a':1")
           [(txt "a", Integer 1)] (txt " ") (txt "'b':2}")); try reflexivity.
  apply (Grammar.members_last false (txt "a") (txt "a") [] [] (txt "1")
           (Integer 1) []); try reflexivity.
  - cbv. apply Grammar.chars_raw; [lia | discriminate | discriminate |].
    apply Grammar.chars_nil.
  - apply (Grammar.v_integer false false (txt "1"));
      [reflexivity|cbv; discriminate].
Defined.

(** ** The top level, again *)

(** X27.  A text whose first character behind the white space starts no
    value fails as invalid JSON, whatever follows. *)
Theorem no_value_start_is_invalid (w : str) (c : char) (r : str) :
  ws w -> is_ws c = false ->
  (c =? LBRACE) || (c =? LBRACKET) || (c =? DQUOTE) || (c =? 116) ||
  (c =? 102) || (c =? 110) || (c =? MINUS) || Py.isdigit c = false ->
  decode (w ++ c :: r) = Raise (JSONDecodeError Invalid_JSON).
Proof.
  intros Hw Hc Hs. set (content := w ++ c :: r).
  unfold decode, JSONDecoder.decode. fold content.
  destruct (skip_whitespace_spec content w (c :: r) (3 + 3 * length content)
              (-1)) as (i & E & A); auto.
  { apply At_init. }
  { unfold content. autorewrite with len. lia. }
  rewrite E.
  pose proof (parse_one_refuses content (2 + 3 * length content) i) as R.
  rewrite (peek_cons _ _ _ _ A) in R.
  change (3 + 3 * length content)%nat with (S (2 + 3 * length content)).
  rewrite (R Hs). reflexivity.
Qed.

Lemma no_value_start_is_invalid_witness :
  decode (txt " " ++ 43 :: txt "1") = Raise (JSONDecodeError Invalid_JSON).
Proof.
  apply (no_value_start_is_invalid (txt " ") 43 (txt "1")); reflexivity.
Defined.



(** X29.  A value that [_parse_one] returns took at least one character,
    and the cursor it leaves is within the text. *)
Theorem value_takes_characters (content : str) (fuel : nat) (idx : Z)
        (v : Value) (idx' : Z) :
  idx <= n content - 1 ->
  3 * (n content - 1 - idx) + 2 <= Z.of_nat fuel ->
  _parse_one content fuel idx = Return (v, idx') ->
  idx < idx' <= n content - 1.
Proof.
  intros Hi Hf H.
  pose proof (proj1 (parsers_end content fuel) idx Hi Hf) as F.
  rewrite H in F. exact F.
Qed.

Lemma value_takes_characters_witness :
  0 < 3 <= n (txt "[[1]]") - 1.
Proof.
  apply (value_takes_characters (txt "[[1]]") 14 0 (Array [Integer 1]) 3);
    [cbn; lia | cbn; lia | reflexivity].
Defined.

(** ** The fuel of the model *)

Section Fuel.

Variable content : str.

(** Take the next test of a loop that is run with two amounts of fuel. *)
Ltac same_test :=
  match goal with
  | |- context [if ?b then _ else _] => destruct b
  | |- context [match ?o with Some _ => _ | None => _ end] => destruct o
  | |- context [let (_, _) := ?x in _] => destruct x
  | |- context [match ?m with
                | Return _ => _ | Raise _ => _ | OutOfFuel => _ end] =>
      destruct m as [[? ?]|?|]
  end.

(** A loop that ends with some fuel ends in the same way with more. *)
Lemma skip_whitespace_fuel (fuel : nat) : forall idx fuel',
  _skip_whitespace content fuel idx <> OutOfFuel -> (fuel <= fuel')%nat ->
  _skip_whitespace content fuel' idx = _skip_whitespace content fuel idx.
Proof.
  induction fuel as [|fuel IH]; intros idx fuel' H Hle;
    [exfalso; apply H; reflexivity|].
  destruct fuel' as [|fuel']; [lia|]. revert H. cbn [_skip_whitespace].
  repeat same_test; intros H; auto. apply IH; auto; lia.
Qed.

Lemma string_loop_fuel (fuel : nat) : forall s char idx fuel',
  string_loop content fuel s char idx <> OutOfFuel -> (fuel <= fuel')%nat ->
  string_loop content fuel' s char idx = string_loop content fuel s char idx.
Proof.
  induction fuel as [|fuel IH]; intros s char idx fuel' H Hle;
    [exfalso; apply H; reflexivity|].
  destruct fuel' as [|fuel']; [lia|]. revert H. cbn [string_loop].
  repeat same_test; intros H; auto; apply IH; auto; lia.
Qed.

Lemma parse_string_fuel (fuel : nat) (idx : Z) (fuel' : nat) :
  _parse_string content fuel idx <> OutOfFuel -> (fuel <= fuel')%nat ->
  _parse_string content fuel' idx = _parse_string content fuel idx.
Proof.
  unfold _parse_string. repeat same_test. apply string_loop_fuel.
Qed.

Lemma number_loop_fuel (fuel : nat) : forall s fl idx fuel',
  number_loop content fuel s fl idx <> OutOfFuel -> (fuel <= fuel')%nat ->
  number_loop content fuel' s fl idx = number_loop content fuel s fl idx.
Proof.
  induction fuel as [|fuel IH]; intros s fl idx fuel' H Hle;
    [exfalso; apply H; reflexivity|].
  destruct fuel' as [|fuel']; [lia|]. revert H. cbn [number_loop].
  destruct (_peek content idx) as [c|]; auto.
  destruct (negb (Py.isspace c) && negb (closes c)); auto.
  intros H. apply IH; auto; lia.
Qed.

Lemma parse_number_fuel (fuel : nat) (idx : Z) (fuel' : nat) :
  _parse_number content fuel idx <> OutOfFuel -> (fuel <= fuel')%nat ->
  _parse_number content fuel' idx = _parse_number content fuel idx.
Proof.
  unfold _parse_number. intros H Hle.
  rewrite (number_loop_fuel fuel [] false idx fuel'); auto.
  intros E. rewrite E in H. congruence.
Qed.

Lemma literal_loop_fuel (fuel : nat) : forall s idx fuel',
  literal_loop content fuel s idx <> OutOfFuel -> (fuel <= fuel')%nat ->
  literal_loop content fuel' s idx = literal_loop content fuel s idx.
Proof.
  induction fuel as [|fuel IH]; intros s idx fuel' H Hle;
    [exfalso; apply H; reflexivity|].
  destruct fuel' as [|fuel']; [lia|]. revert H. cbn [literal_loop].
  destruct (_peek content idx) as [c|]; auto.
  destruct (negb (Py.isspace c) && negb (closes c)); auto.
  intros H. apply IH; auto; lia.
Qed.

Lemma parse_literal_fuel (fuel : nat) (idx : Z) (fuel' : nat) :
  _parse_literal content fuel idx <> OutOfFuel -> (fuel <= fuel')%nat ->
  _parse_literal content fuel' idx = _parse_literal content fuel idx.
Proof.
  unfold _parse_literal. intros H Hle.
  rewrite (literal_loop_fuel fuel [] idx fuel'); auto.
  intros E. rewrite E in H. congruence.
Qed.

(** Take the next call of a routine that is run with two amounts of fuel:
    with more fuel the call gives what it gave. *)
Ltac same_call fuel fuel' IH1 :=
  match goal with
  | |- context [match ?m with
                | Return _ => _ | Raise _ => _ | OutOfFuel => _ end] =>
      let E := fresh "E" in
      lazymatch m with
      | _skip_whitespace content fuel ?i =>
          destruct m as [[? ?]|?|] eqn:E; [| |congruence];
          (rewrite (skip_whitespace_fuel fuel i fuel');
           [rewrite E | rewrite E; discriminate | lia])
      | _parse_string content fuel ?i =>
          destruct m as [[? ?]|?|] eqn:E; [| |congruence];
          (rewrite (parse_string_fuel fuel i fuel');
           [rewrite E | rewrite E; discriminate | lia])
      | _parse_one content fuel ?i =>
          destruct m as [[? ?]|?|] eqn:E; [| |congruence];
          (rewrite (IH1 i); [rewrite E | rewrite E; discriminate])
      end
  | |- context [if ?b then _ else _] => destruct b
  | |- context [match ?o with Some _ => _ | None => _ end] => destruct o
  | |- context [let (_, _) := ?x in _] => destruct x
  end.

Lemma parsers_fuel (fuel : nat) : forall fuel', (fuel <= fuel')%nat ->
  (forall idx,
     _parse_one content fuel idx <> OutOfFuel ->
     _parse_one content fuel' idx = _parse_one content fuel idx) /\
  (forall idx,
     _parse_object content fuel idx <> OutOfFuel ->
     _parse_object content fuel' idx = _parse_object content fuel idx) /\
  (forall obj idx,
     object_loop content fuel obj idx <> OutOfFuel ->
     object_loop content fuel' obj idx = object_loop content fuel obj idx) /\
  (forall idx,
     _parse_array content fuel idx <> OutOfFuel ->
     _parse_array content fuel' idx = _parse_array content fuel idx) /\
  (forall arr idx,
     array_loop content fuel arr idx <> OutOfFuel ->
     array_loop content fuel' arr idx = array_loop content fuel arr idx).
Proof.
  induction fuel as [|fuel IH]; intros fuel' Hle;
    [repeat split; intros; exfalso; auto|].
  destruct fuel' as [|fuel']; [lia|].
  destruct (IH fuel' ltac:(lia)) as (IH1 & IH2 & IH3 & IH4 & IH5).
  split; [|split; [|split; [|split]]].
  - intros idx. cbn [_parse_one].
    destruct (_peek content idx) as [c|]; auto.
    destruct (c =? 123).
    { intros H. rewrite IH2; auto. intros E. rewrite E in H. congruence. }
    destruct (c =? 91).
    { intros H. rewrite IH4; auto. intros E. rewrite E in H. congruence. }
    destruct (c =? 34).
    { intros H. rewrite (parse_string_fuel fuel idx fuel'); auto; [|lia].
      intros E. rewrite E in H. congruence. }
    destruct ((c =? 116) || (c =? 102) || (c =? 110)).
    { intros H. apply parse_literal_fuel; auto; lia. }
    destruct ((c =? 45) || Py.isdigit c); auto.
    intros H. apply parse_number_fuel; auto; lia.
  - intros idx. cbn [_parse_object]. apply IH3.
  - intros obj idx. cbn [object_loop]. cbv zeta.
    repeat same_call fuel fuel' IH1; auto; try (intros; reflexivity).
  - intros idx. cbn [_parse_array]. apply IH5.
  - intros arr idx. cbn [array_loop]. cbv zeta.
    repeat same_call fuel fuel' IH1; auto; try (intros; reflexivity).
Qed.

End Fuel.

(** ** What lies before the cursor *)

Section Before.

Variable p content : str.

Local Abbreviation k := (Z.of_nat (length p)).

(** The result of a run, with its cursor counted from the start of [p]. *)
Local Abbreviation moved r :=
  (match r with
   | Return (a, i) => Return (a, i + k)
   | Raise e => Raise e
   | OutOfFuel => OutOfFuel
   end).

Lemma peek_before idx :
  -1 <= idx -> _peek (p ++ content) (idx + k) = _peek content idx.
Proof.
  intros Hi. unfold _peek, n. rewrite length_app, Nat2Z.inj_add.
  destruct (Z.ltb_spec (idx + 1) (Z.of_nat (length content)));
    destruct (Z.ltb_spec (idx + k + 1) (k + Z.of_nat (length content)));
    try lia; [|reflexivity].
  rewrite nth_error_app2 by lia. f_equal. lia.
Qed.

Lemma next_before idx :
  -1 <= idx ->
  _next (p ++ content) (idx + k) =
  (fst (_next content idx), snd (_next content idx) + k).
Proof.
  intros Hi. unfold _next. rewrite peek_before by exact Hi.
  destruct (_peek content idx); cbn [fst snd]; f_equal; lia.
Qed.

(** Use what is known of the cursor in front of [p ++ content]. *)
Ltac before_step :=
  match goal with
  | |- context [_peek (p ++ content) (?i + k)] =>
      rewrite (peek_before i) by lia
  | |- context [_next (p ++ content) (?i + k)] =>
      rewrite (next_before i) by lia;
      let E := fresh "E" in
      destruct (_next content i) as [? ?] eqn:E;
      apply next_mono_eq in E; cbn [fst snd]
  | |- context [if ?b then _ else _] => destruct b
  | |- context [match ?o with Some _ => _ | None => _ end] => destruct o
  end.

Lemma skip_whitespace_before fuel : forall idx,
  -1 <= idx ->
  _skip_whitespace (p ++ content) fuel (idx + k) =
  moved (_skip_whitespace content fuel idx).
Proof.
  induction fuel as [|fuel IH]; intros idx Hi; [reflexivity|].
  cbn [_skip_whitespace]. rewrite peek_before by exact Hi.
  destruct (_peek content idx) as [c|]; [|reflexivity].
  destruct ((c =? 32) || (c =? 9) || (c =? 10) || (c =? 13)); [|reflexivity].
  rewrite next_before by exact Hi. cbn [snd].
  apply IH. pose proof (next_mono content idx). lia.
Qed.

Lemma hex_loop_before j : forall h idx,
  -1 <= idx ->
  hex_loop (p ++ content) j h (idx + k) = moved (hex_loop content j h idx).
Proof.
  induction j as [|j IH]; intros h idx Hi; [reflexivity|].
  cbn [hex_loop]. rewrite next_before by exact Hi.
  destruct (_next content idx) as [[c|] i] eqn:E; cbn [fst snd];
    [|reflexivity].
  apply next_mono_eq in E.
  destruct (Py.isdigit c || Py.lower_in_abcdef c); [|reflexivity].
  apply IH. lia.
Qed.

Lemma string_loop_before fuel : forall s char idx,
  -1 <= idx ->
  string_loop (p ++ content) fuel s char (idx + k) =
  moved (string_loop content fuel s char idx).
Proof.
  induction fuel as [|fuel IH]; intros s char idx Hi; [reflexivity|].
  cbn [string_loop].
  destruct char as [c|]; [|reflexivity].
  destruct (Py.ord c <? 32); [reflexivity|].
  destruct (c =? 34); [reflexivity|].
  destruct (c =? 92).
  - rewrite next_before by exact Hi.
    destruct (_next content idx) as [[x|] i] eqn:E; cbn [fst snd];
      [|reflexivity].
    apply next_mono_eq in E.
    destruct (x =? 117).
    + rewrite hex_loop_before by lia.
      destruct (hex_loop content 4 [] i) as [[hs i']|e|] eqn:Eh;
        [|reflexivity|reflexivity].
      apply hex_loop_mono in Eh.
      destruct (Py.int 16 hs) as [v|]; [|reflexivity].
      destruct (Py.chr v); [|reflexivity].
      rewrite next_before by lia.
      destruct (_next content i') as [o i''] eqn:E'; cbn [fst snd].
      apply next_mono_eq in E'. apply IH. lia.
    + destruct (lookup x _ESCAPE_CHARACTERS); [|reflexivity].
      rewrite next_before by lia.
      destruct (_next content i) as [o i''] eqn:E'; cbn [fst snd].
      apply next_mono_eq in E'. apply IH. lia.
  - rewrite next_before by exact Hi.
    destruct (_next content idx) as [o i] eqn:E; cbn [fst snd].
    apply next_mono_eq in E. apply IH. lia.
Qed.

Lemma parse_string_before fuel idx :
  -1 <= idx ->
  _parse_string (p ++ content) fuel (idx + k) =
  moved (_parse_string content fuel idx).
Proof.
  intros Hi. unfold _parse_string. rewrite next_before by exact Hi.
  destruct (_next content idx) as [o i] eqn:E; cbn [fst snd].
  apply next_mono_eq in E. rewrite next_before by lia.
  destruct (_next content i) as [o' i'] eqn:E'; cbn [fst snd].
  apply next_mono_eq in E'. apply string_loop_before. lia.
Qed.

Lemma number_loop_before fuel : forall s fl idx,
  -1 <= idx ->
  number_loop (p ++ content) fuel s fl (idx + k) =
  moved (number_loop content fuel s fl idx).
Proof.
  induction fuel as [|fuel IH]; intros s fl idx Hi; [reflexivity|].
  cbn [number_loop]. rewrite peek_before by exact Hi.
  destruct (_peek content idx) as [c|]; [|reflexivity].
  destruct (negb (Py.isspace c) && negb (closes c)); [|reflexivity].
  rewrite next_before by exact Hi. cbn [snd].
  apply IH. pose proof (next_mono content idx). lia.
Qed.

Lemma parse_number_before fuel idx :
  -1 <= idx ->
  _parse_number (p ++ content) fuel (idx + k) =
  moved (_parse_number content fuel idx).
Proof.
  intros Hi. unfold _parse_number. rewrite number_loop_before by exact Hi.
  destruct (number_loop content fuel [] false idx) as [[[s fl] i]|e|];
    [|reflexivity|reflexivity].
  destruct (Py.index s (-1)) as [l|]; [|reflexivity].
  destruct (l =? 46); [reflexivity|].
  destruct (begins_with_zero s) as [[|]|]; try reflexivity.
  destruct fl; [destruct (Py.float s)|destruct (Py.int 10 s)]; reflexivity.
Qed.

Lemma literal_loop_before fuel : forall s idx,
  -1 <= idx ->
  literal_loop (p ++ content) fuel s (idx + k) =
  moved (literal_loop content fuel s idx).
Proof.
  induction fuel as [|fuel IH]; intros s idx Hi; [reflexivity|].
  cbn [literal_loop]. rewrite peek_before by exact Hi.
  destruct (_peek content idx) as [c|]; [|reflexivity].
  destruct (negb (Py.isspace c) && negb (closes c)); [|reflexivity].
  rewrite next_before by exact Hi. cbn [snd].
  apply IH. pose proof (next_mono content idx). lia.
Qed.

Lemma parse_literal_before fuel idx :
  -1 <= idx ->
  _parse_literal (p ++ content) fuel (idx + k) =
  moved (_parse_literal content fuel idx).
Proof.
  intros Hi. unfold _parse_literal. rewrite literal_loop_before by exact Hi.
  destruct (literal_loop content fuel [] idx) as [[s i]|e|];
    [|reflexivity|reflexivity].
  destruct (str_eqb s (txt "true")); [reflexivity|].
  destruct (str_eqb s (txt "false")); [reflexivity|].
  destruct (str_eqb s (txt "null")); reflexivity.
Qed.

(** Take the next call of a routine that is run in front of
    [p ++ content]. *)
Ltac before_call fuel IH1 :=
  match goal with
  | |- context [_skip_whitespace (p ++ content) fuel (?i + k)] =>
      rewrite (skip_whitespace_before fuel i) by lia;
      let E := fresh "E" in
      destruct (_skip_whitespace content fuel i) as [[? ?]|?|] eqn:E;
      [apply skip_whitespace_mono in E|reflexivity|reflexivity]
  | |- context [_parse_string (p ++ content) fuel (?i + k)] =>
      rewrite (parse_string_before fuel i) by lia;
      let E := fresh "E" in
      destruct (_parse_string content fuel i) as [[? ?]|?|] eqn:E;
      [apply parse_string_mono in E|reflexivity|reflexivity]
  | |- context [_parse_one (p ++ content) fuel (?i + k)] =>
      rewrite (IH1 i) by lia;
      let E := fresh "E" in
      destruct (_parse_one content fuel i) as [[? ?]|?|] eqn:E;
      [apply parse_one_mono in E|reflexivity|reflexivity]
  | _ => before_step
  end.

(** A run in front of [p ++ content], behind [p], is the run in front of
    [content]. *)
Lemma parsers_before (fuel : nat) :
  (forall idx, -1 <= idx ->
     _parse_one (p ++ content) fuel (idx + k) =
     moved (_parse_one content fuel idx)) /\
  (forall idx, -1 <= idx ->
     _parse_object (p ++ content) fuel (idx + k) =
     moved (_parse_object content fuel idx)) /\
  (forall obj idx, -1 <= idx ->
     object_loop (p ++ content) fuel obj (idx + k) =
     moved (object_loop content fuel obj idx)) /\
  (forall idx, -1 <= idx ->
     _parse_array (p ++ content) fuel (idx + k) =
     moved (_parse_array content fuel idx)) /\
  (forall arr idx, -1 <= idx ->
     array_loop (p ++ content) fuel arr (idx + k) =
     moved (array_loop content fuel arr idx)).
Proof.
  induction fuel as [|fuel (IH1 & IH2 & IH3 & IH4 & IH5)];
    [repeat split; intros; reflexivity|].
  split; [|split; [|split; [|split]]].
  - intros idx Hi. cbn [_parse_one]. rewrite peek_before by exact Hi.
    destruct (_peek content idx) as [c|]; [|reflexivity].
    destruct (c =? 123).
    { rewrite IH2 by exact Hi.
      destruct (_parse_object content fuel idx) as [[d j]|e|]; reflexivity. }
    destruct (c =? 91).
    { rewrite IH4 by exact Hi.
      destruct (_parse_array content fuel idx) as [[d j]|e|]; reflexivity. }
    destruct (c =? 34).
    { rewrite parse_string_before by exact Hi.
      destruct (_parse_string content fuel idx) as [[d j]|e|]; reflexivity. }
    destruct ((c =? 116) || (c =? 102) || (c =? 110)).
    { apply parse_literal_before; exact Hi. }
    destruct ((c =? 45) || Py.isdigit c); [|reflexivity].
    apply parse_number_before; exact Hi.
  - intros idx Hi. cbn [_parse_object]. rewrite next_before by exact Hi.
    cbn [snd]. apply IH3. pose proof (next_mono content idx). lia.
  - intros obj idx Hi. cbn [object_loop]. cbv zeta.
    repeat before_call fuel IH1; try reflexivity;
      try (apply IH3; lia).
  - intros idx Hi. cbn [_parse_array]. rewrite next_before by exact Hi.
    cbn [snd]. apply IH5. pose proof (next_mono content idx). lia.
  - intros arr idx Hi. cbn [array_loop]. cbv zeta.
    repeat before_call fuel IH1; try reflexivity;
      try (apply IH5; lia).
Qed.

End Before.

Lemma decode_behind_white_space (w s : str) :
  ws w -> ws_ahead s = false -> decode (w ++ s) = decode s.
Proof.
  intros Hw Hs. unfold decode, JSONDecoder.decode.
  set (F := (3 + 3 * length (w ++ s))%nat).
  set (F0 := (3 + 3 * length s)%nat).
  assert (HF : (F0 <= F)%nat) by (unfold F, F0; rewrite length_app; lia).
  assert (Hn : n s = Z.of_nat (length s)) by reflexivity.
  rewrite (skip_whitespace_exact (w ++ s) w s F (-1) Hw Hs (At_init _))
    by (unfold F; rewrite length_app; lia).
  rewrite (skip_whitespace_exact s [] s F0 (-1) eq_refl Hs (At_init _))
    by (cbn [length]; unfold F0; lia).
  cbn [length Z.of_nat]. rewrite Z.add_0_r.
  rewrite (proj1 (parsers_before w s F) (-1)) by lia.
  pose proof (proj1 (parsers_end s F0) (-1)) as E1.
  rewrite (proj1 (parsers_fuel s F0 F HF) (-1)).
  2:{ intros E. rewrite E in E1. apply E1; unfold F0; lia. }
  destruct (_parse_one s F0 (-1)) as [[v j]|e|]; [|reflexivity|reflexivity].
  cbn [advances] in E1. specialize (E1 ltac:(lia) ltac:(unfold F0; lia)).
  rewrite (skip_whitespace_before w s F j) by lia.
  pose proof (skip_whitespace_ends s F0 j) as E2.
  rewrite (skip_whitespace_fuel s F0 j F); [| |exact HF].
  2:{ intros E. rewrite E in E2. apply E2; unfold F0; lia. }
  destruct (_skip_whitespace s F0 j) as [[u i]|e|] eqn:E3;
    [|reflexivity|reflexivity].
  apply skip_whitespace_mono in E3.
  rewrite (peek_before w s i) by lia. reflexivity.
Qed.

(** X30.  White space before a text changes nothing: [decode] returns the
    same value, or raises the same exception, as for the text alone. *)
Theorem leading_white_space_ignored (w text : str) :
  ws w -> decode (w ++ text) = decode text.
Proof.
  intros Hw. destruct (ws_split text) as (w' & s & -> & Hw' & Hs).
  rewrite app_assoc.
  rewrite (decode_behind_white_space (w ++ w') s (ws_app _ _ Hw Hw') Hs).
  rewrite (decode_behind_white_space w' s Hw' Hs). reflexivity.
Qed.

Lemma leading_white_space_ignored_witness :
  decode (txt "  " ++ txt "[1,]") = decode (txt "[1,]").
Proof.
  apply (leading_white_space_ignored (txt "  ") (txt "[1,]")). reflexivity.
Defined.
